(** * Primitive extraction of the glTF exporter

    A shallow embedding of
    [addons/io_scene_gltf2/blender/exp/gltf2_blender_extract.py]:
    the corner records ("dots"), their deduplication with [np.unique],
    the material buckets, the skin weight packing and the attribute
    getters, together with the properties the specification states
    about them.

    Numbers.  The arrays of the source hold [float32] values.  They are
    modelled by the rationals [Qc]: every finite float is a rational, the
    order and the equality of finite floats are those of the rationals,
    and rounding and NaN are left out.  Functions of numpy and mathutils
    that leave the rationals (norm, power, the quaternion of a matrix, the
    rotation between two vectors) are fields of the interface [Externals];
    those that stay in them (the determinant, the inverse of a matrix with
    its ValueError, the matrix of a quaternion) are defined in [Matrix] and
    [Quaternion]. *)

From Stdlib Require Import QArith Qcanon.
From stdpp Require Import base numbers list sorting strings pretty gmap.

Local Open Scope Qc_scope.

(** ** The parts of numpy the module uses *)

Module np.

Section indexing.
Context {A : Type}.

(** [a[mask]] with a boolean mask of the length of [a]. *)
Fixpoint bool_index (a : list A) (mask : list bool) : list A :=
match a, mask with
| x :: a', b :: mask' =>
    if b then x :: bool_index a' mask' else bool_index a' mask'
| _, _ => []
end.

(** [a[idx]] with an array of indices; an index out of range raises
  IndexError, here [None]. *)
Definition take (a : list A) (idx : list nat) : option (list A) :=
mapM (λ i, a !! i) idx.

(** [np.repeat(a, n)]. *)
Definition repeat (a : list A) (n : nat) : list A :=
x ← a; replicate n x.
End indexing.

Section unique.
Context {A : Type} `{EqDecision A}.
Context (le : relation A) `{!RelDecision le}.

(** [ar.sort()] *)
Definition sort (ar : list A) : list A := merge_sort le ar.

(** [aux[1:] != aux[:-1]], with the element before the slice as [prev]. *)
Fixpoint changes (prev : A) (aux : list A) : list bool :=
match aux with
| [] => []
| x :: aux' => bool_decide (x ≠ prev) :: changes x aux'
end.

(** [mask[:1] = True; mask[1:] = aux[1:] != aux[:-1]] *)
Definition mask (aux : list A) : list bool :=
match aux with
| [] => []
| x :: aux' => true :: changes x aux'
end.

(** [np.unique(ar)]: the sorted unique elements. *)
Definition unique (ar : list A) : list A :=
let aux := sort ar in bool_index aux (mask aux).

(** The position of [x] in [u]. *)
Definition index_in (u : list A) (x : A) : nat :=
default 0%nat (fst <$> list_find (λ y, y = x) u).

(** [np.unique(ar, return_inverse=True)]: the sorted unique elements and,
  for every element of [ar], its index in them. *)
Definition unique_inverse (ar : list A) : list A * list nat :=
let u := unique ar in (u, index_in u <$> ar).
End unique.

End np.

(** ** Vectors and matrices *)

Definition vec2 : Type := Qc * Qc.
Definition vec3 : Type := Qc * Qc * Qc.
Definition vec4 : Type := Qc * Qc * Qc * Qc.
(** Matrices are given by their rows. *)
Definition mat3 : Type := vec3 * vec3 * vec3.
Definition mat4 : Type := vec4 * vec4 * vec4 * vec4.

Module Vector.
Definition add (a b : vec3) : vec3 :=
  let '(ax, ay, az) := a in let '(bx, b_y, bz) := b in
  (ax + bx, ay + b_y, az + bz).
Definition sub (a b : vec3) : vec3 :=
  let '(ax, ay, az) := a in let '(bx, b_y, bz) := b in
  (ax - bx, ay - b_y, az - bz).
Definition dot (a b : vec3) : Qc :=
  let '(ax, ay, az) := a in let '(bx, b_y, bz) := b in
  ax * bx + ay * b_y + az * bz.
Definition scale (k : Qc) (a : vec3) : vec3 :=
  let '(ax, ay, az) := a in (k * ax, k * ay, k * az).
End Vector.

Module Matrix.
(** [m.to_3x3()] *)
Definition to_3x3 (m : mat4) : mat3 :=
  let '((a, b, c, _), (d, e, f, _), (g, h, i, _), _) := m in
  ((a, b, c), (d, e, f), (g, h, i)).

(** [m.translation] *)
Definition translation (m : mat4) : vec3 :=
  let '((_, _, _, tx), (_, _, _, ty), (_, _, _, tz), _) := m in (tx, ty, tz).

(** [m.transposed()] *)
Definition transposed (m : mat3) : mat3 :=
  let '((a, b, c), (d, e, f), (g, h, i)) := m in
  ((a, d, g), (b, e, h), (c, f, i)).

(** [m @ v] *)
Definition mulvec (m : mat3) (v : vec3) : vec3 :=
  let '(r0, r1, r2) := m in (Vector.dot r0 v, Vector.dot r1 v, Vector.dot r2 v).

(** [a @ b] on 3x3 matrices *)
Definition matmul3 (a b : mat3) : mat3 :=
  let '(c0, c1, c2) := transposed b in
  let row r := (Vector.dot r c0, Vector.dot r c1, Vector.dot r c2) in
  let '(r0, r1, r2) := a in (row r0, row r1, row r2).

Definition dot4 (a b : vec4) : Qc :=
  let '(a0, a1, a2, a3) := a in let '(b0, b1, b2, b3) := b in
  a0 * b0 + a1 * b1 + a2 * b2 + a3 * b3.

Definition transposed4 (m : mat4) : mat4 :=
  let '((a0, a1, a2, a3), (b0, b1, b2, b3),
        (c0, c1, c2, c3), (d0, d1, d2, d3)) := m in
  ((a0, b0, c0, d0), (a1, b1, c1, d1), (a2, b2, c2, d2), (a3, b3, c3, d3)).

(** [a @ b] on 4x4 matrices *)
Definition matmul4 (a b : mat4) : mat4 :=
  let '(c0, c1, c2, c3) := transposed4 b in
  let row r := (dot4 r c0, dot4 r c1, dot4 r c2, dot4 r c3) in
  let '(r0, r1, r2, r3) := a in (row r0, row r1, row r2, row r3).

(** [m.determinant()] of a 3x3 matrix *)
Definition determinant (m : mat3) : Qc :=
  let '((a, b, c), (d, e, f), (g, h, i)) := m in
  a * (e * i - f * h) - b * (d * i - f * g) + c * (d * h - e * g).

Definition identity3 : mat3 := ((1, 0, 0), (0, 1, 0), (0, 0, 1)).
Definition identity4 : mat4 := ((1, 0, 0, 0), (0, 1, 0, 0), (0, 0, 1, 0), (0, 0, 0, 1)).

(** The transposed matrix of the cofactors of a 3x3 matrix. *)
Definition adjugate (m : mat3) : mat3 :=
  let '((a, b, c), (d, e, f), (g, h, i)) := m in
  ((e * i - f * h, c * h - b * i, b * f - c * e),
   (f * g - d * i, a * i - c * g, c * d - a * f),
   (d * h - e * g, b * g - a * h, a * e - b * d)).

(** [m.inverted()] of a 3x3 matrix: the adjugate over the determinant.  A
    matrix of determinant zero has no inverse and raises ValueError, here
    [None]. *)
Definition inverted3 (m : mat3) : option mat3 :=
  let det := determinant m in
  if decide (det = 0) then None else
  let '(r0, r1, r2) := adjugate m in
  Some (Vector.scale (/ det) r0, Vector.scale (/ det) r1, Vector.scale (/ det) r2).

(** The 2x2 minors of the two upper rows ([s]) and of the two lower rows
    ([c]) of a 4x4 matrix, by which its determinant and its adjugate are
    written. *)
Definition minors (r0 r1 : vec4) : Qc * Qc * Qc * Qc * Qc * Qc :=
  let '(a0, a1, a2, a3) := r0 in let '(b0, b1, b2, b3) := r1 in
  (a0 * b1 - b0 * a1, a0 * b2 - b0 * a2, a0 * b3 - b0 * a3,
   a1 * b2 - b1 * a2, a1 * b3 - b1 * a3, a2 * b3 - b2 * a3).

(** [m.determinant()] of a 4x4 matrix *)
Definition determinant4 (m : mat4) : Qc :=
  let '(r0, r1, r2, r3) := m in
  let '(s0, s1, s2, s3, s4, s5) := minors r0 r1 in
  let '(c0, c1, c2, c3, c4, c5) := minors r2 r3 in
  s0 * c5 - s1 * c4 + s2 * c3 + s3 * c2 - s4 * c1 + s5 * c0.

Definition adjugate4 (m : mat4) : mat4 :=
  let '(r0, r1, r2, r3) := m in
  let '(s0, s1, s2, s3, s4, s5) := minors r0 r1 in
  let '(c0, c1, c2, c3, c4, c5) := minors r2 r3 in
  let '(a00, a01, a02, a03) := r0 in let '(a10, a11, a12, a13) := r1 in
  let '(a20, a21, a22, a23) := r2 in let '(a30, a31, a32, a33) := r3 in
  ((a11 * c5 - a12 * c4 + a13 * c3, - a01 * c5 + a02 * c4 - a03 * c3,
    a31 * s5 - a32 * s4 + a33 * s3, - a21 * s5 + a22 * s4 - a23 * s3),
   (- a10 * c5 + a12 * c2 - a13 * c1, a00 * c5 - a02 * c2 + a03 * c1,
    - a30 * s5 + a32 * s2 - a33 * s1, a20 * s5 - a22 * s2 + a23 * s1),
   (a10 * c4 - a11 * c2 + a13 * c0, - a00 * c4 + a01 * c2 - a03 * c0,
    a30 * s4 - a31 * s2 + a33 * s0, - a20 * s4 + a21 * s2 - a23 * s0),
   (- a10 * c3 + a11 * c1 - a12 * c0, a00 * c3 - a01 * c1 + a02 * c0,
    - a30 * s3 + a31 * s1 - a32 * s0, a20 * s3 - a21 * s1 + a22 * s0)).

Definition scale4 (k : Qc) (r : vec4) : vec4 :=
  let '(a, b, c, d) := r in (k * a, k * b, k * c, k * d).

(** [m.inverted()] of a 4x4 matrix; ValueError, here [None], for a matrix
    of determinant zero. *)
Definition inverted4 (m : mat4) : option mat4 :=
  let det := determinant4 m in
  if decide (det = 0) then None else
  let '(r0, r1, r2, r3) := adjugate4 m in
  Some (scale4 (/ det) r0, scale4 (/ det) r1, scale4 (/ det) r2, scale4 (/ det) r3).
End Matrix.

Module Quaternion.
(** [q.to_matrix()] of the quaternion (w, x, y, z). *)
Definition to_matrix (q : vec4) : mat3 :=
  let '(w, x, y, z) := q in
  let two : Qc := 1 + 1 in
  ((1 - two * (y * y + z * z), two * (x * y - w * z), two * (x * z + w * y)),
   (two * (x * y + w * z), 1 - two * (x * x + z * z), two * (y * z - w * x)),
   (two * (x * z - w * y), two * (y * z + w * x), 1 - two * (x * x + y * y))).

End Quaternion.

(** The argument of [__apply_mat_to_all] is a 3x3 or a 4x4 matrix
    ([len(matrix) == 4]). *)
Inductive matrix : Type :=
  | M3 (m : mat3)
  | M4 (m : mat4).

(** ** The Blender data the extraction reads *)

Module VertexGroupElement.
Record t : Type := mk { group : nat; weight : Qc }.
End VertexGroupElement.

Module MeshVertex.
Record t : Type := mk { co : vec3; groups : list VertexGroupElement.t }.
End MeshVertex.

Module MeshLoop.
Record t : Type := mk {
  vertex_index : nat;
  normal : vec3;
  tangent : vec3;
  bitangent_sign : Qc;
}.
End MeshLoop.

Module MeshLoopTriangle.
Record t : Type := mk { loops : nat * nat * nat; material_index : nat }.
End MeshLoopTriangle.

Module MeshPolygon.
Record t : Type := mk { loop_start : nat; loop_total : nat }.
End MeshPolygon.

Module ShapeKey.
(** [data] holds the [co] of every vertex, [normals_split] the result of
    [normals_split_get()] per loop; [is_relative_key] is
    [key_block == key_block.relative_key]. *)
Record t : Type := mk {
  data : list vec3;
  normals_split : list vec3;
  is_relative_key : bool;
  mute : bool;
}.
End ShapeKey.

Module Mesh.
(** [uv_layers] and [vertex_colors] hold one value per loop and layer,
    [face_maps] one value per polygon and map; [shape_keys] is [None]
    when the mesh has no shape keys, else the key blocks;
    [calc_tangents_ok] tells whether [calc_tangents()] returns without
    raising. *)
Record t : Type := mk {
  vertices : list MeshVertex.t;
  loops : list MeshLoop.t;
  loop_triangles : list MeshLoopTriangle.t;
  polygons : list MeshPolygon.t;
  uv_layers : list (list vec2);
  uv_layers_active : bool;
  vertex_colors : list (list vec4);
  face_maps : list (list Qc);
  shape_keys : option (list ShapeKey.t);
  calc_tangents_ok : bool;
}.
End Mesh.

Module Object.
(** A Blender object: [parent] is the name of the parent, [bones] the
    names of [object.data.bones]. *)
Record t : Type := mk {
  name : string;
  type : string;
  matrix_world : mat4;
  parent_type : string;
  parent : string;
  bones : list string;
}.
End Object.

Module Modifier.
Record t : Type := mk {
  type : string;
  object : option Object.t;
  use_vertex_groups : bool;
}.
End Modifier.

Module Skin.
(** The result of [gather_skin]: the names of its joints, in order. *)
Record t : Type := mk { joints : list string }.
End Skin.

Inductive materials_mode : Type := NONE | EXPORT | PLACEHOLDER.

Global Instance materials_mode_eq_dec : EqDecision materials_mode.
Proof. solve_decision. Defined.

Module export_keys.
Record t : Type := mk {
  NORMALS : bool;
  TANGENTS : bool;
  TEX_COORDS : bool;
  COLORS : bool;
  SKINS : bool;
  MORPH : bool;
  MORPH_NORMAL : bool;
  MORPH_TANGENT : bool;
  MATERIALS : materials_mode;
  YUP : bool;
}.
End export_keys.

(** ** Collaborators

    Operations of numpy and mathutils whose results are not rational, and
    the skin gatherer of the exporter, which this file calls and does not
    define. *)
Class Externals : Type := {
  (** [np.linalg.norm] of one row *)
  linalg_norm : vec3 → Qc;
  (** [np.power] *)
  power : Qc → Qc → Qc;
  (** [m.to_quaternion()], as (w, x, y, z) *)
  to_quaternion : mat4 → vec4;
  (** [a.rotation_difference(b)] and [v.rotate(q)] *)
  rotation_difference : vec3 → vec3 → vec4;
  rotate : vec3 → vec4 → vec3;
  (** [gltf2_blender_gather_skins.gather_skin]; [None] is a falsy result *)
  gather_skin : Object.t → export_keys.t → option Skin.t;
}.

(** ** The attribute getters *)

Section getters.
Context `{Externals}.

(** The two assignments of [__zup2yup], on one row. *)
Definition swap_yz (v : vec3) : vec3 := let '(x, y, z) := v in (x, z, y).
Definition negate_z (v : vec3) : vec3 := let '(x, y, z) := v in (x, y, - z).

(** [__zup2yup]: x,y,z -> x,z,-y on every row. *)
Definition __zup2yup (array : list vec3) : list vec3 :=
  negate_z <$> (swap_yz <$> array).

(** [__apply_mat_to_all]: [m @ v] for every row [v], computed as the row
    times the transposed matrix, plus the translation of a 4x4 matrix. *)
Definition __apply_mat_to_all (mat : matrix) (vectors : list vec3) : list vec3 :=
  let m := match mat with M4 m4 => Matrix.to_3x3 m4 | M3 m3 => m3 end in
  let mt := Matrix.transposed m in
  let res := (λ v, Matrix.mulvec (Matrix.transposed mt) v) <$> vectors in
  match mat with
  | M4 m4 => (λ v, Vector.add v (Matrix.translation m4)) <$> res
  | M3 _ => res
  end.

(** One row of [__normalize_vecs]: [np.divide(..., where=norms != 0)]
    leaves a row of norm zero as it is. *)
Definition normalize_vec (v : vec3) : vec3 :=
  let norm := linalg_norm v in
  if decide (norm ≠ 0) then
    let '(x, y, z) := v in (x / norm, y / norm, z / norm)
  else v.

Definition __normalize_vecs (vectors : list vec3) : list vec3 :=
  normalize_vec <$> vectors.

(** [__get_positions].  [armature.matrix_world.inverted()] raises
    ValueError, here [None], when the matrix has no inverse; its result
    goes into [apply_matrix] and the first [loc_transform], which the second
    assignment of [loc_transform] replaces. *)
Definition __get_positions (blender_mesh : Mesh.t) (key_blocks : list ShapeKey.t)
    (armature blender_object : option Object.t) (export_settings : export_keys.t)
    : option (list vec3 * list (list vec3)) :=
  let locs : list vec3 := MeshVertex.co <$> Mesh.vertices blender_mesh in
  let morph_locs : list (list vec3) := ShapeKey.data <$> key_blocks in
  (* Transform for skinning *)
  '(locs, morph_locs) ←
    match armature, blender_object
    return option (list vec3 * list (list vec3)) with
    | Some armature, Some blender_object =>
        inverted ← Matrix.inverted4 (Object.matrix_world armature);
        let apply_matrix :=
          Matrix.matmul4 inverted (Object.matrix_world blender_object) in
        let loc_transform :=
          M4 (Matrix.matmul4 (Object.matrix_world armature) apply_matrix) in
        let loc_transform := M4 (Object.matrix_world blender_object) in
        Some (__apply_mat_to_all loc_transform locs,
              __apply_mat_to_all loc_transform <$> morph_locs)
    | _, _ => Some (locs, morph_locs)
    end;
  (* glTF stores deltas in morph targets *)
  let morph_locs :=
    (λ vs, zip_with Vector.sub vs locs) <$> (morph_locs : list (list vec3)) in
  Some (if export_keys.YUP export_settings
        then (__zup2yup locs, __zup2yup <$> morph_locs)
        else (locs, morph_locs)).

(** [ns[~ns.any(axis=1), 2] = 1] *)
Definition replace_zero_normal (v : vec3) : vec3 :=
  let '(x, y, z) := v in
  if decide (x = 0 ∧ y = 0 ∧ z = 0) then (x, y, 1) else v.

(** [__get_normals].  The two calls of [inverted()] raise ValueError,
    here [None], on a matrix without inverse. *)
Definition __get_normals (blender_mesh : Mesh.t) (key_blocks : list ShapeKey.t)
    (armature blender_object : option Object.t) (export_settings : export_keys.t)
    : option (list vec3 * list (list vec3)) :=
  let normals : list vec3 := MeshLoop.normal <$> Mesh.loops blender_mesh in
  let morph_normals : list (list vec3) := ShapeKey.normals_split <$> key_blocks in
  (* Transform for skinning *)
  '(normals, morph_normals) ←
    match armature, blender_object
    return option (list vec3 * list (list vec3)) with
    | Some armature, Some blender_object =>
        inverted ← Matrix.inverted4 (Object.matrix_world armature);
        let apply_matrix :=
          Matrix.matmul4 inverted (Object.matrix_world blender_object) in
        inverted ← Matrix.inverted3 (Matrix.to_3x3 apply_matrix);
        let apply_matrix := Matrix.transposed inverted in
        let normal_transform :=
          M3 (Matrix.matmul3 (Matrix.to_3x3 (Object.matrix_world armature))
                             apply_matrix) in
        Some (__normalize_vecs (__apply_mat_to_all normal_transform normals),
              (λ ns, __normalize_vecs (__apply_mat_to_all normal_transform ns))
                <$> morph_normals)
    | _, _ => Some (normals, morph_normals)
    end;
  (* Replace zero normals with the unit UP vector. *)
  let normals := replace_zero_normal <$> (normals : list vec3) in
  let morph_normals :=
    fmap replace_zero_normal <$> (morph_normals : list (list vec3)) in
  (* glTF stores deltas in morph targets *)
  let morph_normals := (λ ns, zip_with Vector.sub ns normals) <$> morph_normals in
  Some (if export_keys.YUP export_settings
        then (__zup2yup normals, __zup2yup <$> morph_normals)
        else (normals, morph_normals)).

(** The matrix [tangent_transform] of [__get_tangents] and of
    [__get_bitangent_signs]: [apply_matrix.to_quaternion().to_matrix()],
    with the ValueError of [armature.matrix_world.inverted()]. *)
Definition tangent_transform (armature blender_object : Object.t) : option mat3 :=
  inverted ← Matrix.inverted4 (Object.matrix_world armature);
  let apply_matrix :=
    Matrix.matmul4 inverted (Object.matrix_world blender_object) in
  Some (Quaternion.to_matrix (to_quaternion apply_matrix)).

Definition __get_tangents (blender_mesh : Mesh.t)
    (armature blender_object : option Object.t) (export_settings : export_keys.t)
    : option (list vec3) :=
  let tangents : list vec3 := MeshLoop.tangent <$> Mesh.loops blender_mesh in
  tangents ←
    match armature, blender_object return option (list vec3) with
    | Some armature, Some blender_object =>
        tangent_transform ← tangent_transform armature blender_object;
        Some (__normalize_vecs (__apply_mat_to_all (M3 tangent_transform) tangents))
    | _, _ => Some tangents
    end;
  Some (if export_keys.YUP export_settings then __zup2yup tangents else tangents).

Definition __get_bitangent_signs (blender_mesh : Mesh.t)
    (armature blender_object : option Object.t) (export_settings : export_keys.t)
    : option (list Qc) :=
  let signs : list Qc := MeshLoop.bitangent_sign <$> Mesh.loops blender_mesh in
  (* Transform for skinning *)
  match armature, blender_object with
  | Some armature, Some blender_object =>
      (* Bitangent signs should flip when handedness changes *)
      tangent_transform ← tangent_transform armature blender_object;
      let flipped := bool_decide (Matrix.determinant tangent_transform < 0) in
      Some (if flipped then (λ s, s * -1) <$> signs else signs)
  | _, _ => Some signs
  end.
  (* No change for Zup -> Yup *)

Definition __calc_morph_tangents (normals morph_normal_deltas : list vec3)
    (tangents : list vec4) : list vec3 :=
  zip_with (λ '(n, d) '(tx, ty, tz, _),
      let morph_n := Vector.add n d in
      let t := (tx, ty, tz) in
      let rotation := rotation_difference morph_n n in
      let t_morph := rotate t rotation in
      Vector.sub t_morph t)
    (zip normals morph_normal_deltas) tangents.

(** [__get_uvs]: u,v -> u,1-v.  A layer that does not exist raises
    IndexError, here [None]. *)
Definition __get_uvs (blender_mesh : Mesh.t) (uv_i : nat) : option (list vec2) :=
  layer ← Mesh.uv_layers blender_mesh !! uv_i;
  Some ((λ uv : vec2, let '(u, v) := uv in (u, v * -1 + 1)) <$> (layer : list vec2)).

(** One channel of the sRGB -> linear conversion of [__get_colors]. *)
Definition srgb_to_linear (c : Qc) : Qc :=
  let not_small := bool_decide (Q2Qc 0.04045 ≤ c) in
  let small_result :=
    if decide (c < 0) then 0 else c * (1 / Q2Qc 12.92) in
  if not_small
  then power ((c + Q2Qc 0.055) * (1 / Q2Qc 1.055)) (Q2Qc 2.4)
  else small_result.

Definition __get_colors (blender_mesh : Mesh.t) (color_i : nat) : option (list vec4) :=
  layer ← Mesh.vertex_colors blender_mesh !! color_i;
  Some ((λ color : vec4, let '(r, g, b, a) := color in
           (srgb_to_linear r, srgb_to_linear g, srgb_to_linear b, a))
        <$> (layer : list vec4)).
End getters.

(** ** Vertex groups, bones and face maps *)

Section groups.
(** [__get_extra_vgroups]: the weights of the vertex groups that are not
    used for skinning, as the items of the dict it returns. *)
Definition __get_extra_vgroups (blender_mesh : Mesh.t)
    (modifiers : option (list Modifier.t)) (blender_vertex_groups : list string)
    : list (string * list Qc) :=
  if decide (blender_vertex_groups = []) then [] else
  (* Find vgroups used for skinning *)
  let skinning_vgroup_names : gset string :=
    foldl (λ names m,
        if bool_decide (Modifier.type m = "ARMATURE") && Modifier.use_vertex_groups m
        then match Modifier.object m with
             | Some o =>
                 if bool_decide (Object.type o = "ARMATURE")
                 then foldl (λ names bone, {[bone]} ∪ names) names (Object.bones o)
                 else names
             | None => names
             end
        else names)
      ∅ (default [] modifiers) in
  if decide (size skinning_vgroup_names = length blender_vertex_groups) then [] else
  omap (λ '(i, vgroup),
      if decide (vgroup ∈ skinning_vgroup_names) then None else
      let weights :=
        (λ vertex,
           default 0
             (VertexGroupElement.weight <$>
                head (filter (λ vge, VertexGroupElement.group vge = i)
                             (MeshVertex.groups vertex))))
          <$> Mesh.vertices blender_mesh in
      Some (vgroup, weights))
    (imap pair blender_vertex_groups).

(** [bones.sort(key=lambda x: x[1], reverse=True)]: a stable sort by
    descending weight. *)
Fixpoint insert_bone (x : nat * Qc) (bones : list (nat * Qc)) : list (nat * Qc) :=
  match bones with
  | [] => [x]
  | y :: bones' =>
      if decide (x.2 < y.2) then y :: insert_bone x bones' else x :: bones
  end.
Definition sort_bones (bones : list (nat * Qc)) : list (nat * Qc) :=
  foldr insert_bone [] bones.

(** The (joint, weight) pairs [__get_bone_data] collects for one vertex,
    before they are sorted. *)
Definition vertex_influences (group_to_joint : list (option nat))
    (vertex : MeshVertex.t) : list (nat * Qc) :=
  omap (λ group_element,
      let weight := VertexGroupElement.weight group_element in
      if decide (weight ≤ 0) then None else
      match group_to_joint !! VertexGroupElement.group group_element with
      | None => None               (* IndexError, caught *)
      | Some None => None          (* joint is None *)
      | Some (Some joint) => Some (joint, weight)
      end)
    (MeshVertex.groups vertex).

(** The list [group_to_joint] of [__get_bone_data]: for every vertex
    group the index of the joint of the same name, [None] when there is
    none.  In the dict [joint_name_to_index] a later joint of the same
    name replaces an earlier one. *)
Definition group_to_joint (skin : Skin.t) (blender_vertex_groups : list string)
    : list (option nat) :=
  let joint_name_to_index : gmap string nat :=
    foldl (λ m '(index, joint), <[joint := index]> m) ∅
          (imap pair (Skin.joints skin)) in
  (λ g, joint_name_to_index !! g) <$> blender_vertex_groups.

Definition __get_bone_data (blender_mesh : Mesh.t) (skin : Skin.t)
    (blender_vertex_groups : list string) : list (list (nat * Qc)) * nat :=
  let group_to_joint := group_to_joint skin blender_vertex_groups in
  (* List of (joint, weight) pairs for each vert *)
  let vert_bones :=
    (λ vertex,
       let bones := sort_bones (vertex_influences group_to_joint vertex) in
       (* HACK for verts with zero weight (#308) *)
       if decide (bones = []) then [(0%nat, 1)] else bones)
      <$> Mesh.vertices blender_mesh in
  let max_num_influences := foldl (λ m bones, m `max` length bones) 0%nat vert_bones in
  (* How many joint sets do we need? 1 set = 4 influences *)
  let num_joint_sets := ((max_num_influences + 3) / 4)%nat in
  (vert_bones, num_joint_sets).

(** [__get_facemaps]: a facemap index for each loop.  A polygon whose
    loops lie outside the loop array raises IndexError, here [None]. *)
Definition __get_facemaps (blender_mesh : Mesh.t) : option (list Qc) :=
  poly_facemap ← Mesh.face_maps blender_mesh !! 0%nat;
  (* Get polygon_index for each loop in the mesh *)
  loop_polyidx ←
    foldl (λ acc '(polyi, poly),
        foldl (λ acc i,
            loop_polyidx ← acc;
            if decide (i < length loop_polyidx)%nat
            then Some (<[i := polyi]> loop_polyidx) else None)
          acc
          (seq (MeshPolygon.loop_start poly) (MeshPolygon.loop_total poly)))
      (Some (replicate (length (Mesh.loops blender_mesh)) 0%nat))
      (imap pair (Mesh.polygons blender_mesh));
  np.take poly_facemap loop_polyidx.
End groups.

(** ** Corner records

    A dot is the struct of the attributes of one loop: its vertex index and
    the [float32] fields that [dot_fields] lists, in that order. *)

Module Dot.
Record t : Type := mk { vertex_index : nat; fields : list Qc }.

Global Instance eq_dec : EqDecision t.
Proof. solve_decision. Defined.

(** The order numpy sorts structs by: field by field, the first field that
    differs decides. *)
Fixpoint fields_le (a b : list Qc) : Prop :=
  match a, b with
  | [], _ => True
  | _ :: _, [] => False
  | x :: a', y :: b' => x < y ∨ (x = y ∧ fields_le a' b')
  end.

Definition le (a b : t) : Prop :=
  (vertex_index a < vertex_index b)%nat ∨
  (vertex_index a = vertex_index b ∧ fields_le (fields a) (fields b)).

Global Instance fields_le_dec : RelDecision fields_le.
Proof.
  intros a. induction a as [|x a IH]; intros [|y b]; simpl; apply _.
Defined.

Global Instance le_dec : RelDecision le.
Proof. intros a b. unfold le. apply _. Defined.
End Dot.

Section dots.
(** The names of the float fields of the dot struct, after
    [vertex_index]. *)
Definition dot_fields (use_normals use_tangents : bool)
    (tex_coord_max color_max : nat) (use_morph_normals : bool)
    (key_blocks : list ShapeKey.t) (use_facemaps : bool) : list string :=
  (if use_normals then ["nx"; "ny"; "nz"] else []) ++
  (if use_tangents then ["tx"; "ty"; "tz"; "tw"] else []) ++
  (uv_i ← seq 0 tex_coord_max;
     ["uv" +:+ pretty uv_i +:+ "x"; "uv" +:+ pretty uv_i +:+ "y"]) ++
  (col_i ← seq 0 color_max;
     ["color" +:+ pretty col_i +:+ "r"; "color" +:+ pretty col_i +:+ "g";
      "color" +:+ pretty col_i +:+ "b"; "color" +:+ pretty col_i +:+ "a"]) ++
  (if use_morph_normals
   then morph_i ← seq 0 (length key_blocks);
     ["morph" +:+ pretty morph_i +:+ "nx"; "morph" +:+ pretty morph_i +:+ "ny";
      "morph" +:+ pretty morph_i +:+ "nz"]
   else []) ++
  (if use_facemaps then ["facemaps"] else []).

(** [np.empty(n, dtype=np.dtype(dot_fields))]; the content of the fresh
    array, which the code overwrites, is taken to be zero. *)
Definition empty_dots (n : nat) (dtype : list string) : list Dot.t :=
  replicate n (Dot.mk 0 (replicate (length dtype) 0)).

Definition field_offset (dtype : list string) (name : string) : option nat :=
  fst <$> list_find (λ f, f = name) dtype.

(** [dots['vertex_index'] = vidxs] *)
Definition set_vertex_index (vidxs : list nat) (dots : list Dot.t) : list Dot.t :=
  zip_with (λ d v, Dot.mk v (Dot.fields d)) dots vidxs.

(** [dots[name] = column] *)
Definition set_field (dtype : list string) (name : string) (column : list Qc)
    (dots : list Dot.t) : list Dot.t :=
  match field_offset dtype name with
  | Some k =>
      zip_with (λ d v, Dot.mk (Dot.vertex_index d) (<[k := v]> (Dot.fields d)))
               dots column
  | None => dots
  end.

(** [dots[name]] *)
Definition get_field (dtype : list string) (name : string) (dots : list Dot.t)
    : list Qc :=
  match field_offset dtype name with
  | Some k => (λ d, default 0 (Dot.fields d !! k)) <$> dots
  | None => []
  end.
End dots.

(** ** Primitives *)

(** The value of an attribute: a numpy array of rows or of scalars, or, for
    joints and weights, a Python list with four entries per vertex. *)
Inductive array : Type :=
  | Vec2s (rows : list vec2)
  | Vec3s (rows : list vec3)
  | Vec4s (rows : list vec4)
  | Floats (xs : list Qc)
  | JointList (js : list nat)
  | WeightList (ws : list Qc).

Definition array_len (a : array) : nat :=
  match a with
  | Vec2s rows => length rows
  | Vec3s rows => length rows
  | Vec4s rows => length rows
  | Floats xs => length xs
  | JointList js => length js
  | WeightList ws => length ws
  end.

(** An array covers [n] vertices: it has [n] rows, or, for the flat joint
    and weight lists, four entries per vertex. *)
Definition covers (n : nat) (a : array) : Prop :=
  match a with
  | JointList js => length js = (4 * n)%nat
  | WeightList ws => length ws = (4 * n)%nat
  | _ => array_len a = n
  end.

Module Primitive.
Record t : Type := mk {
  attributes : gmap string array;
  indices : list nat;
  material : Z;
}.
End Primitive.

(** ** [extract_primitives] *)

Section extract.
Context `{Externals}.

(** The armature and the skin of the mesh.  The dict [modifiers_dict]
    keeps, for a modifier type, the last modifier of that type. *)
Definition find_armature (blender_object : option Object.t)
    (blender_vertex_groups : list string) (modifiers : option (list Modifier.t))
    (export_settings : export_keys.t) : option Object.t * option Skin.t :=
  if bool_decide (blender_vertex_groups ≠ []) && export_keys.SKINS export_settings
  then
    let armature :=
      match modifiers with
      | Some modifiers =>
          modifier ← last (filter (λ m, Modifier.type m = "ARMATURE") modifiers);
          Modifier.object modifier
      | None => None
      end in
    (* Skin must be ignored if the object is parented to a bone of the armature *)
    let is_child_of_arma :=
      match armature, blender_object with
      | Some armature, Some blender_object =>
          bool_decide (Object.parent_type blender_object = "BONE") &&
          bool_decide (Object.parent blender_object = Object.name armature)
      | _, _ => false
      end in
    let armature := if is_child_of_arma then None else armature in
    match armature with
    | Some armature =>
        match gather_skin armature export_settings with
        | Some skin => (Some armature, Some skin)
        | None => (None, None)
        end
    | None => (None, None)
    end
  else (None, None).

Definition active_key_blocks (blender_mesh : Mesh.t)
    (export_settings : export_keys.t) : list ShapeKey.t :=
  match Mesh.shape_keys blender_mesh with
  | Some key_blocks =>
      if export_keys.MORPH export_settings
      then filter (λ key_block,
               ¬ (ShapeKey.is_relative_key key_block || ShapeKey.mute key_block))
             key_blocks
      else []
  | None => []
  end.

Definition set_rows3 (dtype : list string) (n0 n1 n2 : string)
    (rows : list vec3) (dots : list Dot.t) : list Dot.t :=
  set_field dtype n2 ((λ v : vec3, v.2) <$> rows)
    (set_field dtype n1 ((λ v : vec3, v.1.2) <$> rows)
      (set_field dtype n0 ((λ v : vec3, v.1.1) <$> rows) dots)).

(** The dots of all loops of the mesh. *)
Definition collect_dots (blender_mesh : Mesh.t) (dtype : list string)
    (use_normals use_tangents use_morph_normals use_facemaps : bool)
    (tex_coord_max color_max : nat) (key_blocks : list ShapeKey.t)
    (armature blender_object : option Object.t)
    (export_settings : export_keys.t) : option (list Dot.t) :=
  let dots := empty_dots (length (Mesh.loops blender_mesh)) dtype in
  let vidxs := MeshLoop.vertex_index <$> Mesh.loops blender_mesh in
  let dots := set_vertex_index vidxs dots in
  dots ←
    if use_normals then
      let kbs := if use_morph_normals then key_blocks else [] in
      '(normals, morph_normals) ←
        __get_normals blender_mesh kbs armature blender_object export_settings;
      let dots := set_rows3 dtype "nx" "ny" "nz" normals dots in
      Some (foldl (λ dots '(morph_i, ns),
                set_rows3 dtype ("morph" +:+ pretty morph_i +:+ "nx")
                                ("morph" +:+ pretty morph_i +:+ "ny")
                                ("morph" +:+ pretty morph_i +:+ "nz") ns dots)
              dots (imap pair morph_normals))
    else Some dots;
  dots ←
    if use_tangents then
      tangents ←
        __get_tangents blender_mesh armature blender_object export_settings;
      let dots := set_rows3 dtype "tx" "ty" "tz" tangents dots in
      signs ←
        __get_bitangent_signs blender_mesh armature blender_object export_settings;
      Some (set_field dtype "tw" signs dots)
    else Some dots;
  dots ← foldl (λ acc uv_i,
      dots ← acc;
      uvs ← __get_uvs blender_mesh uv_i;
      Some (set_field dtype ("uv" +:+ pretty uv_i +:+ "y") ((λ uv : vec2, uv.2) <$> uvs)
             (set_field dtype ("uv" +:+ pretty uv_i +:+ "x")
                ((λ uv : vec2, uv.1) <$> uvs) dots)))
    (Some dots) (seq 0 tex_coord_max);
  dots ← foldl (λ acc col_i,
      dots ← acc;
      colors ← __get_colors blender_mesh col_i;
      Some (set_field dtype ("color" +:+ pretty col_i +:+ "a")
              ((λ c : vec4, c.2) <$> colors)
             (set_field dtype ("color" +:+ pretty col_i +:+ "b")
                ((λ c : vec4, c.1.2) <$> colors)
               (set_field dtype ("color" +:+ pretty col_i +:+ "g")
                  ((λ c : vec4, c.1.1.2) <$> colors)
                 (set_field dtype ("color" +:+ pretty col_i +:+ "r")
                    ((λ c : vec4, c.1.1.1) <$> colors) dots)))))
    (Some dots) (seq 0 color_max);
  if use_facemaps then
    facemaps ← __get_facemaps blender_mesh;
    Some (set_field dtype "facemaps" facemaps dots)
  else Some dots.

(** [loop_triangles.foreach_get('loops', loop_indices)]: the three loops
    of every triangle, flattened. *)
Definition loops_of (tris : list MeshLoopTriangle.t) : list nat :=
  tri ← tris; let '(a, b, c) := MeshLoopTriangle.loops tri in [a; b; c].
Definition triangle_loops (blender_mesh : Mesh.t) : list nat :=
  loops_of (Mesh.loop_triangles blender_mesh).

(** The dict [prim_indices], as its items in insertion order: material
    index and TRIANGLES-style indices into dots. *)
Definition bucket_by_material (blender_mesh : Mesh.t) (use_materials : materials_mode)
    (loop_indices : list nat) : list (Z * list nat) :=
  match use_materials with
  | NONE =>
      (* Put all vertices into one primitive *)
      [((-1)%Z, loop_indices)]
  | _ =>
      (* Bucket by material index. *)
      let tri_material_idxs :=
        MeshLoopTriangle.material_index <$> Mesh.loop_triangles blender_mesh in
      (* material index for every loop *)
      let loop_material_idxs := np.repeat tri_material_idxs 3 in
      let unique_material_idxs := np.unique Nat.le tri_material_idxs in
      (λ material_idx,
         (Z.of_nat material_idx,
          np.bool_index loop_indices
            ((λ m, bool_decide (m = material_idx)) <$> loop_material_idxs)))
        <$> unique_material_idxs
  end.

(** The body of the inner loop of the skin packing: slot [j] of one
    vertex, appended to the joint and weight lists of set [j // 4]. *)
Definition pack_slot (bones : list (nat * Qc))
    (lists : list (list nat) * list (list Qc)) (j : nat)
    : list (list nat) * list (list Qc) :=
  let '(joint, weight) :=
    if decide (j < length bones)%nat
    then default (0%nat, 0) (bones !! j) else (0%nat, 0) in
  (alter (λ js, js ++ [joint]) (j / 4)%nat lists.1,
   alter (λ ws, ws ++ [weight]) (j / 4)%nat lists.2).

(** The inner loop: the [4 * num_joint_sets] slots of one vertex. *)
Definition pack_slots (num_joint_sets : nat) (bones : list (nat * Qc))
    (lists : list (list nat) * list (list Qc)) : list (list nat) * list (list Qc) :=
  foldl (pack_slot bones) lists (seq 0 (4 * num_joint_sets)).

(** The skin packing of one primitive; [vert_bones[vi]] out of range
    raises IndexError, here [None]. *)
Definition pack_skin (vert_bones : list (list (nat * Qc))) (num_joint_sets : nat)
    (blender_idxs : list nat) : option (list (list nat) * list (list Qc)) :=
  foldl (λ acc vi,
      lists ← acc;
      bones ← vert_bones !! vi;
      Some (pack_slots num_joint_sets bones lists))
    (Some (replicate num_joint_sets [], replicate num_joint_sets []))
    blender_idxs.
Definition rows2 (c0 c1 : list Qc) : list vec2 := zip c0 c1.
Definition rows3 (c0 c1 c2 : list Qc) : list vec3 := zip (zip c0 c1) c2.
Definition rows4 (c0 c1 c2 c3 : list Qc) : list vec4 := zip (zip (zip c0 c1) c2) c3.

(** [attributes['MORPH_POSITION_%d' % morph_i] = vs[blender_idxs]] *)
Definition morph_position_attributes (morph_locs : list (list vec3))
    (blender_idxs : list nat) (attributes : gmap string array)
    : option (gmap string array) :=
  foldl (λ acc '(morph_i, vs),
      attributes ← acc;
      rows ← np.take vs blender_idxs;
      Some (<["MORPH_POSITION_" +:+ pretty morph_i := Vec3s rows]> attributes))
    (Some attributes) (imap pair morph_locs).

(** The attributes that are read from the fields of the dots: NORMAL,
    TANGENT, MORPH_NORMAL_i, MORPH_TANGENT_i, TEXCOORD_i and COLOR_i. *)
Definition dot_attributes (dtype : list string) (prim_dots : list Dot.t)
    (use_normals use_tangents use_morph_normals use_morph_tangents : bool)
    (tex_coord_max color_max : nat) (key_blocks : list ShapeKey.t)
    (attributes : gmap string array) : gmap string array :=
  let field name := get_field dtype name prim_dots in
  let normals := rows3 (field "nx") (field "ny") (field "nz") in
  let attributes :=
    if use_normals then <["NORMAL" := Vec3s normals]> attributes else attributes in
  let tangents := rows4 (field "tx") (field "ty") (field "tz") (field "tw") in
  let attributes :=
    if use_tangents then <["TANGENT" := Vec4s tangents]> attributes else attributes in
  let attributes :=
    if use_morph_normals then
      foldl (λ attributes morph_i,
          let ns := rows3 (field ("morph" +:+ pretty morph_i +:+ "nx"))
                          (field ("morph" +:+ pretty morph_i +:+ "ny"))
                          (field ("morph" +:+ pretty morph_i +:+ "nz")) in
          let attributes :=
            <["MORPH_NORMAL_" +:+ pretty morph_i := Vec3s ns]> attributes in
          if use_morph_tangents
          then <["MORPH_TANGENT_" +:+ pretty morph_i :=
                   Vec3s (__calc_morph_tangents normals ns tangents)]> attributes
          else attributes)
        attributes (seq 0 (length key_blocks))
    else attributes in
  let attributes :=
    foldl (λ attributes tex_coord_i,
        let uvs := rows2 (field ("uv" +:+ pretty tex_coord_i +:+ "x"))
                         (field ("uv" +:+ pretty tex_coord_i +:+ "y")) in
        <["TEXCOORD_" +:+ pretty tex_coord_i := Vec2s uvs]> attributes)
      attributes (seq 0 tex_coord_max) in
  foldl (λ attributes color_i,
      let colors := rows4 (field ("color" +:+ pretty color_i +:+ "r"))
                          (field ("color" +:+ pretty color_i +:+ "g"))
                          (field ("color" +:+ pretty color_i +:+ "b"))
                          (field ("color" +:+ pretty color_i +:+ "a")) in
      <["COLOR_" +:+ pretty color_i := Vec4s colors]> attributes)
    attributes (seq 0 color_max).

(** JOINTS_i and WEIGHTS_i *)
Definition skin_attributes (skin : option (list (list (nat * Qc)) * nat))
    (blender_idxs : list nat) (attributes : gmap string array)
    : option (gmap string array) :=
  match skin with
  | Some (vert_bones, num_joint_sets) =>
      '(joints, weights) ← pack_skin vert_bones num_joint_sets blender_idxs;
      Some (foldl (λ attributes '(i, (js, ws)),
                <["WEIGHTS_" +:+ pretty i := WeightList ws]>
                  (<["JOINTS_" +:+ pretty i := JointList js]> attributes))
              attributes (imap pair (zip joints weights)))
  | None => Some attributes
  end.

(** [attributes['_VG_' + vgroup_name] = weights[blender_idxs]] *)
Definition vgroup_attributes (extra_vgroup_weights : list (string * list Qc))
    (blender_idxs : list nat) (attributes : gmap string array)
    : option (gmap string array) :=
  foldl (λ acc '(vgroup_name, weights),
      attributes ← acc;
      ws ← np.take weights blender_idxs;
      Some (<["_VG_" +:+ vgroup_name := Floats ws]> attributes))
    (Some attributes) extra_vgroup_weights.

(** The body of the loop that creates the primitives: [Some None] is
    [continue], [None] an exception. *)
Definition make_primitive (dtype : list string) (dots : list Dot.t)
    (use_normals use_tangents use_morph_normals use_morph_tangents use_facemaps : bool)
    (tex_coord_max color_max : nat) (key_blocks : list ShapeKey.t)
    (locs : list vec3) (morph_locs : list (list vec3))
    (skin : option (list (list (nat * Qc)) * nat))
    (extra_vgroup_weights : list (string * list Qc))
    (material_idx : Z) (dot_indices : list nat) : option (option Primitive.t) :=
  (* Extract just dots used by this primitive, deduplicate them, and
     calculate indices into this deduplicated list. *)
  prim_dots ← np.take dots dot_indices;
  let '(prim_dots, indices) := np.unique_inverse Dot.le prim_dots in
  if decide (length prim_dots = 0%nat) then Some None else
  (* Now just move all the data for prim_dots into attribute arrays *)
  let attributes : gmap string array := ∅ in
  let blender_idxs := Dot.vertex_index <$> prim_dots in
  position ← np.take locs blender_idxs;
  let attributes := <["POSITION" := Vec3s position]> attributes in
  attributes ← morph_position_attributes morph_locs blender_idxs attributes;
  let attributes :=
    dot_attributes dtype prim_dots use_normals use_tangents use_morph_normals
      use_morph_tangents tex_coord_max color_max key_blocks attributes in
  attributes ← skin_attributes skin blender_idxs attributes;
  attributes ← vgroup_attributes extra_vgroup_weights blender_idxs attributes;
  let attributes :=
    if use_facemaps
    then <["_FACEMAPS" := Floats (get_field dtype "facemaps" prim_dots)]> attributes
    else attributes in
  Some (Some (Primitive.mk attributes indices material_idx)).

(** Extract primitives from a mesh.  [None] stands for an exception: the
    IndexError of an index out of range, or the ValueError of a matrix
    without inverse. *)
Definition extract_primitives (blender_mesh : Mesh.t)
    (blender_object : option Object.t) (blender_vertex_groups : list string)
    (modifiers : option (list Modifier.t)) (export_settings : export_keys.t)
    : option (list Primitive.t) :=
  let use_normals := export_keys.NORMALS export_settings in
  let use_tangents :=
    use_normals && export_keys.TANGENTS export_settings &&
    (Mesh.uv_layers_active blender_mesh &&
     bool_decide (0 < length (Mesh.uv_layers blender_mesh))%nat) &&
    Mesh.calc_tangents_ok blender_mesh in
  let tex_coord_max :=
    if export_keys.TEX_COORDS export_settings && Mesh.uv_layers_active blender_mesh
    then length (Mesh.uv_layers blender_mesh) else 0%nat in
  let color_max :=
    if export_keys.COLORS export_settings
    then length (Mesh.vertex_colors blender_mesh) else 0%nat in
  let '(armature, skin) :=
    find_armature blender_object blender_vertex_groups modifiers export_settings in
  let use_morph_normals :=
    use_normals && export_keys.MORPH_NORMAL export_settings in
  let use_morph_tangents :=
    use_morph_normals && use_tangents && export_keys.MORPH_TANGENT export_settings in
  let key_blocks := active_key_blocks blender_mesh export_settings in
  let use_materials := export_keys.MATERIALS export_settings in
  (* Fetch vert data *)
  let use_facemaps := bool_decide (Mesh.face_maps blender_mesh ≠ []) in
  (* Fetch vert positions and bone data (joint,weights) *)
  '(locs, morph_locs) ←
    __get_positions blender_mesh key_blocks armature blender_object export_settings;
  let bone_data :=
    (λ skin, __get_bone_data blender_mesh skin blender_vertex_groups) <$> skin in
  let extra_vgroup_weights :=
    __get_extra_vgroups blender_mesh modifiers blender_vertex_groups in
  (* List all fields the dot struct needs. *)
  let dtype :=
    dot_fields use_normals use_tangents tex_coord_max color_max
               use_morph_normals key_blocks use_facemaps in
  dots ← collect_dots blender_mesh dtype use_normals use_tangents use_morph_normals
           use_facemaps tex_coord_max color_max key_blocks armature blender_object
           export_settings;
  (* Calculate triangles and sort them into primitives. *)
  let loop_indices := triangle_loops blender_mesh in
  let prim_indices := bucket_by_material blender_mesh use_materials loop_indices in
  (* Create all the primitives. *)
  primitives ← mapM (λ '(material_idx, dot_indices),
      make_primitive dtype dots use_normals use_tangents use_morph_normals
        use_morph_tangents use_facemaps tex_coord_max color_max key_blocks
        locs morph_locs bone_data extra_vgroup_weights material_idx dot_indices)
    prim_indices;
  Some (omap id primitives).
End extract.

(** ** Notions of the specification *)

(** The (joint, weight) pair of slot [j] of a vertex: the pair of its
    list, or the padding. *)
Definition slot (bones : list (nat * Qc)) (j : nat) : nat * Qc :=
  default (0%nat, 0) (bones !! j).

(** The four slots of joint set [s]. *)
Definition chunk {X} (f : nat * Qc → X) (bones : list (nat * Qc)) (s : nat) : list X :=
  (λ j, f (slot bones j)) <$> seq (4 * s) 4.

(** The invariant of the attribute dict while a primitive is built. *)
Definition attrs_ok (n : nat) (attributes : gmap string array) : Prop :=
  (∃ pos, attributes !! "POSITION" = Some (Vec3s pos) ∧ length pos = n) ∧
  map_Forall (λ _, covers n) attributes.

(** The distinct elements of a list in the order of their first
    occurrence: the order the specification gives for the deduplicated
    records. *)
Fixpoint first_occurrences {A} `{EqDecision A} (l : list A) : list A :=
  match l with
  | [] => []
  | x :: l' => x :: filter (λ y, y ≠ x) (first_occurrences l')
  end.


(** The structure Blender guarantees for a mesh: loops refer to vertices,
    the loop ranges of the polygons tile the loop array, a polygon has at
    least three loops and is tessellated into [loop_total - 2] triangles. *)
Record mesh_wf (m : Mesh.t) : Prop := {
  loops_in_range :
    Forall (λ l, MeshLoop.vertex_index l < length (Mesh.vertices m))%nat (Mesh.loops m);
  polygons_tile :
    (poly ← Mesh.polygons m;
       seq (MeshPolygon.loop_start poly) (MeshPolygon.loop_total poly))
    = seq 0 (length (Mesh.loops m));
  polygons_size :
    Forall (λ poly, 3 ≤ MeshPolygon.loop_total poly)%nat (Mesh.polygons m);
  triangles_count :
    length (Mesh.loop_triangles m) =
    sum_list ((λ poly, MeshPolygon.loop_total poly - 2)%nat <$> Mesh.polygons m);
}.

(** [inverse] is the inverse of the matrix [m]. *)
Definition inverse3 (m inverse : mat3) : Prop :=
  Matrix.matmul3 m inverse = Matrix.identity3 ∧
  Matrix.matmul3 inverse m = Matrix.identity3.
Definition inverse4 (m inverse : mat4) : Prop :=
  Matrix.matmul4 m inverse = Matrix.identity4 ∧
  Matrix.matmul4 inverse m = Matrix.identity4.

(** The matrix by which the normals of a skinned mesh are transformed:
    with A and O the world matrices of the armature and of the object, the
    linear part of A times the inverse transpose of the linear part of
    A^-1 O. *)
Definition normal_matrix (armature blender_object : Object.t) (N : mat3) : Prop :=
  ∃ inverse_world inverse_linear,
    inverse4 (Object.matrix_world armature) inverse_world ∧
    inverse3 (Matrix.to_3x3 (Matrix.matmul4 inverse_world
                               (Object.matrix_world blender_object)))
             inverse_linear ∧
    N = Matrix.matmul3 (Matrix.to_3x3 (Object.matrix_world armature))
                       (Matrix.transposed inverse_linear).

(** The transform of the normals of the mesh: the normal matrix when the
    mesh is skinned, none without an armature or without an object. *)
Definition normal_transform_of (armature blender_object : option Object.t)
    (normal_transform : option mat3) : Prop :=
  match armature, blender_object with
  | Some armature, Some blender_object =>
      ∃ N, normal_transform = Some N ∧ normal_matrix armature blender_object N
  | _, _ => normal_transform = None
  end.

(** The matrices that the skinning transforms invert have an inverse: the
    world matrix of the armature and, for the normals, the linear part of
    A^-1 O. *)
Definition world_invertible (armature blender_object : option Object.t) : Prop :=
  match armature, blender_object with
  | Some armature, Some _ =>
      ∃ inverse_world, inverse4 (Object.matrix_world armature) inverse_world
  | _, _ => True
  end.
Definition skinning_invertible (armature blender_object : option Object.t)
    (use_normals : bool) : Prop :=
  world_invertible armature blender_object ∧
  (use_normals = true →
   ∃ normal_transform, normal_transform_of armature blender_object normal_transform).

(** The unit UP vector in the place of the zero vector. *)
Definition up_if_zero (v : vec3) : vec3 :=
  if decide (v = (0, 0, 0)) then (0, 0, 1) else v.

Section transforms.
Context `{Externals}.

(** The axis conversion of one vector, when it is requested: x,y,z ->
    x,z,-y. *)
Definition axis_conversion (export_settings : export_keys.t) (v : vec3) : vec3 :=
  if export_keys.YUP export_settings then let '(x, y, z) := v in (x, z, - y) else v.

(** The position of a vertex of a skinned mesh in world space. *)
Definition skinned_position (armature blender_object : option Object.t)
    (v : vec3) : vec3 :=
  match armature, blender_object with
  | Some _, Some blender_object =>
      let m := Object.matrix_world blender_object in
      Vector.add (Matrix.mulvec (Matrix.to_3x3 m) v) (Matrix.translation m)
  | _, _ => v
  end.

(** The vector [v] scaled to length one; a vector of length zero is
    left as it is. *)
Definition unit_vector (v : vec3) : vec3 :=
  if decide (linalg_norm v = 0) then v else Vector.scale (/ linalg_norm v) v.

(** The normal of a loop under the transform of the normals: the normal
    matrix and the scaling to length one when the mesh is skinned, and in
    either case the UP vector for a zero normal. *)
Definition skinned_normal (normal_transform : option mat3) (n : vec3) : vec3 :=
  up_if_zero
    match normal_transform with
    | Some N => unit_vector (Matrix.mulvec N n)
    | None => n
    end.

(** The position of a vertex and the normal of a loop after all
    transforms. *)
Definition transformed_position (armature blender_object : option Object.t)
    (export_settings : export_keys.t) (v : vec3) : vec3 :=
  axis_conversion export_settings (skinned_position armature blender_object v).

Definition transformed_normal (normal_transform : option mat3)
    (export_settings : export_keys.t) (n : vec3) : vec3 :=
  axis_conversion export_settings (skinned_normal normal_transform n).
End transforms.

(** The base values and the morph deltas that a getter returns agree with
    the transform [T] of the values it read: a base value is the transformed
    value, and base value + delta is the transformed morphed value. *)
Definition morph_deltas_of (T : vec3 → vec3) (values : list vec3)
    (morphed : list (list vec3)) (result : list vec3 * list (list vec3)) : Prop :=
  result.1 = T <$> values ∧
  length result.2 = length morphed ∧
  ∀ k ms i m v, morphed !! k = Some ms → ms !! i = Some m → values !! i = Some v →
    ∃ ds d, result.2 !! k = Some ds ∧ ds !! i = Some d ∧
      d = Vector.sub (T m) (T v) ∧ Vector.add (T v) d = T m.

(** The sRGB to linear conversion in the words of the specification. *)
Definition srgb_to_linear_spec `{Externals} (c : Qc) : Qc :=
  if decide (c < 0) then 0
  else if decide (c < Q2Qc 0.04045) then c / Q2Qc 12.92
  else power ((c + Q2Qc 0.055) / Q2Qc 1.055) (Q2Qc 2.4).

(** ** Notions of the further properties *)

(** The order of the influences of a vertex: by descending weight. *)
Definition heavier (a b : nat * Qc) : Prop := b.2 ≤ a.2.

(** Vertex group [group] is bound to joint [joint] of the skin: the joint
    has the name of the group, and it is the last joint of that name. *)
Definition bound_joint (skin : Skin.t) (blender_vertex_groups : list string)
    (group joint : nat) : Prop :=
  ∃ name, blender_vertex_groups !! group = Some name ∧
    Skin.joints skin !! joint = Some name ∧
    ∀ later, (joint < later)%nat → Skin.joints skin !! later ≠ Some name.

(** The influences of a vertex on the joints of the skin, in the order of
    its group elements: an element of positive weight whose group is bound
    to a joint gives the pair of that joint and its weight, and any other
    element gives nothing. *)
Inductive influences_of (skin : Skin.t) (blender_vertex_groups : list string)
    : list VertexGroupElement.t → list (nat * Qc) → Prop :=
  | influences_nil : influences_of skin blender_vertex_groups [] []
  | influences_keep element elements joint influences :
      0 < VertexGroupElement.weight element →
      bound_joint skin blender_vertex_groups (VertexGroupElement.group element) joint →
      influences_of skin blender_vertex_groups elements influences →
      influences_of skin blender_vertex_groups (element :: elements)
        ((joint, VertexGroupElement.weight element) :: influences)
  | influences_skip element elements influences :
      VertexGroupElement.weight element ≤ 0 ∨
      (∀ joint, ¬ bound_joint skin blender_vertex_groups
                    (VertexGroupElement.group element) joint) →
      influences_of skin blender_vertex_groups elements influences →
      influences_of skin blender_vertex_groups (element :: elements) influences.

(** The 4x4 matrix is affine: its last row is 0, 0, 0, 1. *)
Definition affine (m : mat4) : Prop :=
  let '(_, _, _, r3) := m in r3 = (0, 0, 0, 1).

(** The set [skinning_vgroup_names] of [__get_extra_vgroups]: the bone
    names of the armatures that deform the mesh through vertex groups. *)
Definition skinning_vgroup_names (modifiers : option (list Modifier.t)) : gset string :=
  foldl (λ names m,
      if bool_decide (Modifier.type m = "ARMATURE") && Modifier.use_vertex_groups m
      then match Modifier.object m with
           | Some o =>
               if bool_decide (Object.type o = "ARMATURE")
               then foldl (λ names bone, {[bone]} ∪ names) names (Object.bones o)
               else names
           | None => names
           end
      else names)
    ∅ (default [] modifiers).

(** Modifier [m] deforms the mesh by the bones of the armature [o]. *)
Definition skinning_armature (m : Modifier.t) (o : Object.t) : Prop :=
  Modifier.type m = "ARMATURE" ∧ Modifier.use_vertex_groups m = true ∧
  Modifier.object m = Some o ∧ Object.type o = "ARMATURE".

(** [w] is the weight of the first element of [elements] that belongs to
    group [i], and zero when there is none. *)
Definition first_weight (i : nat) (elements : list VertexGroupElement.t) (w : Qc)
    : Prop :=
  (∃ pre vge post, elements = pre ++ vge :: post ∧
     Forall (λ e, VertexGroupElement.group e ≠ i) pre ∧
     VertexGroupElement.group vge = i ∧ w = VertexGroupElement.weight vge) ∨
  (Forall (λ e, VertexGroupElement.group e ≠ i) elements ∧ w = 0).

(** The assignments [loop_polyidx[i] = polyi] of [__get_facemaps], in the
    order the two loops make them. *)
Definition polygon_assignments (polygons : list (nat * MeshPolygon.t))
    : list (nat * nat) :=
  '(polyi, poly) ← polygons;
  (λ i, (i, polyi)) <$> seq (MeshPolygon.loop_start poly) (MeshPolygon.loop_total poly).

(** One assignment into an array; out of range it raises IndexError. *)
Definition assign (acc : option (list nat)) (a : nat * nat) : option (list nat) :=
  loop_polyidx ← acc;
  if decide (a.1 < length loop_polyidx)%nat
  then Some (<[a.1 := a.2]> loop_polyidx) else None.

(** The corner lists of the primitives: [bucket] holds the corners of
    the triangles that go into the primitive of material [material]. *)
Definition bucket_of (blender_mesh : Mesh.t) (export_settings : export_keys.t)
    (material : Z) (bucket : list nat) : Prop :=
  (material, bucket) ∈
    bucket_by_material blender_mesh (export_keys.MATERIALS export_settings)
      (triangle_loops blender_mesh).

(** Every dot keeps the vertex index of its loop. *)
Definition dots_of_loops (blender_mesh : Mesh.t) (dots : list Dot.t) : Prop :=
  ∀ li d, dots !! li = Some d →
    ∃ loop, Mesh.loops blender_mesh !! li = Some loop ∧
      Dot.vertex_index d = MeshLoop.vertex_index loop.

(** The stages of [collect_dots], one definition each; by
    [collect_dots_stages] the function is their composition. *)

Section stages.
Context `{Externals}.

(** The normals and the normals of the morph targets. *)
Definition normal_dots (blender_mesh : Mesh.t) (dtype : list string)
    (use_morph_normals : bool) (key_blocks : list ShapeKey.t)
    (armature blender_object : option Object.t) (export_settings : export_keys.t)
    (dots : list Dot.t) : option (list Dot.t) :=
  let kbs := if use_morph_normals then key_blocks else [] in
  '(normals, morph_normals) ←
    __get_normals blender_mesh kbs armature blender_object export_settings;
  let dots := set_rows3 dtype "nx" "ny" "nz" normals dots in
  Some (foldl (λ dots '(morph_i, ns),
            set_rows3 dtype ("morph" +:+ pretty morph_i +:+ "nx")
                            ("morph" +:+ pretty morph_i +:+ "ny")
                            ("morph" +:+ pretty morph_i +:+ "nz") ns dots)
          dots (imap pair morph_normals)).

(** The tangents and the bitangent signs. *)
Definition tangent_dots (blender_mesh : Mesh.t) (dtype : list string)
    (armature blender_object : option Object.t) (export_settings : export_keys.t)
    (dots : list Dot.t) : option (list Dot.t) :=
  tangents ←
    __get_tangents blender_mesh armature blender_object export_settings;
  let dots := set_rows3 dtype "tx" "ty" "tz" tangents dots in
  signs ←
    __get_bitangent_signs blender_mesh armature blender_object export_settings;
  Some (set_field dtype "tw" signs dots).

(** One UV layer. *)
Definition uv_dots (blender_mesh : Mesh.t) (dtype : list string)
    (dots : list Dot.t) (uv_i : nat) : option (list Dot.t) :=
  uvs ← __get_uvs blender_mesh uv_i;
  Some (set_field dtype ("uv" +:+ pretty uv_i +:+ "y") ((λ uv : vec2, uv.2) <$> uvs)
         (set_field dtype ("uv" +:+ pretty uv_i +:+ "x")
            ((λ uv : vec2, uv.1) <$> uvs) dots)).

(** One color layer. *)
Definition color_dots (blender_mesh : Mesh.t) (dtype : list string)
    (dots : list Dot.t) (col_i : nat) : option (list Dot.t) :=
  colors ← __get_colors blender_mesh col_i;
  Some (set_field dtype ("color" +:+ pretty col_i +:+ "a")
          ((λ c : vec4, c.2) <$> colors)
         (set_field dtype ("color" +:+ pretty col_i +:+ "b")
            ((λ c : vec4, c.1.2) <$> colors)
           (set_field dtype ("color" +:+ pretty col_i +:+ "g")
              ((λ c : vec4, c.1.1.2) <$> colors)
             (set_field dtype ("color" +:+ pretty col_i +:+ "r")
                ((λ c : vec4, c.1.1.1) <$> colors) dots)))).

(** The face maps. *)
Definition facemap_dots (blender_mesh : Mesh.t) (dtype : list string)
    (use_facemaps : bool) (dots : list Dot.t) : option (list Dot.t) :=
  if use_facemaps then
    facemaps ← __get_facemaps blender_mesh;
    Some (set_field dtype "facemaps" facemaps dots)
  else Some dots.
End stages.

(** The fields of every dot are those of the dtype. *)
Definition shaped (dtype : list string) (dots : list Dot.t) : Prop :=
  Forall (λ d, length (Dot.fields d) = length dtype) dots.

(** The field [name] of the dot of every loop holds the entry of
    [column] for that loop. *)
Definition holds (dtype : list string) (name : string) (column : list Qc)
    (dots : list Dot.t) : Prop :=
  shaped dtype dots ∧
  ∀ li d, dots !! li = Some d →
    ∃ x, column !! li = Some x ∧ get_field dtype name [d] = [x].

(** The local variables of [extract_primitives] that depend on the mesh
    and on the export settings only, and below the dots and the primitive
    of a bucket in their terms; by [extract_primitives_eq] the function is
    made of them. *)
Module flags.
Section flags.
Context (blender_mesh : Mesh.t) (export_settings : export_keys.t).

Definition use_normals : bool := export_keys.NORMALS export_settings.
Definition use_tangents : bool :=
  use_normals && export_keys.TANGENTS export_settings &&
  (Mesh.uv_layers_active blender_mesh &&
   bool_decide (0 < length (Mesh.uv_layers blender_mesh))%nat) &&
  Mesh.calc_tangents_ok blender_mesh.
Definition tex_coord_max : nat :=
  if export_keys.TEX_COORDS export_settings && Mesh.uv_layers_active blender_mesh
  then length (Mesh.uv_layers blender_mesh) else 0%nat.
Definition color_max : nat :=
  if export_keys.COLORS export_settings
  then length (Mesh.vertex_colors blender_mesh) else 0%nat.
Definition use_morph_normals : bool :=
  use_normals && export_keys.MORPH_NORMAL export_settings.
Definition use_morph_tangents : bool :=
  use_morph_normals && use_tangents && export_keys.MORPH_TANGENT export_settings.
Definition key_blocks : list ShapeKey.t :=
  active_key_blocks blender_mesh export_settings.
Definition use_facemaps : bool := bool_decide (Mesh.face_maps blender_mesh ≠ []).
Definition dtype : list string :=
  dot_fields use_normals use_tangents tex_coord_max color_max use_morph_normals
             key_blocks use_facemaps.
End flags.
End flags.

Section unfolded.
Context `{Externals}.
Context (blender_mesh : Mesh.t) (blender_object : option Object.t)
        (blender_vertex_groups : list string) (modifiers : option (list Modifier.t))
        (export_settings : export_keys.t).

(** The armature that [extract_primitives] settles on. *)
Definition the_armature : option Object.t :=
  (find_armature blender_object blender_vertex_groups modifiers export_settings).1.

(** The dots of the loops of the mesh. *)
Definition the_dots : option (list Dot.t) :=
  collect_dots blender_mesh (flags.dtype blender_mesh export_settings)
    (flags.use_normals export_settings)
    (flags.use_tangents blender_mesh export_settings)
    (flags.use_morph_normals export_settings)
    (flags.use_facemaps blender_mesh)
    (flags.tex_coord_max blender_mesh export_settings)
    (flags.color_max blender_mesh export_settings)
    (flags.key_blocks blender_mesh export_settings)
    the_armature blender_object export_settings.

(** The positions of the vertices and of the morph targets. *)
Definition the_positions : option (list vec3 * list (list vec3)) :=
  __get_positions blender_mesh (flags.key_blocks blender_mesh export_settings)
    the_armature blender_object export_settings.

(** The primitive of one bucket. *)
Definition the_primitive (positions : list vec3 * list (list vec3))
    (dots : list Dot.t) (material_idx : Z)
    (dot_indices : list nat) : option (option Primitive.t) :=
  let skin :=
    (find_armature blender_object blender_vertex_groups modifiers export_settings).2 in
  make_primitive (flags.dtype blender_mesh export_settings) dots
    (flags.use_normals export_settings)
    (flags.use_tangents blender_mesh export_settings)
    (flags.use_morph_normals export_settings)
    (flags.use_morph_tangents blender_mesh export_settings)
    (flags.use_facemaps blender_mesh)
    (flags.tex_coord_max blender_mesh export_settings)
    (flags.color_max blender_mesh export_settings)
    (flags.key_blocks blender_mesh export_settings)
    positions.1 positions.2
    ((λ skin, __get_bone_data blender_mesh skin blender_vertex_groups) <$> skin)
    (__get_extra_vgroups blender_mesh modifiers blender_vertex_groups)
    material_idx dot_indices.
End unfolded.

(** The sizes Blender guarantees for the data of a mesh: a triangle
    refers to loops, a UV or color layer has one value per loop, a face map
    one value per polygon, and a shape key one position per vertex and one
    split normal per loop. *)
Record layers_wf (m : Mesh.t) : Prop := {
  triangles_in_range :
    Forall (λ li, li < length (Mesh.loops m))%nat (triangle_loops m);
  uv_layers_per_loop :
    Forall (λ layer, length layer = length (Mesh.loops m)) (Mesh.uv_layers m);
  vertex_colors_per_loop :
    Forall (λ layer, length layer = length (Mesh.loops m)) (Mesh.vertex_colors m);
  face_maps_per_polygon :
    Forall (λ face_map, length face_map = length (Mesh.polygons m)) (Mesh.face_maps m);
  shape_keys_per_vertex :
    Forall (λ key_block,
        length (ShapeKey.data key_block) = length (Mesh.vertices m) ∧
        length (ShapeKey.normals_split key_block) = length (Mesh.loops m))
      (default [] (Mesh.shape_keys m));
}.

(** ** Sample inputs *)

(** Collaborators for the sample inputs, stand-ins for numpy, mathutils
    and the skin gatherer: every norm is one, as it is for the sample
    vectors that are normalized; the quaternion of every matrix is the
    identity rotation; the skin of an armature has its bones as joints. *)
Definition sample_externals : Externals := {|
  linalg_norm := λ _, 1;
  power := λ x _, x;
  to_quaternion := λ _, (1, 0, 0, 0);
  rotation_difference := λ _ _, (0, 0, 0, 1);
  rotate := λ v _, v;
  gather_skin := λ armature _, Some (Skin.mk (Object.bones armature));
|}.

Definition sample_vertex (x : Z) : MeshVertex.t :=
  MeshVertex.mk (Qc_of_Z x, 0, 0) [].
Definition sample_loop (v : nat) : MeshLoop.t :=
  MeshLoop.mk v (0, 0, 1) (1, 0, 0) 1.

Definition sample_settings (materials : materials_mode) : export_keys.t :=
  export_keys.mk false false false false false false false false materials false.

(** A single triangle whose corners visit the vertices 2, 1, 0. *)
Definition reversed_triangle : Mesh.t :=
  Mesh.mk [sample_vertex 0; sample_vertex 1; sample_vertex 2]
          [sample_loop 2; sample_loop 1; sample_loop 0]
          [MeshLoopTriangle.mk (0, 1, 2)%nat 0]
          [MeshPolygon.mk 0 3] [] false [] [] None false.

Definition reversed_dots : list Dot.t := [Dot.mk 2 []; Dot.mk 1 []; Dot.mk 0 []].

(** A quad of two triangles that share the loops 0 and 2; the first
    triangle has material 1, the second material 0. *)
Definition quad : Mesh.t :=
  Mesh.mk [sample_vertex 0; sample_vertex 1; sample_vertex 2; sample_vertex 3]
          [sample_loop 0; sample_loop 1; sample_loop 2; sample_loop 3]
          [MeshLoopTriangle.mk (0, 1, 2)%nat 1; MeshLoopTriangle.mk (0, 2, 3)%nat 0]
          [MeshPolygon.mk 0 4] [] false [] [] None false.

Definition quad_dots : list Dot.t :=
  [Dot.mk 0 []; Dot.mk 1 []; Dot.mk 2 []; Dot.mk 3 []].

(** The primitives of the quad when materials are exported. *)
Definition quad_primitives : list Primitive.t :=
  Eval vm_compute in
    default [] (extract_primitives (H := sample_externals) quad None [] None
                  (sample_settings EXPORT)).

(** The primitive of the quad when it is one bucket. *)
Definition quad_primitive : Primitive.t :=
  Eval vm_compute in
    default (Primitive.mk ∅ [] 0)
      (mjoin (make_primitive (H := sample_externals) [] quad_dots false false false
                false false 0 0 [] (MeshVertex.co <$> Mesh.vertices quad) [] None []
                (-1) [0; 1; 2; 0; 2; 3]%nat)).

(** Two loose vertices: a mesh without loops, polygons and triangles. *)
Definition loose_vertices : Mesh.t :=
  Mesh.mk [sample_vertex 0; sample_vertex 1] [] [] [] [] false [] [] None false.

(** A shear with a translation: an affine 4x4 matrix. *)
Definition shear : mat4 :=
  ((1, 1, 0, 1), (0, 1, 0, 0), (0, 0, 1, 0), (0, 0, 0, 1)).

(** An armature with the bones hip and knee that stands at (1, 2, 3), and
    the same armature scaled to zero along z: its world matrix has no
    inverse. *)
Definition sample_armature : Object.t :=
  Object.mk "Armature" "ARMATURE"
    ((1, 0, 0, 1), (0, 1, 0, Qc_of_Z 2), (0, 0, 1, Qc_of_Z 3), (0, 0, 0, 1))
    "OBJECT" "" ["hip"; "knee"].
Definition flat_armature : Object.t :=
  Object.mk "Armature" "ARMATURE"
    ((1, 0, 0, 1), (0, 1, 0, Qc_of_Z 2), (0, 0, 0, Qc_of_Z 3), (0, 0, 0, 1))
    "OBJECT" "" ["hip"; "knee"].

(** The object of a mesh that an armature deforms, sheared, and the same
    object mirrored along x. *)
Definition sample_object : Object.t :=
  Object.mk "Body" "MESH" shear "OBJECT" "" [].

Definition armature_modifier (armature : Object.t) : Modifier.t :=
  Modifier.mk "ARMATURE" (Some armature) true.

(** Normals, tangents and skins are exported, with the axis conversion. *)
Definition skinned_settings : export_keys.t :=
  export_keys.mk true true false false true false false false EXPORT true.


Definition quad_first : Primitive.t :=
  Eval vm_compute in default (Primitive.mk ∅ [] 0) (head quad_primitives).

(** Three vertices bound to the joints hip and knee: the first has
    influences on both, the second only on a group without joint, the third
    none. *)
Definition skinned_vertex_groups : list string := ["hip"; "loose"; "knee"].
Definition skinned_skin : Skin.t := Skin.mk ["hip"; "knee"].
Definition skinned_mesh : Mesh.t :=
  Mesh.mk
    [MeshVertex.mk (0, 0, 0)
       [VertexGroupElement.mk 0 (Q2Qc 0.5); VertexGroupElement.mk 1 (Q2Qc 0.25);
        VertexGroupElement.mk 2 (Q2Qc 0.75)];
     MeshVertex.mk (1, 0, 0) [VertexGroupElement.mk 1 (Q2Qc 0.5)];
     MeshVertex.mk (0, 1, 0) []]
    [sample_loop 0; sample_loop 1; sample_loop 2]
    [MeshLoopTriangle.mk (0, 1, 2)%nat 0]
    [MeshPolygon.mk 0 3] [] false [] [] None false.

Definition skinned_packing : list (list nat) * list (list Qc) :=
  Eval vm_compute in
    let bone_data := __get_bone_data skinned_mesh skinned_skin skinned_vertex_groups in
    default ([], []) (pack_skin bone_data.1 bone_data.2 [0; 1; 2]%nat).

(** Every part of the export switched on, without skinning. *)
Definition full_settings : export_keys.t :=
  export_keys.mk true true true true false true true true EXPORT true.

(** The quad with a UV layer, a color layer, a face map and a shape key
    that moves its vertices along z.  On it the collaborators of
    [sample_externals] stand in for numpy and mathutils. *)
Definition textured_quad : Mesh.t :=
  Mesh.mk [sample_vertex 0; sample_vertex 1; sample_vertex 2; sample_vertex 3]
          [sample_loop 0; sample_loop 1; sample_loop 2; sample_loop 3]
          [MeshLoopTriangle.mk (0, 1, 2)%nat 1; MeshLoopTriangle.mk (0, 2, 3)%nat 0]
          [MeshPolygon.mk 0 4]
          [[(0, 0); (1, 0); (1, 1); (0, 1)]] true
          [[(1, 0, 0, 1); (0, 1, 0, 1); (0, 0, 1, 1); (1, 1, 1, 1)]]
          [[Qc_of_Z 7]]
          (Some [ShapeKey.mk [(0, 0, 0); (1, 0, 0); (Qc_of_Z 2, 0, 0); (Qc_of_Z 3, 0, 0)]
                   [(0, 0, 1); (0, 0, 1); (0, 0, 1); (0, 0, 1)] true false;
                 ShapeKey.mk [(0, 0, 1); (1, 0, 1); (Qc_of_Z 2, 0, 1); (Qc_of_Z 3, 0, 1)]
                   [(0, 1, 0); (0, 1, 0); (0, 1, 0); (0, 1, 0)] false false])
          true.

Definition textured_primitives : list Primitive.t :=
  Eval vm_compute in
    default [] (extract_primitives (H := sample_externals) textured_quad None [] None
                  full_settings).

Definition textured_first : Primitive.t :=
  Eval vm_compute in default (Primitive.mk ∅ [] 0) (head textured_primitives).

(** Every part of the export switched on, with skinning, and the
    primitives of the textured quad as the mesh of [sample_object] that
    [sample_armature] deforms. *)
Definition skinned_full_settings : export_keys.t :=
  export_keys.mk true true true true true true true true EXPORT true.

Definition skinned_quad_primitives : list Primitive.t :=
  Eval vm_compute in
    default [] (extract_primitives (H := sample_externals) textured_quad
                  (Some sample_object) skinned_vertex_groups
                  (Some [armature_modifier sample_armature]) skinned_full_settings).

Definition skinned_quad_first : Primitive.t :=
  Eval vm_compute in default (Primitive.mk ∅ [] 0) (head skinned_quad_primitives).

(** The shape key of the textured quad that is exported. *)
Definition moved_key : ShapeKey.t :=
  ShapeKey.mk [(0, 0, 1); (1, 0, 1); (Qc_of_Z 2, 0, 1); (Qc_of_Z 3, 0, 1)]
    [(0, 1, 0); (0, 1, 0); (0, 1, 0); (0, 1, 0)] false false.

(** The first vertex of the skinned mesh. *)
Definition skinned_vertex : MeshVertex.t :=
  MeshVertex.mk (0, 0, 0)
    [VertexGroupElement.mk 0 (Q2Qc 0.5); VertexGroupElement.mk 1 (Q2Qc 0.25);
     VertexGroupElement.mk 2 (Q2Qc 0.75)].

(** * Properties *)

(** ** Properties of the numpy operations *)

Section np_facts.
Context {A : Type} `{EqDecision A}.
Context (le : relation A) `{!RelDecision le}.
Context `{!Transitive le, !Total le, !AntiSymm (=) le}.

Local Abbreviation lt := (strict le).

Lemma strict_of_le_ne x y : le x y → x ≠ y → lt x y.
Proof.
  intros Hle Hne. split; [done|]. intros Hyx.
  apply Hne. by apply (anti_symm le).
Qed.

Lemma lt_le_trans x y z : lt x y → le y z → lt x z.
Proof.
  intros [Hxy Hnyx] Hyz. split; [by trans y|].
  intros Hzx. apply Hnyx. by trans z.
Qed.

Lemma changes_spec x l :
  StronglySorted le (x :: l) →
  let u := np.bool_index l (np.changes x l) in
  Forall (lt x) u ∧ StronglySorted lt u ∧
  (∀ y, y ∈ l → y = x ∨ y ∈ u) ∧ (∀ y, y ∈ u → y ∈ l).
Proof.
  revert x. induction l as [|y l IH]; intros x Hs; simpl.
  { split_and!; [constructor|constructor| |];
      intros y Hy; by apply elem_of_nil in Hy. }
  apply StronglySorted_inv in Hs as [Hs Hx].
  apply Forall_cons in Hx as [Hxy Hxl].
  destruct (IH y Hs) as (Hlt & Hss & Hin & Hback).
  case_bool_decide as Hne; simpl.
  - assert (lt x y) as Hxy' by by apply strict_of_le_ne.
    split_and!.
    + constructor; [done|].
      eapply Forall_impl; [exact Hlt|]. intros z [Hz _].
      by eapply lt_le_trans.
    + by constructor.
    + intros z [->|Hz]%elem_of_cons; [right; left|].
      destruct (Hin z Hz) as [->|?]; right; [left|by right].
    + intros z [->|Hz]%elem_of_cons; [left|right; by apply Hback].
  - subst y.
    split_and!; [done|done| |].
    + intros z [->|Hz]%elem_of_cons; [by left|]. by apply Hin.
    + intros z Hz. right. by apply Hback.
Qed.
Lemma mask_spec aux :
  StronglySorted le aux →
  let u := np.bool_index aux (np.mask aux) in
  StronglySorted lt u ∧ ∀ y, y ∈ u ↔ y ∈ aux.
Proof.
  destruct aux as [|x l]; simpl; intros Hs.
  { split; [constructor|done]. }
  destruct (changes_spec x l Hs) as (Hlt & Hss & Hin & Hback).
  split; [by constructor|]. intros y. rewrite !elem_of_cons. split.
  - intros [->|Hy]; [by left|right; by apply Hback].
  - intros [->|Hy]; [by left|]. destruct (Hin y Hy); [by left|by right].
Qed.

Lemma unique_sorted ar : StronglySorted lt (np.unique le ar).
Proof.
  apply mask_spec. unfold np.sort. by apply StronglySorted_merge_sort.
Qed.

Lemma elem_of_unique ar x : x ∈ np.unique le ar ↔ x ∈ ar.
Proof.
  unfold np.unique. etrans.
  - apply mask_spec. unfold np.sort. by apply StronglySorted_merge_sort.
  - unfold np.sort. by rewrite merge_sort_Permutation.
Qed.

Lemma strict_sorted_NoDup (u : list A) : StronglySorted lt u → NoDup u.
Proof.
  induction 1 as [|x u Hs IH Hx]; constructor; [|done].
  intros Hin. rewrite Forall_forall in Hx.
  destruct (Hx x Hin) as [Hle Hn]. by apply Hn.
Qed.

Lemma unique_NoDup ar : NoDup (np.unique le ar).
Proof. apply strict_sorted_NoDup, unique_sorted. Qed.

Lemma unique_nil : np.unique le [] = [].
Proof. reflexivity. Qed.

Lemma unique_nil_inv ar : np.unique le ar = [] → ar = [].
Proof.
  intros Hu. destruct ar as [|x ar]; [done|].
  assert (x ∈ np.unique le (x :: ar)) as Hx by (apply elem_of_unique; left).
  rewrite Hu in Hx. by apply elem_of_nil in Hx.
Qed.

Lemma index_in_lookup (u : list A) x :
  x ∈ u → u !! np.index_in u x = Some x.
Proof.
  intros Hx. unfold np.index_in.
  destruct (list_find_elem_of (λ y, y = x) u x Hx eq_refl) as [[i y] Hf].
  rewrite Hf. simpl. apply list_find_Some in Hf as (Hi & -> & _). done.
Qed.

Lemma index_in_lt (u : list A) x : x ∈ u → (np.index_in u x < length u)%nat.
Proof. intros Hx. eapply lookup_lt_Some, index_in_lookup, Hx. Qed.

Lemma index_in_inj (u : list A) x y :
  x ∈ u → y ∈ u → np.index_in u x = np.index_in u y → x = y.
Proof.
  intros Hx Hy Heq. apply index_in_lookup in Hx, Hy.
  rewrite Heq in Hx. congruence.
Qed.

Lemma unique_inverse_length ar :
  length (np.unique_inverse le ar).2 = length ar.
Proof. simpl. by rewrite length_fmap. Qed.

Lemma unique_inverse_lookup ar i x :
  ar !! i = Some x →
  ∃ k, (np.unique_inverse le ar).2 !! i = Some k ∧
       (np.unique_inverse le ar).1 !! k = Some x.
Proof.
  intros Hi. exists (np.index_in (np.unique le ar) x). simpl. split.
  - by rewrite list_lookup_fmap, Hi.
  - apply index_in_lookup, elem_of_unique. by eapply list_elem_of_lookup_2.
Qed.

Lemma unique_inverse_same ar i j x y k l :
  ar !! i = Some x → ar !! j = Some y →
  (np.unique_inverse le ar).2 !! i = Some k →
  (np.unique_inverse le ar).2 !! j = Some l →
  k = l ↔ x = y.
Proof.
  intros Hi Hj. simpl. rewrite !list_lookup_fmap, Hi, Hj. simpl.
  intros [= <-] [= <-]. split; [|by intros ->].
  apply index_in_inj; apply elem_of_unique; by eapply list_elem_of_lookup_2.
Qed.
End np_facts.

(** ** The order on dots is a total order *)

Section dot_order.
Lemma Qc_trichotomy (x y : Qc) : x < y ∨ x = y ∨ y < x.
Proof. destruct (Qc_dec x y) as [[?|?]|?]; auto. Qed.

Lemma fields_le_total a b : Dot.fields_le a b ∨ Dot.fields_le b a.
Proof.
  revert b. induction a as [|x a IH]; intros [|y b]; simpl; auto.
  destruct (Qc_trichotomy x y) as [?|[->|?]]; auto.
  destruct (IH b); auto.
Qed.

Lemma fields_le_trans a b c :
  Dot.fields_le a b → Dot.fields_le b c → Dot.fields_le a c.
Proof.
  revert b c. induction a as [|x a IH]; intros [|y b] [|z c]; simpl; try done.
  intros [Hxy|[-> Hab]] [Hyz|[-> Hbc]]; auto.
  - left. by trans y.
  - right. split; [done|]. by eapply IH.
Qed.

Lemma fields_le_antisym a b : Dot.fields_le a b → Dot.fields_le b a → a = b.
Proof.
  revert b. induction a as [|x a IH]; intros [|y b]; simpl; try done.
  intros [Hxy|[-> Hab]] [Hyx|[Heq Hba]].
  - destruct (irreflexivity Qclt x). by trans y.
  - subst. by destruct (irreflexivity Qclt x).
  - by destruct (irreflexivity Qclt y).
  - f_equal. by apply IH.
Qed.

Global Instance dot_le_total : Total Dot.le.
Proof.
  intros [v a] [w b]. unfold Dot.le. simpl.
  destruct (lt_eq_lt_dec v w) as [[?| -> ]|?]; [by left; left| |by right; left].
  destruct (fields_le_total a b); [left|right]; by right.
Qed.

Global Instance dot_le_trans : Transitive Dot.le.
Proof.
  intros [u a] [v b] [w c]. unfold Dot.le. simpl.
  intros [?|[-> Hab]] [?|[-> Hbc]]; [left; lia|by left|by left|].
  right. split; [done|]. by eapply fields_le_trans.
Qed.

Global Instance dot_le_antisym : AntiSymm (=) Dot.le.
Proof.
  intros [v a] [w b]. unfold Dot.le. simpl.
  intros [?|[-> Hab]] [?|[? Hba]]; try lia.
  f_equal. by apply fields_le_antisym.
Qed.

Global Instance nat_le_antisym : AntiSymm (=) Nat.le.
Proof. intros x y ??. lia. Qed.
End dot_order.

(** ** Material buckets *)

Section buckets.
Implicit Types tris : list MeshLoopTriangle.t.

Lemma loops_of_cons t tris :
  loops_of (t :: tris) =
    (let '(a, b, c) := MeshLoopTriangle.loops t in [a; b; c]) ++ loops_of tris.
Proof. reflexivity. Qed.

Lemma loops_of_length tris : length (loops_of tris) = (3 * length tris)%nat.
Proof.
  induction tris as [|[[[a b] c] m] tris IH]; [done|].
  rewrite loops_of_cons, length_app, IH. simpl. lia.
Qed.

Lemma bucket_filter tris (u : nat) :
  np.bool_index (loops_of tris)
    ((λ m, bool_decide (m = u)) <$>
       np.repeat (MeshLoopTriangle.material_index <$> tris) 3) =
  loops_of (filter (λ t, MeshLoopTriangle.material_index t = u) tris).
Proof.
  induction tris as [|[[[a b] c] m] tris IH]; [done|].
  rewrite filter_cons. simpl. case_decide as Hm.
  - rewrite !bool_decide_eq_true_2 by done. rewrite loops_of_cons. simpl.
    do 3 f_equal. apply IH.
  - rewrite !bool_decide_eq_false_2 by done. apply IH.
Qed.


End buckets.

(** ** Skin packing *)

Section packing.
Context `{Externals}.

Lemma foldl_option_None {A B} (f : option A → B → option A) l :
  (∀ x, f None x = None) → foldl f None l = None.
Proof. intros Hf. induction l as [|x l IH]; simpl; [done|]. by rewrite Hf. Qed.

Lemma pack_slot_slot bones joints weights j :
  pack_slot bones (joints, weights) j =
  (alter (λ js, js ++ [(slot bones j).1]) (j / 4)%nat joints,
   alter (λ ws, ws ++ [(slot bones j).2]) (j / 4)%nat weights).
Proof.
  unfold pack_slot, slot. simpl. case_decide.
  - by destruct (default _ _).
  - by rewrite lookup_ge_None_2 by lia.
Qed.

Lemma pack_slots_closed num_joint_sets bones joints weights :
  pack_slots num_joint_sets bones (joints, weights) =
  (imap (λ s js, if decide (s < num_joint_sets)%nat
                 then js ++ chunk fst bones s else js) joints,
   imap (λ s ws, if decide (s < num_joint_sets)%nat
                 then ws ++ chunk snd bones s else ws) weights).
Proof.
  unfold pack_slots. induction num_joint_sets as [|m IH].
  { simpl. f_equal; (apply list_eq; intros i; rewrite list_lookup_imap;
      destruct (_ !! i); simpl; [|done]; repeat case_decide; (done || lia)). }
  replace (4 * S m)%nat with (4 * m + 4)%nat by lia.
  rewrite seq_app, foldl_app, IH. clear IH.
  cbn [seq foldl]. rewrite !pack_slot_slot.
  assert (∀ k, (k < 4)%nat → ((4 * m + k) / 4)%nat = m) as Hdiv.
  { intros k Hk. symmetry. apply (Nat.div_unique _ 4 m k); lia. }
  replace (0 + 4 * m)%nat with (4 * m + 0)%nat by lia.
  replace (S (4 * m + 0))%nat with (4 * m + 1)%nat by lia.
  replace (S (4 * m + 1))%nat with (4 * m + 2)%nat by lia.
  replace (S (4 * m + 2))%nat with (4 * m + 3)%nat by lia.
  rewrite !Hdiv by lia. unfold chunk.
  f_equal; (apply list_eq; intros i; rewrite !list_lookup_imap;
    destruct (decide (i = m)) as [->|Hne];
     [rewrite !list_lookup_alter_eq, list_lookup_imap;
      destruct (_ !! m) as [l|]; simpl; [|done];
      rewrite decide_False by lia; rewrite decide_True by lia;
      cbn [seq fmap list_fmap]; rewrite <-!(assoc_L (++)); cbn [app];
      generalize (m + (m + (m + (m + 0))))%nat; intros b;
      rewrite Nat.add_0_r, Nat.add_1_r;
      replace (b + 2)%nat with (S (S b)) by lia;
      replace (b + 3)%nat with (S (S (S b))) by lia;
      done
     |rewrite !list_lookup_alter_ne by done; rewrite list_lookup_imap;
      destruct (_ !! i) as [l|]; simpl; [|done];
      repeat case_decide; try lia; done]).
Qed.
Lemma pack_skin_fold vert_bones num_joint_sets idxs J W joints weights :
  foldl (λ acc vi,
      lists ← acc;
      bones ← vert_bones !! vi;
      Some (pack_slots num_joint_sets bones lists))
    (Some (J, W)) idxs = Some (joints, weights) →
  ∃ boness, np.take vert_bones idxs = Some boness ∧
    length joints = length J ∧ length weights = length W ∧
    (∀ s js, (s < num_joint_sets)%nat → J !! s = Some js →
       joints !! s = Some (js ++ (boness ≫= λ b, chunk fst b s))) ∧
    (∀ s ws, (s < num_joint_sets)%nat → W !! s = Some ws →
       weights !! s = Some (ws ++ (boness ≫= λ b, chunk snd b s))).
Proof.
  revert J W. induction idxs as [|vi idxs IH]; intros J W Hf; simpl in Hf.
  { injection Hf as <- <-. exists []. split_and!; [done..| |];
      intros s l _ Hl; simpl; by rewrite (right_id_L [] (++)). }
  destruct (vert_bones !! vi) as [bones|] eqn:Hvi; simpl in Hf; last first.
  { rewrite foldl_option_None in Hf; done. }
  rewrite pack_slots_closed in Hf.
  apply IH in Hf as (boness & Ht & Hlj & Hlw & Hj & Hw).
  exists (bones :: boness). rewrite !length_imap in *. split_and!; [|done|done| |].
  - unfold np.take in *. simpl. rewrite Hvi. simpl. by rewrite Ht.
  - intros s js Hs Hjs. erewrite Hj; [|done|].
    2:{ rewrite list_lookup_imap, Hjs. simpl. by rewrite decide_True. }
    by rewrite <-(assoc_L (++)).
  - intros s ws Hs Hws. erewrite Hw; [|done|].
    2:{ rewrite list_lookup_imap, Hws. simpl. by rewrite decide_True. }
    by rewrite <-(assoc_L (++)).
Qed.

Lemma pack_skin_closed vert_bones num_joint_sets idxs joints weights :
  pack_skin vert_bones num_joint_sets idxs = Some (joints, weights) →
  ∃ boness, np.take vert_bones idxs = Some boness ∧
    length joints = num_joint_sets ∧ length weights = num_joint_sets ∧
    (∀ s, (s < num_joint_sets)%nat →
       joints !! s = Some (boness ≫= λ b, chunk fst b s) ∧
       weights !! s = Some (boness ≫= λ b, chunk snd b s)).
Proof.
  intros Hp. apply pack_skin_fold in Hp as (boness & Ht & Hlj & Hlw & Hj & Hw).
  rewrite length_replicate in Hlj. rewrite length_replicate in Hlw.
  exists boness. split_and!; [done..|]. intros s Hs. split.
  - by rewrite (Hj s []) by (done || by apply lookup_replicate_2).
  - by rewrite (Hw s []) by (done || by apply lookup_replicate_2).
Qed.

Lemma chunks_length {X} (f : nat * Qc → X) (boness : list (list (nat * Qc))) s :
  length (boness ≫= λ b, chunk f b s) = (4 * length boness)%nat.
Proof.
  induction boness as [|b boness IH]; [done|].
  change ((b :: boness) ≫= λ b, chunk f b s)
    with (chunk f b s ++ (boness ≫= λ b, chunk f b s)).
  rewrite length_app, IH. unfold chunk. rewrite length_fmap, length_seq.
  cbn [length]. lia.
Qed.

Lemma chunks_lookup {X} (f : nat * Qc → X) (boness : list (list (nat * Qc))) s k r bones :
  boness !! k = Some bones → (r < 4)%nat →
  (boness ≫= λ b, chunk f b s) !! (4 * k + r)%nat = Some (f (slot bones (4 * s + r))).
Proof.
  revert k. induction boness as [|b boness IH]; intros k Hk Hr; [done|].
  change ((b :: boness) ≫= λ b, chunk f b s)
    with (chunk f b s ++ (boness ≫= λ b, chunk f b s)).
  destruct k as [|k]; simpl in Hk.
  - injection Hk as ->. rewrite lookup_app_l
      by (unfold chunk; rewrite length_fmap, length_seq; lia).
    unfold chunk. rewrite list_lookup_fmap.
    replace (4 * 0 + r)%nat with r by lia.
    rewrite lookup_seq_lt by done. done.
  - rewrite lookup_app_r
      by (unfold chunk; rewrite length_fmap, length_seq; lia).
    unfold chunk at 1. rewrite length_fmap, length_seq.
    replace (4 * S k + r - 4)%nat with (4 * k + r)%nat by lia. by apply IH.
Qed.
End packing.

(** ** Attribute arrays *)

Section attributes.
Context `{Externals}.

Lemma take_length {A} (a : list A) idx r :
  np.take a idx = Some r → length r = length idx.
Proof. intros Ht. symmetry. by eapply length_mapM. Qed.

Lemma take_lookup {A} (a : list A) idx r i k :
  np.take a idx = Some r → idx !! i = Some k → r !! i = a !! k ∧ is_Some (a !! k).
Proof.
  intros Ht Hi. apply mapM_Some in Ht.
  destruct (Forall2_lookup_l _ _ _ _ _ Ht Hi) as (x & Hr & Hx).
  rewrite Hr, Hx. eauto.
Qed.

Lemma take_nil {A} (a : list A) : np.take a [] = Some [].
Proof. reflexivity. Qed.

Lemma attrs_ok_insert n name a attributes :
  name ≠ "POSITION" → covers n a → attrs_ok n attributes →
  attrs_ok n (<[name := a]> attributes).
Proof.
  intros Hne Ha [(pos & Hp & Hl) Hall]. split.
  - exists pos. by rewrite lookup_insert_ne.
  - by apply map_Forall_insert_2.
Qed.

Lemma morph_position_attributes_ok n morph_locs idxs attributes attributes' :
  length idxs = n → attrs_ok n attributes →
  morph_position_attributes morph_locs idxs attributes = Some attributes' →
  attrs_ok n attributes'.
Proof.
  intros Hn. unfold morph_position_attributes.
  generalize (imap pair morph_locs). intros l. revert attributes.
  induction l as [|[i vs] l IH]; simpl; intros attributes Hok Hf.
  { by injection Hf as <-. }
  destruct (np.take vs idxs) as [rows|] eqn:Ht; simpl in Hf.
  - eapply IH; [|exact Hf]. apply attrs_ok_insert; [done| |done].
    simpl. by erewrite take_length.
  - exfalso. clear -Hf. induction l as [|[j ws] l IH]; [done|]. by apply IH.
Qed.
End attributes.

(** ** Matrices and the exceptions of the getters *)

Section matrices.

Ltac split3 m := destruct m as [[[[? ?] ?] [[? ?] ?]] [[? ?] ?]].
Ltac split4 m :=
  destruct m as [[[[[[? ?] ?] ?] [[[? ?] ?] ?]] [[[? ?] ?] ?]] [[[? ?] ?] ?]].
Ltac matrix_entries :=
  cbv beta iota zeta delta
    [Matrix.matmul3 Matrix.matmul4 Matrix.transposed Matrix.transposed4 Vector.dot
     Matrix.dot4 Matrix.identity3 Matrix.identity4 Vector.scale Matrix.scale4
     Matrix.adjugate Matrix.adjugate4 Matrix.minors Matrix.determinant
     Matrix.determinant4].
Ltac entries :=
  matrix_entries; repeat match goal with |- (_, _) = (_, _) => f_equal end; ring.

Lemma matmul3_assoc a b c :
  Matrix.matmul3 (Matrix.matmul3 a b) c = Matrix.matmul3 a (Matrix.matmul3 b c).
Proof. split3 a. split3 b. split3 c. entries. Qed.

Lemma matmul4_assoc a b c :
  Matrix.matmul4 (Matrix.matmul4 a b) c = Matrix.matmul4 a (Matrix.matmul4 b c).
Proof. split4 a. split4 b. split4 c. entries. Qed.

Lemma matmul3_identity_l a : Matrix.matmul3 Matrix.identity3 a = a.
Proof. split3 a. entries. Qed.
Lemma matmul3_identity_r a : Matrix.matmul3 a Matrix.identity3 = a.
Proof. split3 a. entries. Qed.
Lemma matmul4_identity_l a : Matrix.matmul4 Matrix.identity4 a = a.
Proof. split4 a. entries. Qed.
Lemma matmul4_identity_r a : Matrix.matmul4 a Matrix.identity4 = a.
Proof. split4 a. entries. Qed.

Lemma determinant_matmul3 a b :
  Matrix.determinant (Matrix.matmul3 a b) =
  Matrix.determinant a * Matrix.determinant b.
Proof. split3 a. split3 b. simpl. ring. Qed.

Lemma determinant_matmul4 a b :
  Matrix.determinant4 (Matrix.matmul4 a b) =
  Matrix.determinant4 a * Matrix.determinant4 b.
Proof. split4 a. split4 b. simpl. ring. Qed.

Lemma inverse3_unique m a b : inverse3 m a → inverse3 m b → a = b.
Proof.
  intros [_ Ha] [Hb _].
  rewrite <-(matmul3_identity_r a), <-Hb, <-matmul3_assoc, Ha.
  apply matmul3_identity_l.
Qed.

Lemma inverse4_unique m a b : inverse4 m a → inverse4 m b → a = b.
Proof.
  intros [_ Ha] [Hb _].
  rewrite <-(matmul4_identity_r a), <-Hb, <-matmul4_assoc, Ha.
  apply matmul4_identity_l.
Qed.

Lemma inverse3_determinant m a : inverse3 m a → Matrix.determinant m ≠ 0.
Proof.
  intros [Ha _] Hd. apply (f_equal Matrix.determinant) in Ha.
  rewrite determinant_matmul3, Hd in Ha. simpl in Ha. revert Ha.
  match goal with |- ?l = ?r → _ => assert (l = 0) as -> by ring; assert (r = 1) as -> by ring end.
  done.
Qed.

Lemma inverse4_determinant m a : inverse4 m a → Matrix.determinant4 m ≠ 0.
Proof.
  intros [Ha _] Hd. apply (f_equal Matrix.determinant4) in Ha.
  rewrite determinant_matmul4, Hd in Ha. simpl in Ha. revert Ha.
  match goal with |- ?l = ?r → _ => assert (l = 0) as -> by ring; assert (r = 1) as -> by ring end.
  done.
Qed.

Lemma inverted3_inverse_1 m a : Matrix.inverted3 m = Some a → inverse3 m a.
Proof.
  unfold Matrix.inverted3. case_decide as Hd; [done|].
  destruct (Matrix.adjugate m) as [[r0 r1] r2] eqn:Hadj. intros [= <-].
  revert Hd Hadj. split3 m. simpl. intros Hd [= <- <- <-].
  match type of Hd with ?d ≠ 0 => set (k := / d); assert (k * d = 1) as Hk
    by (apply Qcmult_inv_l, Hd) end.
  clearbody k.
  split; matrix_entries;
    repeat match goal with |- (_, _) = (_, _) => f_equal end;
    match goal with
    | |- _ = 1 => rewrite <-Hk; ring
    | |- _ = 0 => ring
    end.
Qed.

Lemma inverted4_inverse_1 m a : Matrix.inverted4 m = Some a → inverse4 m a.
Proof.
  unfold Matrix.inverted4. case_decide as Hd; [done|].
  destruct (Matrix.adjugate4 m) as [[[r0 r1] r2] r3] eqn:Hadj. intros [= <-].
  revert Hd Hadj. split4 m. simpl. intros Hd [= <- <- <- <-].
  match type of Hd with ?d ≠ 0 => set (k := / d); assert (k * d = 1) as Hk
    by (apply Qcmult_inv_l, Hd) end.
  clearbody k.
  split; matrix_entries;
    repeat match goal with |- (_, _) = (_, _) => f_equal end;
    match goal with
    | |- _ = 1 => rewrite <-Hk; ring
    | |- _ = 0 => ring
    end.
Qed.

(** [Matrix.inverted3] returns the inverse of a matrix, and raises
    exactly when there is none. *)
Lemma inverted3_inverse m a : Matrix.inverted3 m = Some a ↔ inverse3 m a.
Proof.
  split; [apply inverted3_inverse_1|]. intros Ha.
  destruct (Matrix.inverted3 m) as [b|] eqn:Hb.
  - f_equal. eapply inverse3_unique; [by apply inverted3_inverse_1|done].
  - unfold Matrix.inverted3 in Hb. case_decide as Hd.
    + by apply inverse3_determinant in Ha.
    + by destruct (Matrix.adjugate m) as [[r0 r1] r2].
Qed.

Lemma inverted4_inverse m a : Matrix.inverted4 m = Some a ↔ inverse4 m a.
Proof.
  split; [apply inverted4_inverse_1|]. intros Ha.
  destruct (Matrix.inverted4 m) as [b|] eqn:Hb.
  - f_equal. eapply inverse4_unique; [by apply inverted4_inverse_1|done].
  - unfold Matrix.inverted4 in Hb. case_decide as Hd.
    + by apply inverse4_determinant in Ha.
    + by destruct (Matrix.adjugate4 m) as [[[r0 r1] r2] r3].
Qed.

End matrices.

Section getter_exceptions.
Context `{Externals}.

Lemma normal_matrix_inverted armature blender_object N :
  normal_matrix armature blender_object N ↔
  ∃ inverse_world inverse_linear,
    Matrix.inverted4 (Object.matrix_world armature) = Some inverse_world ∧
    Matrix.inverted3 (Matrix.to_3x3 (Matrix.matmul4 inverse_world
                                       (Object.matrix_world blender_object)))
      = Some inverse_linear ∧
    N = Matrix.matmul3 (Matrix.to_3x3 (Object.matrix_world armature))
                       (Matrix.transposed inverse_linear).
Proof.
  unfold normal_matrix. split; intros (iw & il & Hw & Hl & ->); exists iw, il.
  - by rewrite inverted4_inverse, inverted3_inverse.
  - by rewrite <-inverted4_inverse, <-inverted3_inverse.
Qed.

(** The transform of the normals is determined by the armature and the
    object. *)
Lemma normal_transform_of_unique armature blender_object N N' :
  normal_transform_of armature blender_object N →
  normal_transform_of armature blender_object N' → N = N'.
Proof.
  unfold normal_transform_of.
  destruct armature as [armature|], blender_object as [blender_object|];
    try congruence.
  intros (M & -> & HM) (M' & -> & HM'). f_equal.
  apply normal_matrix_inverted in HM as (iw & il & Hw & Hl & ->).
  apply normal_matrix_inverted in HM' as (iw' & il' & Hw' & Hl' & ->).
  congruence.
Qed.

(** [__get_positions] raises exactly when the world matrix of the
    armature of a skinned mesh has no inverse. *)
Lemma get_positions_is_Some blender_mesh key_blocks armature blender_object
    export_settings :
  is_Some (__get_positions blender_mesh key_blocks armature blender_object
             export_settings) ↔
  world_invertible armature blender_object.
Proof.
  unfold __get_positions, world_invertible.
  destruct armature as [armature|], blender_object as [blender_object|];
    try (split; [done|]; intros _; simpl; eauto; fail).
  destruct (Matrix.inverted4 (Object.matrix_world armature)) as [iw|] eqn:Hw; simpl.
  - split; [|eauto]. intros _. exists iw. by apply inverted4_inverse.
  - split; [by intros [? ?]|]. intros [iw Hi%inverted4_inverse]. congruence.
Qed.

Lemma get_normals_is_Some blender_mesh key_blocks armature blender_object
    export_settings :
  is_Some (__get_normals blender_mesh key_blocks armature blender_object
             export_settings) ↔
  ∃ normal_transform, normal_transform_of armature blender_object normal_transform.
Proof.
  unfold __get_normals, normal_transform_of.
  destruct armature as [armature|], blender_object as [blender_object|];
    try (split; [|intros _; simpl]; eauto; fail).
  split.
  - intros [result Hr].
    apply bind_Some in Hr as ([ns mns] & Hr & _).
    apply bind_Some in Hr as (iw & Hw & Hr).
    apply bind_Some in Hr as (il & Hl & _).
    eexists (Some _), _. split; [done|]. apply normal_matrix_inverted. eauto.
  - intros (N & M & -> & (iw & il & Hw & Hl & ->)%normal_matrix_inverted).
    rewrite Hw. simpl. rewrite Hl. simpl. eauto.
Qed.

Lemma tangent_transform_is_Some armature blender_object :
  is_Some (tangent_transform armature blender_object) ↔
  ∃ inverse_world, inverse4 (Object.matrix_world armature) inverse_world.
Proof.
  unfold tangent_transform.
  destruct (Matrix.inverted4 (Object.matrix_world armature)) as [iw|] eqn:Hw; simpl.
  - split; [|eauto]. intros _. exists iw. by apply inverted4_inverse.
  - split; [by intros [? ?]|]. intros [iw Hi%inverted4_inverse]. congruence.
Qed.

Lemma get_tangents_is_Some blender_mesh armature blender_object export_settings :
  is_Some (__get_tangents blender_mesh armature blender_object export_settings) ↔
  world_invertible armature blender_object.
Proof.
  unfold __get_tangents, world_invertible.
  destruct armature as [armature|], blender_object as [blender_object|];
    try (split; [done|]; intros _; simpl; eauto; fail).
  rewrite <-(tangent_transform_is_Some armature blender_object).
  destruct (tangent_transform armature blender_object); simpl; [by split; intros _; eexists|].
  split; intros [? ?]; done.
Qed.

Lemma get_bitangent_signs_is_Some blender_mesh armature blender_object
    export_settings :
  is_Some (__get_bitangent_signs blender_mesh armature blender_object
             export_settings) ↔
  world_invertible armature blender_object.
Proof.
  unfold __get_bitangent_signs, world_invertible.
  destruct armature as [armature|], blender_object as [blender_object|];
    try (split; [done|]; intros _; simpl; eauto; fail).
  rewrite <-(tangent_transform_is_Some armature blender_object).
  destruct (tangent_transform armature blender_object); simpl; [by split; intros _; eexists|].
  split; intros [? ?]; done.
Qed.
End getter_exceptions.

(** ** Primitives *)

Section primitive_facts.
Context `{Externals}.

Lemma foldl_invariant {A B} (P : A → Prop) (f : A → B → A) (l : list B) (a : A) :
  (∀ a x, x ∈ l → P a → P (f a x)) → P a → P (foldl f a l).
Proof.
  revert a. induction l as [|x l IH]; intros a Hf Ha; [done|].
  simpl. apply IH.
  - intros a' y Hy. apply Hf. by right.
  - apply Hf; [left|done].
Qed.

Lemma get_field_length dtype name dots :
  name ∈ dtype → length (get_field dtype name dots) = length dots.
Proof.
  intros Hin. unfold get_field, field_offset.
  destruct (list_find_elem_of (λ f, f = name) dtype name Hin eq_refl) as [[i y] Hf].
  rewrite Hf. simpl. by rewrite length_fmap.
Qed.

Section layout.
Context (use_normals use_tangents : bool) (tex_coord_max color_max : nat)
        (use_morph_normals : bool) (key_blocks : list ShapeKey.t)
        (use_facemaps : bool).
Let dtype := dot_fields use_normals use_tangents tex_coord_max color_max
                        use_morph_normals key_blocks use_facemaps.

Lemma normal_fields :
  use_normals = true → "nx" ∈ dtype ∧ "ny" ∈ dtype ∧ "nz" ∈ dtype.
Proof. intros ->. unfold dtype, dot_fields. set_solver. Qed.

Lemma tangent_fields :
  use_tangents = true →
  "tx" ∈ dtype ∧ "ty" ∈ dtype ∧ "tz" ∈ dtype ∧ "tw" ∈ dtype.
Proof. intros ->. unfold dtype, dot_fields. set_solver. Qed.

Lemma uv_fields i :
  (i < tex_coord_max)%nat →
  "uv" +:+ pretty i +:+ "x" ∈ dtype ∧ "uv" +:+ pretty i +:+ "y" ∈ dtype.
Proof.
  intros Hi. unfold dtype, dot_fields.
  split; do 2 (apply elem_of_app; right); apply elem_of_app; left;
    apply list_elem_of_bind; exists i; (split; [set_solver|apply elem_of_seq; lia]).
Qed.

Lemma color_fields i :
  (i < color_max)%nat →
  "color" +:+ pretty i +:+ "r" ∈ dtype ∧ "color" +:+ pretty i +:+ "g" ∈ dtype ∧
  "color" +:+ pretty i +:+ "b" ∈ dtype ∧ "color" +:+ pretty i +:+ "a" ∈ dtype.
Proof.
  intros Hi. unfold dtype, dot_fields.
  split_and!; do 3 (apply elem_of_app; right); apply elem_of_app; left;
    apply list_elem_of_bind; exists i; (split; [set_solver|apply elem_of_seq; lia]).
Qed.

Lemma morph_normal_fields i :
  use_morph_normals = true → (i < length key_blocks)%nat →
  "morph" +:+ pretty i +:+ "nx" ∈ dtype ∧ "morph" +:+ pretty i +:+ "ny" ∈ dtype ∧
  "morph" +:+ pretty i +:+ "nz" ∈ dtype.
Proof.
  intros -> Hi. unfold dtype, dot_fields.
  split_and!; do 4 (apply elem_of_app; right); apply elem_of_app; left;
    apply list_elem_of_bind; exists i; (split; [set_solver|apply elem_of_seq; lia]).
Qed.

Lemma facemaps_field : use_facemaps = true → "facemaps" ∈ dtype.
Proof.
  intros ->. unfold dtype, dot_fields.
  do 5 (apply elem_of_app; right). set_solver.
Qed.
End layout.

Lemma rows2_length c0 c1 n :
  length c0 = n → length c1 = n → length (rows2 c0 c1) = n.
Proof. intros. unfold rows2. rewrite length_zip_with. lia. Qed.

Lemma rows3_length c0 c1 c2 n :
  length c0 = n → length c1 = n → length c2 = n → length (rows3 c0 c1 c2) = n.
Proof. intros. unfold rows3. rewrite !length_zip_with. lia. Qed.

Lemma rows4_length c0 c1 c2 c3 n :
  length c0 = n → length c1 = n → length c2 = n → length c3 = n →
  length (rows4 c0 c1 c2 c3) = n.
Proof. intros. unfold rows4. rewrite !length_zip_with. lia. Qed.

Lemma calc_morph_tangents_length normals deltas tangents n :
  length normals = n → length deltas = n → length tangents = n →
  length (__calc_morph_tangents normals deltas tangents) = n.
Proof.
  intros Hn Hd Ht. unfold __calc_morph_tangents.
  rewrite !length_zip_with. unfold vec3, vec4 in *. lia.
Qed.

Ltac name_ne := let E := fresh in intros E; simpl in E; discriminate E.

Lemma dot_attributes_ok prim_dots use_normals use_tangents use_morph_normals
    use_morph_tangents use_facemaps tex_coord_max color_max key_blocks attributes :
  (use_morph_tangents = true → use_normals = true ∧ use_tangents = true) →
  attrs_ok (length prim_dots) attributes →
  attrs_ok (length prim_dots)
    (dot_attributes
       (dot_fields use_normals use_tangents tex_coord_max color_max
                   use_morph_normals key_blocks use_facemaps)
       prim_dots use_normals use_tangents use_morph_normals use_morph_tangents
       tex_coord_max color_max key_blocks attributes).
Proof.
  intros Hmt Hok. unfold dot_attributes. cbv zeta.
  set (dtype := dot_fields _ _ _ _ _ _ _).
  pose proof (normal_fields use_normals use_tangents tex_coord_max color_max
                use_morph_normals key_blocks use_facemaps) as Hn.
  pose proof (tangent_fields use_normals use_tangents tex_coord_max color_max
                use_morph_normals key_blocks use_facemaps) as Ht.
  fold dtype in Hn, Ht.
  apply foldl_invariant.
  { intros a i Hi%elem_of_seq Ha. apply attrs_ok_insert; [name_ne| |done].
    destruct (color_fields use_normals use_tangents tex_coord_max color_max
                use_morph_normals key_blocks use_facemaps i) as (?&?&?&?); [lia|].
    simpl. apply rows4_length; by apply get_field_length. }
  apply foldl_invariant.
  { intros a i Hi%elem_of_seq Ha. apply attrs_ok_insert; [name_ne| |done].
    destruct (uv_fields use_normals use_tangents tex_coord_max color_max
                use_morph_normals key_blocks use_facemaps i) as (?&?); [lia|].
    simpl. apply rows2_length; by apply get_field_length. }
  assert (attrs_ok (length prim_dots)
            (if use_normals
             then <["NORMAL" := Vec3s (rows3 (get_field dtype "nx" prim_dots)
                     (get_field dtype "ny" prim_dots)
                     (get_field dtype "nz" prim_dots))]> attributes
             else attributes)) as Hok1.
  { destruct use_normals; [|done]. destruct Hn as (?&?&?); [done|].
    apply attrs_ok_insert; [name_ne| |done].
    simpl. apply rows3_length; by apply get_field_length. }
  match type of Hok1 with attrs_ok _ ?a => revert Hok1; generalize a end.
  intros a1 Hok1.
  assert (attrs_ok (length prim_dots)
            (if use_tangents
             then <["TANGENT" := Vec4s (rows4 (get_field dtype "tx" prim_dots)
                     (get_field dtype "ty" prim_dots)
                     (get_field dtype "tz" prim_dots)
                     (get_field dtype "tw" prim_dots))]> a1
             else a1)) as Hok2.
  { destruct use_tangents; [|done]. destruct Ht as (?&?&?&?); [done|].
    apply attrs_ok_insert; [name_ne| |done].
    simpl. apply rows4_length; by apply get_field_length. }
  match type of Hok2 with attrs_ok _ ?a => revert Hok2; generalize a end.
  intros a2 Hok2.
  destruct use_morph_normals eqn:Hmn; [|done].
  apply foldl_invariant; [|done].
  intros a i Hi%elem_of_seq Ha.
  destruct (morph_normal_fields use_normals use_tangents tex_coord_max color_max
              true key_blocks use_facemaps i) as (?&?&?); [done|lia|].
  fold dtype in H0, H1, H2.
  assert (attrs_ok (length prim_dots)
            (<["MORPH_NORMAL_" +:+ pretty i :=
                 Vec3s (rows3 (get_field dtype ("morph" +:+ pretty i +:+ "nx") prim_dots)
                              (get_field dtype ("morph" +:+ pretty i +:+ "ny") prim_dots)
                              (get_field dtype ("morph" +:+ pretty i +:+ "nz") prim_dots))]> a))
    as Hok3.
  { apply attrs_ok_insert; [name_ne| |done].
    simpl. apply rows3_length; by apply get_field_length. }
  destruct use_morph_tangents; [|done].
  destruct Hmt as [-> ->]; [done|].
  destruct Hn as (?&?&?); [done|]. destruct Ht as (?&?&?&?); [done|].
  apply attrs_ok_insert; [name_ne| |done].
  simpl. apply calc_morph_tangents_length;
    [apply rows3_length|apply rows3_length|apply rows4_length];
    by apply get_field_length.
Qed.

Lemma skin_attributes_ok n skin idxs attributes attributes' :
  length idxs = n → attrs_ok n attributes →
  skin_attributes skin idxs attributes = Some attributes' →
  attrs_ok n attributes'.
Proof.
  intros Hn Hok. unfold skin_attributes.
  destruct skin as [[vert_bones num_joint_sets]|]; [|by intros [= <-]].
  destruct (pack_skin vert_bones num_joint_sets idxs) as [[joints weights]|] eqn:Hp;
    [|done].
  simpl. intros [= <-].
  apply pack_skin_closed in Hp as (boness & Ht & Hlj & Hlw & Hsets).
  apply take_length in Ht.
  apply foldl_invariant; [|done].
  intros a [i [js ws]] Hi Ha.
  apply list_elem_of_lookup in Hi as [k Hk].
  apply list_lookup_imap_Some in Hk as ([js' ws'] & Hz & Heq).
  injection Heq as -> -> ->.
  apply lookup_zip_with_Some in Hz as (js'' & ws'' & Heq & Hj & Hw).
  injection Heq as <- <-.
  destruct (Hsets k) as [Hj' Hw']; [apply lookup_lt_Some in Hj; lia|].
  rewrite Hj' in Hj. rewrite Hw' in Hw. injection Hj as <-. injection Hw as <-.
  apply attrs_ok_insert; [name_ne| |apply attrs_ok_insert; [name_ne| |done]];
    simpl; rewrite chunks_length; lia.
Qed.

Lemma vgroup_attributes_ok n extra idxs attributes attributes' :
  length idxs = n → attrs_ok n attributes →
  vgroup_attributes extra idxs attributes = Some attributes' →
  attrs_ok n attributes'.
Proof.
  intros Hn. unfold vgroup_attributes. revert attributes.
  induction extra as [|[name weights] l IH]; simpl; intros attributes Hok Hf.
  { by injection Hf as <-. }
  destruct (np.take weights idxs) as [ws|] eqn:Ht; simpl in Hf.
  - eapply IH; [|exact Hf]. apply attrs_ok_insert; [name_ne| |done].
    simpl. by erewrite take_length.
  - exfalso. clear -Hf. induction l as [|[j ws] l IH]; [done|]. by apply IH.
Qed.

Lemma make_primitive_inv dtype dots un ut umn umt uf tcm cm kbs locs mlocs skin extra
    material_idx dot_indices p :
  make_primitive dtype dots un ut umn umt uf tcm cm kbs locs mlocs skin extra
    material_idx dot_indices = Some (Some p) →
  ∃ prim_dots, np.take dots dot_indices = Some prim_dots ∧
    np.unique Dot.le prim_dots ≠ [] ∧
    Primitive.indices p = (np.unique_inverse Dot.le prim_dots).2 ∧
    Primitive.material p = material_idx.
Proof.
  unfold make_primitive. intros Hm.
  apply bind_Some in Hm as (prim_dots & Ht & Hm). exists prim_dots.
  split; [done|]. unfold np.unique_inverse in *. cbv zeta in Hm.
  case_decide as Hlen; [done|].
  repeat (apply bind_Some in Hm as (? & ? & Hm)).
  injection Hm as <-. simpl. split_and!; [|done..].
  intros Hu. by rewrite Hu in Hlen.
Qed.

Lemma make_primitive_attrs dots un ut umn umt uf tcm cm kbs locs mlocs skin extra
    material_idx dot_indices p :
  (umt = true → un = true ∧ ut = true) →
  make_primitive (dot_fields un ut tcm cm umn kbs uf) dots un ut umn umt uf tcm cm kbs
    locs mlocs skin extra material_idx dot_indices = Some (Some p) →
  ∃ prim_dots, np.take dots dot_indices = Some prim_dots ∧
    attrs_ok (length (np.unique Dot.le prim_dots)) (Primitive.attributes p).
Proof.
  unfold make_primitive. intros Hmt Hm.
  apply bind_Some in Hm as (prim_dots & Ht & Hm). exists prim_dots.
  split; [done|]. unfold np.unique_inverse in *. cbv zeta in Hm.
  case_decide as Hlen; [done|].
  apply bind_Some in Hm as (position & Hpos & Hm).
  apply bind_Some in Hm as (a1 & Ha1 & Hm).
  apply bind_Some in Hm as (a2 & Ha2 & Hm).
  apply bind_Some in Hm as (a3 & Ha3 & Hm).
  injection Hm as <-. simpl.
  set (u := np.unique Dot.le prim_dots) in *.
  assert (length (Dot.vertex_index <$> u) = length u) as Hidx by by rewrite length_fmap.
  assert (attrs_ok (length u) a3) as Hok.
  { eapply vgroup_attributes_ok; [exact Hidx| |exact Ha3].
    eapply skin_attributes_ok; [exact Hidx| |exact Ha2].
    apply dot_attributes_ok; [done|].
    eapply morph_position_attributes_ok; [exact Hidx| |exact Ha1].
    split; [|apply map_Forall_insert_2; [|apply map_Forall_empty]].
    - exists position. rewrite lookup_insert_eq. split; [done|].
      apply take_length in Hpos. by rewrite Hpos.
    - simpl. apply take_length in Hpos. by rewrite Hpos. }
  destruct uf eqn:Huf; [|done].
  apply attrs_ok_insert; [intros E; discriminate E| |done].
  simpl. apply get_field_length.
  by apply (facemaps_field un ut tcm cm umn kbs true).
Qed.

Lemma make_primitive_nil dtype dots un ut umn umt uf tcm cm kbs locs mlocs skin extra
    material_idx :
  make_primitive dtype dots un ut umn umt uf tcm cm kbs locs mlocs skin extra
    material_idx [] = Some None.
Proof. reflexivity. Qed.

Lemma make_primitive_skip dtype dots un ut umn umt uf tcm cm kbs locs mlocs skin extra
    material_idx dot_indices :
  make_primitive dtype dots un ut umn umt uf tcm cm kbs locs mlocs skin extra
    material_idx dot_indices = Some None → dot_indices = [].
Proof.
  unfold make_primitive. intros Hm.
  apply bind_Some in Hm as (prim_dots & Ht & Hm).
  unfold np.unique_inverse in *. cbv zeta in Hm.
  case_decide as Hlen.
  - apply nil_length_inv, unique_nil_inv in Hlen; [|apply _..].
    subst. apply take_length in Ht. by destruct dot_indices.
  - repeat (apply bind_Some in Hm as (? & ? & Hm)). done.
Qed.

Lemma extract_primitives_inv blender_mesh blender_object blender_vertex_groups
    modifiers export_settings prims :
  extract_primitives blender_mesh blender_object blender_vertex_groups modifiers
    export_settings = Some prims →
  ∃ dots un ut umn umt uf tcm cm kbs locs mlocs skin extra results,
    (umt = true → un = true ∧ ut = true) ∧
    mapM (λ '(material_idx, dot_indices),
        make_primitive (dot_fields un ut tcm cm umn kbs uf) dots un ut umn umt uf
          tcm cm kbs locs mlocs skin extra material_idx dot_indices)
      (bucket_by_material blender_mesh (export_keys.MATERIALS export_settings)
         (triangle_loops blender_mesh)) = Some results ∧
    prims = omap id results.
Proof.
  unfold extract_primitives. intros He.
  destruct (find_armature _ _ _ _) as [armature skin].
  apply bind_Some in He as ([locs mlocs] & _ & He).
  apply bind_Some in He as (dots & Hd & He).
  apply bind_Some in He as (results & Hr & He).
  injection He as <-.
  eexists dots, _, _, _, _, _, _, _, _, locs, mlocs, _, _, results.
  split; [|split; [exact Hr|done]].
  intros (Hmn & Hut)%andb_prop%proj1%andb_prop.
  apply andb_prop in Hmn as [Hun _]. split; [exact Hun|exact Hut].
Qed.
End primitive_facts.

(** ** Deduplication *)

Section dedup_claims.
Context `{Externals}.

Global Instance strict_antisym {A} (R : relation A) : AntiSymm (=) (strict R).
Proof. intros x y [? Hn] [? ?]. by destruct Hn. Qed.

Lemma unique_ext {A} `{EqDecision A} (le : relation A) `{!RelDecision le}
    `{!Transitive le, !Total le, !AntiSymm (=) le} (ar ar' : list A) :
  (∀ x, x ∈ ar ↔ x ∈ ar') → np.unique le ar = np.unique le ar'.
Proof.
  intros Hext. apply (StronglySorted_unique (strict le)); try apply unique_sorted; try apply _.
  apply NoDup_Permutation; try apply unique_NoDup; try apply _.
  intros x. by rewrite !elem_of_unique.
Qed.

(** C1, as amended: the deduplicator returns the distinct records of the
    bucket in ascending record order (vertex index first, then the fields
    in their order), each once; the sequence is a function of the set of
    records and does not depend on the order of the corners. *)
Theorem dedup_ascending_order (prim_dots : list Dot.t) :
  let u := (np.unique_inverse Dot.le prim_dots).1 in
  StronglySorted (strict Dot.le) u ∧ NoDup u ∧ (∀ d, d ∈ u ↔ d ∈ prim_dots) ∧
  ∀ prim_dots', (∀ d, d ∈ prim_dots ↔ d ∈ prim_dots') →
    (np.unique_inverse Dot.le prim_dots').1 = u.
Proof.
  simpl. split_and!.
  - apply unique_sorted; apply _.
  - apply unique_NoDup; apply _.
  - intros d. apply elem_of_unique; apply _.
  - intros prim_dots' Hext. symmetry. apply unique_ext; try apply _. done.
Qed.

(** C2: two corners of a bucket get the same index exactly when their
    records are equal. *)
Theorem dedup_soundness dtype dots un ut umn umt uf tcm cm kbs locs mlocs skin extra
    material_idx dot_indices p c1 c2 l1 l2 r1 r2 k1 k2 :
  make_primitive dtype dots un ut umn umt uf tcm cm kbs locs mlocs skin extra
    material_idx dot_indices = Some (Some p) →
  dot_indices !! c1 = Some l1 → dots !! l1 = Some r1 →
  dot_indices !! c2 = Some l2 → dots !! l2 = Some r2 →
  Primitive.indices p !! c1 = Some k1 → Primitive.indices p !! c2 = Some k2 →
  k1 = k2 ↔ r1 = r2.
Proof.
  intros (prim_dots & Ht & _ & Hi & _)%make_primitive_inv Hc1 Hr1 Hc2 Hr2.
  rewrite Hi.
  destruct (take_lookup _ _ _ _ _ Ht Hc1) as [Hp1 _].
  destruct (take_lookup _ _ _ _ _ Ht Hc2) as [Hp2 _].
  rewrite Hr1 in Hp1. rewrite Hr2 in Hp2.
  by apply (unique_inverse_same Dot.le prim_dots c1 c2).
Qed.
End dedup_claims.

(** The claim C1 fails: on the triangle whose corners visit the vertices
    2, 1, 0 the records come out in ascending order, not in the order of
    their first corners, and the index buffer is 2, 1, 0. *)
Lemma dedup_first_appearance_counterexample :
  collect_dots (H := sample_externals) reversed_triangle [] false false false false
    0 0 [] None None (sample_settings NONE) = Some reversed_dots ∧
  np.take reversed_dots (triangle_loops reversed_triangle) = Some reversed_dots ∧
  (np.unique_inverse Dot.le reversed_dots).1 ≠ first_occurrences reversed_dots ∧
  fmap (M := list) Primitive.indices <$>
    extract_primitives (H := sample_externals) reversed_triangle None [] None
      (sample_settings NONE) = Some [[2; 1; 0]%nat].
Proof. split_and!; [reflexivity|reflexivity|by vm_compute|reflexivity]. Qed.

Lemma dedup_soundness_witness :
  (0%nat = 0%nat ↔ Dot.mk 0 [] = Dot.mk 0 []) ∧
  (0%nat = 2%nat ↔ Dot.mk 0 [] = Dot.mk 2 []).
Proof.
  split.
  - apply (dedup_soundness (H := sample_externals) [] quad_dots false false false
             false false 0 0 [] (MeshVertex.co <$> Mesh.vertices quad) [] None []
             (-1) [0; 1; 2; 0; 2; 3]%nat quad_primitive 0 3 0 0); reflexivity.
  - apply (dedup_soundness (H := sample_externals) [] quad_dots false false false
             false false 0 0 [] (MeshVertex.co <$> Mesh.vertices quad) [] None []
             (-1) [0; 1; 2; 0; 2; 3]%nat quad_primitive 0 4 0 2); reflexivity.
Defined.

(** ** Index buffers, buckets and empty meshes *)

Section primitive_claims.
Context `{Externals}.

Local Abbreviation triangles_of m tris :=
  (filter (λ t, MeshLoopTriangle.material_index t = m) tris).

Lemma bucket_by_material_materials blender_mesh use_materials :
  use_materials ≠ NONE →
  bucket_by_material blender_mesh use_materials (triangle_loops blender_mesh) =
  (λ m, (Z.of_nat m, loops_of (triangles_of m (Mesh.loop_triangles blender_mesh))))
    <$> np.unique Nat.le
          (MeshLoopTriangle.material_index <$> Mesh.loop_triangles blender_mesh).
Proof.
  intros Hm. unfold bucket_by_material, triangle_loops.
  destruct use_materials; [done|..];
    apply list_fmap_ext; intros _ m _; by rewrite bucket_filter.
Qed.

Lemma bucket_length blender_mesh use_materials m b :
  (m, b) ∈ bucket_by_material blender_mesh use_materials (triangle_loops blender_mesh) →
  ∃ k, length b = (3 * k)%nat.
Proof.
  destruct (decide (use_materials = NONE)) as [->|Hm].
  - simpl. intros [= -> ->]%list_elem_of_singleton.
    eexists. apply loops_of_length.
  - rewrite bucket_by_material_materials by done.
    intros (u & [= -> ->] & _)%list_elem_of_fmap.
    eexists. apply loops_of_length.
Qed.



Lemma elem_of_omap_id {A} (results : list (option A)) p :
  p ∈ omap id results ↔ Some p ∈ results.
Proof.
  rewrite list_elem_of_omap. split.
  - intros (x & Hx & Hp). simpl in Hp. by subst.
  - intros Hp. by exists (Some p).
Qed.


(** C3: in every primitive the indices are below the number of
    deduplicated vertices, which is the length of POSITION and of every
    attribute array (JOINTS_i and WEIGHTS_i are flat lists of four entries
    per vertex), and the index buffer has a multiple of three entries. *)
Theorem index_validity blender_mesh blender_object blender_vertex_groups modifiers
    export_settings prims p :
  extract_primitives blender_mesh blender_object blender_vertex_groups modifiers
    export_settings = Some prims →
  p ∈ prims →
  ∃ n pos,
    Primitive.attributes p !! "POSITION" = Some (Vec3s pos) ∧ length pos = n ∧
    map_Forall (λ _, covers n) (Primitive.attributes p) ∧
    Forall (λ i, i < n)%nat (Primitive.indices p) ∧
    (length (Primitive.indices p) `mod` 3 = 0)%nat.
Proof.
  intros (dots & un & ut & umn & umt & uf & tcm & cm & kbs & locs & mlocs & skin &
          extra & results & Hmt & Hr & ->)%extract_primitives_inv Hp.
  apply elem_of_omap_id in Hp. apply mapM_Some in Hr.
  apply list_elem_of_lookup in Hp as [i Hi].
  destruct (Forall2_lookup_r _ _ _ _ _ Hr Hi) as ([m b] & Hb & Hmk).
  apply list_elem_of_lookup_2 in Hb.
  destruct (make_primitive_inv _ _ _ _ _ _ _ _ _ _ _ _ _ _ _ _ _ Hmk)
    as (prim_dots & Ht & Hne & Hidx & _).
  destruct (make_primitive_attrs _ _ _ _ _ _ _ _ _ _ _ _ _ _ _ _ Hmt Hmk)
    as (prim_dots' & Ht' & [(pos & Hpos & Hlen) Hall]).
  assert (prim_dots' = prim_dots) as -> by congruence.
  exists (length (np.unique Dot.le prim_dots)), pos. split_and!; [done..| |].
  - rewrite Hidx. simpl. apply Forall_fmap, Forall_forall. intros d Hd. simpl.
    apply index_in_lt. by apply elem_of_unique; [apply _..|].
  - rewrite Hidx, unique_inverse_length. apply take_length in Ht. rewrite Ht.
    destruct (bucket_length _ _ _ _ Hb) as [k ->].
    rewrite Nat.mul_comm. apply Nat.Div0.mod_mul.
Qed.


Lemma foldl_option_is_Some {A B} (f : A → B → option A) (l : list B) (a : A) :
  (∀ a x, x ∈ l → is_Some (f a x)) →
  is_Some (foldl (λ acc x, a ← acc; f a x) (Some a) l).
Proof.
  revert a. induction l as [|x l IH]; intros a Hf; simpl; [done|].
  destruct (Hf a x) as [a' ->]; [left|]. apply IH.
  intros a'' y Hy. apply Hf. by right.
Qed.

Lemma mesh_wf_empty blender_mesh :
  mesh_wf blender_mesh →
  Mesh.vertices blender_mesh = [] ∨ Mesh.loop_triangles blender_mesh = [] →
  Mesh.loops blender_mesh = [] ∧ Mesh.polygons blender_mesh = [] ∧
  Mesh.loop_triangles blender_mesh = [].
Proof.
  intros [Hrange Htile Hsize Hcount] Hempty.
  assert (Mesh.polygons blender_mesh = [] → Mesh.loops blender_mesh = []) as Hpl.
  { intros Hp. rewrite Hp in Htile. simpl in Htile.
    apply (f_equal length) in Htile. rewrite length_seq in Htile. simpl in Htile.
    by apply nil_length_inv. }
  assert (Mesh.loops blender_mesh = [] → Mesh.polygons blender_mesh = []) as Hlp.
  { intros Hl. rewrite Hl in Htile. simpl in Htile.
    destruct (Mesh.polygons blender_mesh) as [|poly polys]; [done|].
    apply Forall_cons in Hsize as [Hpoly _]. rewrite bind_cons in Htile.
    apply (f_equal length) in Htile. rewrite length_app, length_seq in Htile.
    simpl in Htile. lia. }
  assert (Mesh.polygons blender_mesh = [] → Mesh.loop_triangles blender_mesh = []) as Hpt.
  { intros Hp. rewrite Hp in Hcount. by apply nil_length_inv. }
  destruct Hempty as [Hv|Ht].
  - assert (Mesh.loops blender_mesh = []) as Hl.
    { rewrite Hv in Hrange. destruct (Mesh.loops blender_mesh) as [|l ls]; [done|].
      apply Forall_cons in Hrange as [Hl _]. simpl in Hl. lia. }
    auto.
  - assert (Mesh.polygons blender_mesh = []) as Hp.
    { rewrite Ht in Hcount. simpl in Hcount.
      destruct (Mesh.polygons blender_mesh) as [|poly polys]; [done|].
      apply Forall_cons in Hsize as [Hpoly _]. simpl in Hcount. lia. }
    auto.
Qed.

Lemma collect_dots_empty blender_mesh dtype use_normals use_tangents
    use_morph_normals use_facemaps tex_coord_max color_max key_blocks armature
    blender_object export_settings :
  Mesh.polygons blender_mesh = [] → Mesh.loops blender_mesh = [] →
  (tex_coord_max ≤ length (Mesh.uv_layers blender_mesh))%nat →
  (color_max ≤ length (Mesh.vertex_colors blender_mesh))%nat →
  (use_facemaps = true → Mesh.face_maps blender_mesh ≠ []) →
  skinning_invertible armature blender_object use_normals →
  is_Some (collect_dots blender_mesh dtype use_normals use_tangents use_morph_normals
             use_facemaps tex_coord_max color_max key_blocks armature blender_object
             export_settings).
Proof.
  intros Hp Hl Htc Hc Hfm [Hworld Hnormal]. unfold collect_dots.
  match goal with |- is_Some (mbind _ ?c) => assert (is_Some c) as [d ->] end.
  { destruct use_normals; [|done].
    destruct (proj2 (get_normals_is_Some blender_mesh
                       (if use_morph_normals then key_blocks else []) armature
                       blender_object export_settings) (Hnormal eq_refl))
      as [[normals morph_normals] ->].
    done. }
  cbn [mbind option_bind].
  match goal with |- is_Some (mbind _ ?c) => assert (is_Some c) as [d0 ->] end.
  { destruct use_tangents; [|done].
    destruct (proj2 (get_tangents_is_Some blender_mesh armature blender_object
                       export_settings) Hworld) as [tangents ->].
    destruct (proj2 (get_bitangent_signs_is_Some blender_mesh armature
                       blender_object export_settings) Hworld) as [signs ->].
    done. }
  cbn [mbind option_bind].
  destruct (foldl_option_is_Some
    (λ dots uv_i, uvs ← __get_uvs blender_mesh uv_i;
       Some (set_field dtype ("uv" +:+ pretty uv_i +:+ "y") ((λ uv : vec2, uv.2) <$> uvs)
         (set_field dtype ("uv" +:+ pretty uv_i +:+ "x")
            ((λ uv : vec2, uv.1) <$> uvs) dots)))
    (seq 0 tex_coord_max) d0) as [d1 Hd1].
  { intros a i Hi%elem_of_seq. unfold __get_uvs.
    destruct (lookup_lt_is_Some_2 (Mesh.uv_layers blender_mesh) i) as [layer ->];
      [lia|done]. }
  rewrite Hd1. simpl.
  destruct (foldl_option_is_Some
    (λ dots col_i, colors ← __get_colors blender_mesh col_i;
      Some (set_field dtype ("color" +:+ pretty col_i +:+ "a")
              ((λ c : vec4, c.2) <$> colors)
             (set_field dtype ("color" +:+ pretty col_i +:+ "b")
                ((λ c : vec4, c.1.2) <$> colors)
               (set_field dtype ("color" +:+ pretty col_i +:+ "g")
                  ((λ c : vec4, c.1.1.2) <$> colors)
                 (set_field dtype ("color" +:+ pretty col_i +:+ "r")
                    ((λ c : vec4, c.1.1.1) <$> colors) dots)))))
    (seq 0 color_max) d1) as [d2 Hd2].
  { intros a i Hi%elem_of_seq. unfold __get_colors.
    destruct (lookup_lt_is_Some_2 (Mesh.vertex_colors blender_mesh) i) as [layer ->];
      [lia|done]. }
  rewrite Hd2. simpl.
  destruct use_facemaps; [|done].
  unfold __get_facemaps. rewrite Hp, Hl.
  destruct (Mesh.face_maps blender_mesh) as [|fm fms]; [by destruct Hfm|].
  done.
Qed.

(** A result of [extract_primitives] shows that the matrices which the
    skinning transforms invert have an inverse. *)
Lemma extract_primitives_invertible blender_mesh blender_object blender_vertex_groups
    modifiers export_settings prims :
  extract_primitives blender_mesh blender_object blender_vertex_groups modifiers
    export_settings = Some prims →
  skinning_invertible
    (find_armature blender_object blender_vertex_groups modifiers export_settings).1
    blender_object (export_keys.NORMALS export_settings).
Proof.
  unfold extract_primitives.
  destruct (find_armature _ _ _ _) as [arm skin]. simpl. intros He.
  apply bind_Some in He as ([locs mlocs] & Hlocs & He).
  apply bind_Some in He as (dots & Hdots & _).
  split.
  - eapply get_positions_is_Some. eauto.
  - intros Hun. unfold collect_dots in Hdots. rewrite Hun in Hdots.
    apply bind_Some in Hdots as (d & Hd & _).
    apply bind_Some in Hd as ([normals morph_normals] & Hn & _).
    eapply get_normals_is_Some. eauto.
Qed.

(** C9, as amended: a mesh without vertices or without triangles gives
    the empty list of primitives, without an exception, when the matrices
    that the skinning transforms invert have an inverse (for a mesh that is
    not skinned there are none); when one of them has no inverse,
    [Matrix.inverted()] raises ValueError and there is no result.  A bucket
    without corners gives no primitive. *)
Theorem empty_mesh_no_primitives blender_mesh blender_object blender_vertex_groups
    modifiers export_settings :
  mesh_wf blender_mesh →
  Mesh.vertices blender_mesh = [] ∨ Mesh.loop_triangles blender_mesh = [] →
  let armature :=
    (find_armature blender_object blender_vertex_groups modifiers export_settings).1 in
  let invertible :=
    skinning_invertible armature blender_object (export_keys.NORMALS export_settings) in
  (invertible →
   extract_primitives blender_mesh blender_object blender_vertex_groups modifiers
     export_settings = Some []) ∧
  (¬ invertible →
   extract_primitives blender_mesh blender_object blender_vertex_groups modifiers
     export_settings = None) ∧
  ∀ dtype dots un ut umn umt uf tcm cm kbs locs mlocs skin extra material_idx,
    make_primitive dtype dots un ut umn umt uf tcm cm kbs locs mlocs skin extra
      material_idx [] = Some None.
Proof.
  intros Hwf Hempty armature invertible.
  split_and!; [| |intros; apply make_primitive_nil].
  - intros [Hworld Hnormal].
    destruct (mesh_wf_empty _ Hwf Hempty) as (Hl & Hp & Ht).
    unfold extract_primitives. unfold armature in *.
    destruct (find_armature _ _ _ _) as [arm skin]. simpl in Hworld, Hnormal.
    match goal with |- mbind _ ?c = _ =>
      destruct (proj2 (get_positions_is_Some _ _ _ _ _ : is_Some c ↔ _) Hworld)
        as [[locs mlocs] ->] end.
    cbn [mbind option_bind].
    match goal with |- mbind _ ?c = _ => assert (is_Some c) as [dots ->] end.
    { apply collect_dots_empty; [done|done|..|done].
      - destruct (_ && _); simpl; lia.
      - destruct (export_keys.COLORS _); simpl; lia.
      - by intros ?%bool_decide_eq_true. }
    simpl. unfold bucket_by_material, triangle_loops. rewrite Ht.
    by destruct (export_keys.MATERIALS export_settings).
  - intros Hno.
    destruct (extract_primitives _ _ _ _ _) as [prims|] eqn:He; [|done].
    destruct Hno. by eapply extract_primitives_invertible.
Qed.
End primitive_claims.

Lemma loose_vertices_wf : mesh_wf loose_vertices.
Proof. split; simpl; (constructor || reflexivity). Defined.

Lemma sample_skinning_invertible :
  skinning_invertible (Some sample_armature) (Some sample_object) true.
Proof.
  split.
  - exists ((1, 0, 0, -(1)), (0, 1, 0, - Qc_of_Z 2), (0, 0, 1, - Qc_of_Z 3), (0, 0, 0, 1)).
    split; vm_compute; reflexivity.
  - intros _. eexists (Some _), _. split; [reflexivity|].
    exists ((1, 0, 0, -(1)), (0, 1, 0, - Qc_of_Z 2), (0, 0, 1, - Qc_of_Z 3), (0, 0, 0, 1)),
           ((1, -(1), 0), (0, 1, 0), (0, 0, 1)).
    split_and!; [split; vm_compute; reflexivity..|reflexivity].
Defined.

Lemma empty_mesh_no_primitives_witness :
  extract_primitives (H := sample_externals) loose_vertices (Some sample_object)
    skinned_vertex_groups (Some [armature_modifier sample_armature]) skinned_settings
  = Some [].
Proof.
  apply (empty_mesh_no_primitives (H := sample_externals) loose_vertices
           (Some sample_object) skinned_vertex_groups
           (Some [armature_modifier sample_armature]) skinned_settings
           loose_vertices_wf).
  - right. reflexivity.
  - exact sample_skinning_invertible.
Defined.

(** The claim as it was stated fails on a mesh without triangles that is
    skinned by an armature whose world matrix has no inverse:
    [extract_primitives] raises. *)
Lemma empty_mesh_raises_counterexample :
  mesh_wf loose_vertices ∧ Mesh.loop_triangles loose_vertices = [] ∧
  extract_primitives (H := sample_externals) loose_vertices (Some sample_object)
    skinned_vertex_groups (Some [armature_modifier flat_armature]) skinned_settings
  ≠ Some [].
Proof. split; [exact loose_vertices_wf|]. split; [reflexivity|]. vm_compute. discriminate. Qed.

Lemma index_validity_witness :
  ∃ n pos,
    Primitive.attributes quad_first !! "POSITION" = Some (Vec3s pos) ∧ length pos = n ∧
    map_Forall (λ _, covers n) (Primitive.attributes quad_first) ∧
    Forall (λ i, i < n)%nat (Primitive.indices quad_first) ∧
    (length (Primitive.indices quad_first) `mod` 3 = 0)%nat.
Proof.
  apply (index_validity (H := sample_externals) quad None [] None
           (sample_settings EXPORT) quad_primitives quad_first).
  - reflexivity.
  - vm_compute. left.
Defined.


(** ** Skin weights *)

Section skin_claims.
Context `{Externals}.

Lemma insert_bone_perm x bones : insert_bone x bones ≡ₚ x :: bones.
Proof.
  induction bones as [|y bones IH]; simpl; [done|].
  case_decide; [|done]. rewrite IH. apply Permutation_swap.
Qed.

Lemma sort_bones_perm bones : sort_bones bones ≡ₚ bones.
Proof.
  induction bones as [|x bones IH]; simpl; [done|].
  by rewrite insert_bone_perm, IH.
Qed.

Lemma vertex_influences_positive group_to_joint vertex :
  Forall (λ jw, 0 < jw.2) (vertex_influences group_to_joint vertex).
Proof.
  unfold vertex_influences. apply Forall_forall. intros [j w] Hjw.
  apply list_elem_of_omap in Hjw as (ge & _ & Hge).
  case_decide as Hw; [done|].
  destruct (group_to_joint !! _) as [[joint|]|]; [|done..].
  injection Hge as <- <-. simpl. by apply Qclt_nge.
Qed.

Lemma vertex_influences_nil group_to_joint vertex :
  Forall (λ group_element,
      VertexGroupElement.weight group_element ≤ 0 ∨
      mjoin (group_to_joint !! VertexGroupElement.group group_element) = None)
    (MeshVertex.groups vertex) →
  vertex_influences group_to_joint vertex = [].
Proof.
  unfold vertex_influences. induction 1 as [|ge ges Hge _ IH]; [done|].
  cbn [omap list_omap]. case_decide as Hw; [exact IH|].
  destruct Hge as [?|Hg]; [done|].
  by destruct (group_to_joint !! _) as [[joint|]|].
Qed.

Lemma foldl_max_le (ls : list (list (nat * Qc))) (m0 : nat) l :
  l ∈ ls → (length l ≤ foldl (λ m bones, m `max` length bones) m0 ls)%nat.
Proof.
  assert (∀ ls m0, (m0 ≤ foldl (λ m (bones : list (nat * Qc)), m `max` length bones) m0 ls)%nat)
    as Hmono.
  { clear. induction ls as [|x ls IH]; intros m0; simpl; [done|].
    etrans; [|apply IH]. lia. }
  revert m0. induction ls as [|x ls IH]; intros m0 Hl; [by apply elem_of_nil in Hl|].
  simpl. apply elem_of_cons in Hl as [->|Hl]; [|by apply IH].
  etrans; [|apply Hmono]. lia.
Qed.

(** C5: every vertex has a non-empty list of influences with positive
    weights, a vertex without a positive-weight influence on a mapped group
    has exactly the influence (joint 0, weight 1), no influence of a vertex
    is cut off, the slots of a packed vertex are its influences followed by
    the padding (0, 0), its first slot has a positive weight, and no packed
    weight is negative. *)
Theorem weight_normalization blender_mesh skin blender_vertex_groups idxs
    joints weights :
  let vert_bones := (__get_bone_data blender_mesh skin blender_vertex_groups).1 in
  let num_joint_sets := (__get_bone_data blender_mesh skin blender_vertex_groups).2 in
  pack_skin vert_bones num_joint_sets idxs = Some (joints, weights) →
  Forall (λ bones, bones ≠ [] ∧ Forall (λ jw, 0 < jw.2) bones ∧
                   (length bones ≤ 4 * num_joint_sets)%nat) vert_bones ∧
  (∀ i vertex,
     Mesh.vertices blender_mesh !! i = Some vertex →
     Forall (λ group_element,
         VertexGroupElement.weight group_element ≤ 0 ∨
         mjoin (group_to_joint skin blender_vertex_groups
                  !! VertexGroupElement.group group_element) = None)
       (MeshVertex.groups vertex) →
     vert_bones !! i = Some [(0%nat, 1)]) ∧
  (∀ k vi j, idxs !! k = Some vi → (j < 4 * num_joint_sets)%nat →
     ∃ bones js ws, vert_bones !! vi = Some bones ∧
       joints !! (j / 4)%nat = Some js ∧ weights !! (j / 4)%nat = Some ws ∧
       js !! (4 * k + j `mod` 4)%nat = Some (slot bones j).1 ∧
       ws !! (4 * k + j `mod` 4)%nat = Some (slot bones j).2) ∧
  (∀ k vi, idxs !! k = Some vi →
     ∃ ws w, weights !! 0%nat = Some ws ∧ ws !! (4 * k)%nat = Some w ∧ 0 < w) ∧
  Forall (Forall (λ w, 0 ≤ w)) weights.
Proof.
  intros vert_bones num_joint_sets Hp.
  assert (Forall (λ bones, bones ≠ [] ∧ Forall (λ jw, 0 < jw.2) bones ∧
                   (length bones ≤ 4 * num_joint_sets)%nat) vert_bones) as Hvb.
  { apply Forall_forall. intros bones Hb. split_and!.
    - unfold vert_bones in Hb. simpl in Hb.
      apply list_elem_of_fmap in Hb as (vertex & -> & _). by case_decide.
    - unfold vert_bones in Hb. simpl in Hb.
      apply list_elem_of_fmap in Hb as (vertex & -> & _). case_decide.
      + by repeat constructor.
      + rewrite sort_bones_perm. apply vertex_influences_positive.
    - apply (foldl_max_le _ 0%nat) in Hb.
      change num_joint_sets
        with ((foldl (λ m (bones : list (nat * Qc)), m `max` length bones)
                 0%nat vert_bones + 3) / 4)%nat.
      revert Hb.
      generalize (foldl (λ m (bones : list (nat * Qc)), m `max` length bones)
                    0%nat vert_bones).
      intros m Hb. pose proof (Nat.div_mod_eq (m + 3) 4) as Hdm.
      pose proof (Nat.mod_upper_bound (m + 3) 4). lia. }
  apply pack_skin_closed in Hp as (boness & Ht & Hlj & Hlw & Hsets).
  assert (∀ k vi j, idxs !! k = Some vi → (j < 4 * num_joint_sets)%nat →
     ∃ bones js ws, vert_bones !! vi = Some bones ∧ boness !! k = Some bones ∧
       joints !! (j / 4)%nat = Some js ∧ weights !! (j / 4)%nat = Some ws ∧
       js !! (4 * k + j `mod` 4)%nat = Some (slot bones j).1 ∧
       ws !! (4 * k + j `mod` 4)%nat = Some (slot bones j).2) as Hslots.
  { intros k vi j Hk Hj.
    destruct (take_lookup _ _ _ _ _ Ht Hk) as [Hbk [bones Hb]].
    rewrite Hb in Hbk.
    pose proof (Nat.div_mod_eq j 4) as Hdm.
    pose proof (Nat.mod_upper_bound j 4) as Hmod.
    destruct (Hsets (j / 4)%nat) as [Hjs Hws]; [lia|].
    eexists bones, _, _. split_and!; [done|done|exact Hjs|exact Hws|..].
    - rewrite (chunks_lookup _ _ _ _ _ bones) by (done || lia).
      do 3 f_equal. lia.
    - rewrite (chunks_lookup _ _ _ _ _ bones) by (done || lia).
      do 3 f_equal. lia. }
  split_and!; [done| | | |].
  - intros i vertex Hi Hg. unfold vert_bones. simpl.
    rewrite list_lookup_fmap, Hi. simpl.
    by rewrite vertex_influences_nil.
  - intros k vi j Hk Hj.
    destruct (Hslots k vi j Hk Hj) as (bones & js & ws & ? & ? & ? & ? & ? & ?).
    by exists bones, js, ws.
  - intros k vi Hk.
    destruct (take_lookup _ _ _ _ _ Ht Hk) as [Hbk [bones Hb]].
    rewrite Forall_forall in Hvb.
    destruct (Hvb bones) as (Hne & Hpos & Hlen); [by eapply list_elem_of_lookup_2|].
    destruct bones as [|[j0 w0] bones]; [done|]. simpl in Hlen.
    destruct (Hslots k vi 0%nat Hk) as (bones' & js & ws & Hb' & _ & _ & Hws & _ & Hw);
      [lia|].
    rewrite Hb in Hb'. injection Hb' as <-.
    exists ws, w0. split_and!; [done| |].
    + assert ((4 * k + 0 `mod` 4)%nat = (4 * k)%nat) as Heq
        by (rewrite Nat.Div0.mod_0_l; lia).
      rewrite Heq in Hw. by rewrite Hw.
    + by apply Forall_cons in Hpos as [? _].
  - apply Forall_forall. intros ws Hws.
    apply list_elem_of_lookup in Hws as [s Hs].
    destruct (Hsets s) as [_ Hws']; [apply lookup_lt_Some in Hs; lia|].
    rewrite Hws' in Hs. injection Hs as <-.
    apply Forall_bind, Forall_forall. intros bones Hb.
    apply mapM_Some in Ht.
    apply list_elem_of_lookup in Hb as [k Hk].
    destruct (Forall2_lookup_r _ _ _ _ _ Ht Hk) as (vi & _ & Hvi).
    rewrite Forall_forall in Hvb.
    destruct (Hvb bones) as (_ & Hpos & _); [by eapply list_elem_of_lookup_2|].
    unfold chunk. apply Forall_fmap, Forall_forall. intros j _. simpl.
    unfold slot. destruct (bones !! j) as [[j' w]|] eqn:Hj; simpl; [|done].
    rewrite Forall_forall in Hpos. apply Qclt_le_weak.
    apply (Hpos (j', w)). by eapply list_elem_of_lookup_2.
Qed.
End skin_claims.

Lemma weight_normalization_witness :
  (__get_bone_data skinned_mesh skinned_skin skinned_vertex_groups).1 !! 1%nat
    = Some [(0%nat, 1)] ∧
  Forall (Forall (λ w, 0 ≤ w)) skinned_packing.2.
Proof.
  destruct (weight_normalization skinned_mesh skinned_skin
              skinned_vertex_groups [0; 1; 2]%nat skinned_packing.1 skinned_packing.2)
    as (_ & Hsynthetic & _ & _ & Hweights).
  - vm_compute. reflexivity.
  - split; [|exact Hweights].
    apply (Hsynthetic 1%nat (MeshVertex.mk (1, 0, 0) [VertexGroupElement.mk 1 (Q2Qc 0.5)])).
    + reflexivity.
    + constructor; [right; reflexivity|constructor].
Defined.

(** ** Transforms, colors and texture coordinates *)

Section getter_claims.
Context `{Externals}.

Lemma transposed_involutive m : Matrix.transposed (Matrix.transposed m) = m.
Proof. by destruct m as [[[[a b] c] [[d e] f]] [[g h] i]]. Qed.

Lemma apply_mat_M3 m vectors :
  __apply_mat_to_all (M3 m) vectors = Matrix.mulvec m <$> vectors.
Proof. unfold __apply_mat_to_all. by rewrite transposed_involutive. Qed.

Lemma apply_mat_M4 m vectors :
  __apply_mat_to_all (M4 m) vectors =
  (λ v, Vector.add (Matrix.mulvec (Matrix.to_3x3 m) v) (Matrix.translation m))
    <$> vectors.
Proof.
  unfold __apply_mat_to_all. rewrite transposed_involutive.
  by rewrite <-list_fmap_compose.
Qed.

Lemma vector_add_sub a b : Vector.add a (Vector.sub b a) = b.
Proof.
  destruct a as [[ax ay] az], b as [[bx b_y] bz]. simpl. f_equal; [f_equal|]; ring.
Qed.

Lemma zup2yup_rows array : __zup2yup array = (λ v, negate_z (swap_yz v)) <$> array.
Proof. unfold __zup2yup. by rewrite <-list_fmap_compose. Qed.

(** Deltas that are taken before a map [g] that commutes with the
    subtraction are the deltas of the mapped values. *)
Lemma deltas_after (g T : vec3 → vec3) values morphed :
  (∀ a b, g (Vector.sub a b) = Vector.sub (g a) (g b)) →
  morph_deltas_of (g ∘ T) values morphed
    (g <$> (T <$> values),
     fmap g <$> ((λ vs, zip_with Vector.sub vs (T <$> values)) <$> (fmap T <$> morphed))).
Proof.
  intros Hg. split_and!; simpl.
  - by rewrite <-list_fmap_compose.
  - by rewrite !length_fmap.
  - intros k ms i m v Hk Hi Hv.
    eexists _, _. rewrite !list_lookup_fmap, Hk. simpl. split; [done|].
    rewrite list_lookup_fmap, lookup_zip_with, !list_lookup_fmap, Hi, Hv. simpl.
    split; [done|]. rewrite Hg. split; [done|]. apply vector_add_sub.
Qed.

Lemma axis_conversion_sub export_settings a b :
  axis_conversion export_settings (Vector.sub a b) =
  Vector.sub (axis_conversion export_settings a) (axis_conversion export_settings b).
Proof.
  unfold axis_conversion. destruct (export_keys.YUP _); [|done].
  destruct a as [[ax ay] az], b as [[bx b_y] bz]. simpl. f_equal. ring.
Qed.

Lemma axis_conversion_rows export_settings (array : list vec3) :
  (if export_keys.YUP export_settings then __zup2yup array else array) =
  axis_conversion export_settings <$> array.
Proof.
  unfold axis_conversion. destruct (export_keys.YUP _).
  - rewrite zup2yup_rows. apply list_fmap_ext. by intros _ [[x y] z] _.
  - by rewrite list_fmap_id.
Qed.

Lemma fmap_fmap_id {A} (f : A → A) (ls : list (list A)) :
  (∀ x, f x = x) → fmap (M := list) f <$> ls = ls.
Proof.
  intros Hf. etrans; [|apply list_fmap_id]. apply list_fmap_ext. intros _ l _.
  etrans; [|apply list_fmap_id]. apply list_fmap_ext. auto.
Qed.

(** The last steps of [__get_positions] and of [__get_normals]: the
    deltas of the morph targets and the axis conversion. *)
Lemma deltas_shape (T : vec3 → vec3) export_settings (values : list vec3)
    (morphed : list (list vec3)) :
  (let morph := (λ vs, zip_with Vector.sub vs (T <$> values)) <$> (fmap T <$> morphed) in
   if export_keys.YUP export_settings
   then (__zup2yup (T <$> values), __zup2yup <$> morph)
   else (T <$> values, morph)) =
  (axis_conversion export_settings <$> (T <$> values),
   fmap (axis_conversion export_settings) <$>
     ((λ vs, zip_with Vector.sub vs (T <$> values)) <$> (fmap T <$> morphed))).
Proof.
  cbv zeta. rewrite <-axis_conversion_rows.
  destruct (export_keys.YUP export_settings) eqn:Hy; f_equal.
  - apply list_fmap_ext. intros _ vs _. rewrite <-axis_conversion_rows.
    by rewrite Hy.
  - symmetry. apply fmap_fmap_id. intros v. unfold axis_conversion. by rewrite Hy.
Qed.

Lemma get_positions_shape blender_mesh key_blocks armature blender_object
    export_settings result :
  __get_positions blender_mesh key_blocks armature blender_object export_settings
    = Some result →
  let T := skinned_position armature blender_object in
  let values := MeshVertex.co <$> Mesh.vertices blender_mesh in
  result =
  (axis_conversion export_settings <$> (T <$> values),
   fmap (axis_conversion export_settings) <$>
     ((λ vs, zip_with Vector.sub vs (T <$> values)) <$>
        (fmap T <$> (ShapeKey.data <$> key_blocks)))).
Proof.
  intros Hr T values. unfold __get_positions in Hr. fold values in Hr.
  apply bind_Some in Hr as ([locs mlocs] & Ht & [= <-]).
  assert (locs = T <$> values ∧ mlocs = fmap T <$> (ShapeKey.data <$> key_blocks))
    as [-> ->].
  { unfold T, skinned_position.
    destruct armature as [armature|], blender_object as [blender_object|].
    - apply bind_Some in Ht as (inverted & _ & [= <- <-]).
      split; [apply apply_mat_M4|].
      apply list_fmap_ext. intros _ vs _. apply apply_mat_M4.
    - injection Ht as <- <-. by rewrite list_fmap_id, fmap_fmap_id.
    - injection Ht as <- <-. by rewrite list_fmap_id, fmap_fmap_id.
    - injection Ht as <- <-. by rewrite list_fmap_id, fmap_fmap_id. }
  apply deltas_shape.
Qed.

Lemma normalize_vec_unit v : normalize_vec v = unit_vector v.
Proof.
  unfold normalize_vec, unit_vector. destruct v as [[x y] z].
  case_decide as Hn; case_decide as Hz; try done.
  simpl. unfold Qcdiv. f_equal; [f_equal|]; ring.
Qed.

Lemma replace_zero_normal_up v : replace_zero_normal v = up_if_zero v.
Proof.
  unfold replace_zero_normal, up_if_zero. destruct v as [[x y] z].
  case_decide as Hz; case_decide as Hv; try done.
  - by destruct Hz as (-> & -> & ->).
  - destruct Hv. by destruct Hz as (-> & -> & ->).
  - injection Hv as -> -> ->. by destruct Hz.
Qed.

Lemma get_normals_shape blender_mesh key_blocks armature blender_object
    export_settings result :
  __get_normals blender_mesh key_blocks armature blender_object export_settings
    = Some result →
  ∃ normal_transform,
    normal_transform_of armature blender_object normal_transform ∧
    let T := skinned_normal normal_transform in
    let values := MeshLoop.normal <$> Mesh.loops blender_mesh in
    result =
    (axis_conversion export_settings <$> (T <$> values),
     fmap (axis_conversion export_settings) <$>
       ((λ ns, zip_with Vector.sub ns (T <$> values)) <$>
          (fmap T <$> (ShapeKey.normals_split <$> key_blocks)))).
Proof.
  intros Hr. unfold __get_normals in Hr.
  set (values := MeshLoop.normal <$> Mesh.loops blender_mesh) in *.
  set (morphed := ShapeKey.normals_split <$> key_blocks) in *.
  apply bind_Some in Hr as ([ns mns] & Ht & [= <-]).
  assert (∃ normal_transform,
      normal_transform_of armature blender_object normal_transform ∧
      let skin (n : vec3) : vec3 :=
        match normal_transform with
        | Some N => unit_vector (Matrix.mulvec N n)
        | None => n
        end in
      ns = skin <$> values ∧ mns = fmap (M := list) skin <$> morphed)
    as (normal_transform & HN & -> & ->).
  { destruct armature as [armature|], blender_object as [blender_object|].
    - apply bind_Some in Ht as (iw & Hw & Ht).
      apply bind_Some in Ht as (il & Hl & [= <- <-]).
      eexists (Some _). split.
      { eexists. split; [done|]. apply normal_matrix_inverted. eauto. }
      cbv zeta. unfold __normalize_vecs.
      rewrite transposed_involutive, <-list_fmap_compose. split.
      + apply list_fmap_ext. intros _ n _. apply normalize_vec_unit.
      + apply list_fmap_ext. intros _ l _. simpl.
        rewrite <-list_fmap_compose.
        apply list_fmap_ext. intros _ n _. apply normalize_vec_unit.
    - injection Ht as <- <-. exists None. split; [done|]. cbv zeta.
      split; symmetry; [apply list_fmap_id|by apply fmap_fmap_id].
    - injection Ht as <- <-. exists None. split; [done|]. cbv zeta.
      split; symmetry; [apply list_fmap_id|by apply fmap_fmap_id].
    - injection Ht as <- <-. exists None. split; [done|]. cbv zeta.
      split; symmetry; [apply list_fmap_id|by apply fmap_fmap_id]. }
  exists normal_transform. split; [done|]. intros T values'.
  rewrite <-deltas_shape. cbv zeta.
  assert (∀ l : list vec3,
    replace_zero_normal <$>
      ((λ n : vec3, match normal_transform with
                    | Some N => unit_vector (Matrix.mulvec N n)
                    | None => n
                    end) <$> l) = T <$> l) as HT.
  { intros l. rewrite <-list_fmap_compose. apply list_fmap_ext. intros _ n _.
    apply replace_zero_normal_up. }
  rewrite HT.
  assert (fmap replace_zero_normal <$>
            (fmap (M := list)
               (λ n : vec3, match normal_transform with
                            | Some N => unit_vector (Matrix.mulvec N n)
                            | None => n
                            end) <$> morphed) = fmap T <$> morphed) as ->.
  { rewrite <-list_fmap_compose. apply list_fmap_ext. intros _ l _. apply HT. }
  done.
Qed.

(** C8: for positions and for normals, the base value that the getter
    returns is the fully transformed value, the delta it returns is the
    fully transformed morphed value minus the fully transformed base
    value, and base value + delta is the fully transformed morphed value,
    also under the axis conversion.  The getters return unless a matrix
    that the skinning transform inverts has no inverse. *)
Theorem morph_delta_round_trip blender_mesh key_blocks armature blender_object
    export_settings :
  let positions :=
    __get_positions blender_mesh key_blocks armature blender_object export_settings in
  let normals :=
    __get_normals blender_mesh key_blocks armature blender_object export_settings in
  (∀ result, positions = Some result →
     morph_deltas_of (transformed_position armature blender_object export_settings)
       (MeshVertex.co <$> Mesh.vertices blender_mesh) (ShapeKey.data <$> key_blocks)
       result) ∧
  (∀ result, normals = Some result →
     ∃ normal_transform,
       normal_transform_of armature blender_object normal_transform ∧
       morph_deltas_of (transformed_normal normal_transform export_settings)
         (MeshLoop.normal <$> Mesh.loops blender_mesh)
         (ShapeKey.normals_split <$> key_blocks) result) ∧
  (is_Some positions ↔ world_invertible armature blender_object) ∧
  (is_Some normals ↔
   ∃ normal_transform, normal_transform_of armature blender_object normal_transform).
Proof.
  intros positions normals. split_and!.
  - intros result ->%get_positions_shape.
    apply (deltas_after (axis_conversion export_settings)
             (skinned_position armature blender_object)).
    apply axis_conversion_sub.
  - intros result (normal_transform & HN & ->)%get_normals_shape.
    exists normal_transform. split; [done|].
    apply (deltas_after (axis_conversion export_settings)
             (skinned_normal normal_transform)).
    apply axis_conversion_sub.
  - apply get_positions_is_Some.
  - apply get_normals_is_Some.
Qed.


Lemma opp_fixed (y : Qc) : - y = y → y = 0.
Proof.
  intros Hy. assert ((1 + 1) * y = 0) as [E|E]%Qcmult_integral; [|done|done].
  transitivity (y + y); [ring|]. rewrite <-Hy at 1. ring.
Qed.

(** C7, as amended: the axis conversion applied twice maps x,y,z to
    x,-y,-z; it returns the original coordinates exactly for the rows with
    y = z = 0. *)
Theorem axis_remap_twice (array : list vec3) :
  (∀ i x y z, array !! i = Some (x, y, z) →
     __zup2yup array !! i = Some (x, z, - y) ∧
     __zup2yup (__zup2yup array) !! i = Some (x, - y, - z)) ∧
  (__zup2yup (__zup2yup array) = array ↔
   Forall (λ v : vec3, v.1.2 = 0 ∧ v.2 = 0) array).
Proof.
  assert (∀ a : list vec3, __zup2yup (__zup2yup a) =
            (λ v : vec3, (v.1.1, - v.1.2, - v.2)) <$> a) as Htwice.
  { intros a. unfold __zup2yup. rewrite <-!list_fmap_compose. apply list_fmap_ext.
    by intros _ [[x y] z] _. }
  split.
  - intros i x y z Hi. rewrite Htwice. unfold __zup2yup.
    rewrite !list_lookup_fmap. unfold vec3 in *. by rewrite Hi.
  - rewrite Htwice. split.
    + intros Heq. apply Forall_forall. intros [[x y] z] Hv.
      apply list_elem_of_lookup in Hv as [i Hi].
      apply (f_equal (.!! i)) in Heq. rewrite list_lookup_fmap in Heq.
      unfold vec3 in *. rewrite Hi in Heq. simpl in Heq.
      injection Heq as Hy Hz. simpl. split; by apply opp_fixed.
    + intros Hall. etrans; [|apply list_fmap_id]. apply list_fmap_ext.
      intros i [[x y] z] Hi. simpl.
      rewrite Forall_forall in Hall.
      destruct (Hall (x, y, z)) as [Hy Hz]; [by eapply list_elem_of_lookup_2|].
      simpl in Hy, Hz. subst. done.
Qed.

(** The claim as it was stated fails: the conversion applied twice to the
    vector (0, 1, 0) gives (0, -1, 0). *)
Lemma axis_remap_involution_counterexample :
  __zup2yup (__zup2yup [(0, 1, 0)]) ≠ [(0, 1, 0)].
Proof. vm_compute. discriminate. Qed.

Lemma srgb_to_linear_refines c : srgb_to_linear c = srgb_to_linear_spec c.
Proof.
  unfold srgb_to_linear, srgb_to_linear_spec.
  assert (∀ x y : Qc, x * (1 / y) = x / y) as Hdiv.
  { intros x y. unfold Qcdiv. ring. }
  case_bool_decide as Hsmall.
  - rewrite decide_False.
    2:{ intros Hneg. apply (Qclt_not_le _ _ Hneg). etrans; [|exact Hsmall]. done. }
    rewrite decide_False by by apply Qcle_not_lt. by rewrite Hdiv.
  - apply Qcnot_le_lt in Hsmall. case_decide; [done|].
    rewrite decide_True by done. apply Hdiv.
Qed.

(** C10: [__get_colors] converts the R, G and B channel of every corner
    from sRGB to linear and passes the alpha channel through, and
    [__get_uvs] maps the V coordinate of every corner to 1 - V and leaves
    U. *)
Theorem color_and_uv_conversion blender_mesh :
  (∀ color_i layer, Mesh.vertex_colors blender_mesh !! color_i = Some layer →
     ∃ colors, __get_colors blender_mesh color_i = Some colors ∧
       length colors = length layer ∧
       ∀ k r g b a, layer !! k = Some (r, g, b, a) →
         colors !! k = Some (srgb_to_linear_spec r, srgb_to_linear_spec g,
                             srgb_to_linear_spec b, a)) ∧
  (∀ uv_i layer, Mesh.uv_layers blender_mesh !! uv_i = Some layer →
     ∃ uvs, __get_uvs blender_mesh uv_i = Some uvs ∧
       length uvs = length layer ∧
       ∀ k u v, layer !! k = Some (u, v) → uvs !! k = Some (u, 1 - v)).
Proof.
  split.
  - intros color_i layer Hl. unfold __get_colors. rewrite Hl. simpl.
    eexists. split; [done|]. split; [by rewrite length_fmap|].
    intros k r g b a Hk. rewrite list_lookup_fmap. unfold vec4 in *.
    rewrite Hk. simpl.
    by rewrite !srgb_to_linear_refines.
  - intros uv_i layer Hl. unfold __get_uvs. rewrite Hl. simpl.
    eexists. split; [done|]. split; [by rewrite length_fmap|].
    intros k u v Hk. rewrite list_lookup_fmap. unfold vec2 in *.
    rewrite Hk. simpl. do 2 f_equal. ring.
Qed.
End getter_claims.


(** * Further properties of the module *)

(** ** The bone data of the vertices *)

Section bone_order.
Lemma insert_bone_elem_of x y bones : y ∈ insert_bone x bones ↔ y = x ∨ y ∈ bones.
Proof. by rewrite insert_bone_perm, elem_of_cons. Qed.

Lemma insert_bone_sorted x bones :
  StronglySorted heavier bones → StronglySorted heavier (insert_bone x bones).
Proof.
  induction 1 as [|y bones Hs IH Hy]; simpl; [repeat constructor|].
  case_decide as Hxy.
  - constructor; [done|]. apply Forall_forall. intros z [->|Hz]%insert_bone_elem_of.
    + by apply Qclt_le_weak.
    + rewrite Forall_forall in Hy. by apply Hy.
  - apply Qcnot_lt_le in Hxy. constructor; [by constructor|].
    constructor; [done|]. eapply Forall_impl; [exact Hy|].
    intros z Hz. unfold heavier in *. by etrans.
Qed.

Lemma sort_bones_sorted bones : StronglySorted heavier (sort_bones bones).
Proof.
  induction bones as [|x bones IH]; simpl; [constructor|].
  by apply insert_bone_sorted.
Qed.

Lemma insert_bone_stable (w : Qc) x bones :
  filter (λ b, b.2 = w) (insert_bone x bones) = filter (λ b, b.2 = w) (x :: bones).
Proof.
  induction bones as [|y bones IH]; [reflexivity|]. cbn [insert_bone].
  case_decide as Hxy; [|done].
  rewrite !filter_cons in *.
  destruct (decide (y.2 = w)) as [Hy|Hy], (decide (x.2 = w)) as [Hx|Hx];
    rewrite IH; try done.
  rewrite Hx, Hy in Hxy. by destruct (irreflexivity Qclt w).
Qed.

Lemma sort_bones_stable (w : Qc) bones :
  filter (λ b, b.2 = w) (sort_bones bones) = filter (λ b, b.2 = w) bones.
Proof.
  induction bones as [|x bones IH]; simpl; [done|].
  rewrite insert_bone_stable, !filter_cons. by rewrite IH.
Qed.

(** The dict [joint_name_to_index] maps a name to the last joint of that
    name. *)
Lemma joint_name_to_index_lookup (joints : list string) name j :
  foldl (λ (m : gmap string nat) '(index, joint), <[joint := index]> m) ∅
        (imap pair joints) !! name = Some j ↔
  joints !! j = Some name ∧ ∀ later, (j < later)%nat → joints !! later ≠ Some name.
Proof.
  revert j. induction joints as [|x l IH] using rev_ind; intros j.
  { simpl. rewrite lookup_empty. split; [done|]. by intros [? _]. }
  rewrite imap_app, foldl_app. simpl. rewrite Nat.add_0_r.
  destruct (decide (x = name)) as [->|Hne].
  - rewrite lookup_insert_eq. split.
    + intros [= <-]. split.
      * by rewrite lookup_app_r, Nat.sub_diag.
      * intros later Hl. rewrite lookup_ge_None_2; [done|].
        rewrite length_app. simpl. lia.
    + intros [Hj Hlast]. f_equal.
      destruct (decide (j < length l)%nat) as [Hlt|Hge].
      * destruct (Hlast (length l) Hlt). by rewrite lookup_app_r, Nat.sub_diag.
      * apply lookup_lt_Some in Hj. rewrite length_app in Hj. simpl in Hj. lia.
  - rewrite lookup_insert_ne by done. rewrite IH. split.
    + intros [Hj Hlast]. split.
      * by apply lookup_app_l_Some.
      * intros later Hl. destruct (decide (later < length l)%nat) as [Hlt|Hge].
        -- rewrite lookup_app_l by done. by apply Hlast.
        -- destruct (decide (later = length l)) as [->|Hn].
           ++ rewrite lookup_app_r, Nat.sub_diag by done. simpl. congruence.
           ++ rewrite lookup_ge_None_2; [done|]. rewrite length_app. simpl. lia.
    + intros [Hj Hlast].
      assert (j < length l)%nat as Hlt.
      { destruct (decide (j < length l)%nat) as [|Hge]; [done|].
        pose proof (lookup_lt_Some _ _ _ Hj) as Hlen.
        rewrite length_app in Hlen. simpl in Hlen.
        assert (j = length l) as -> by lia.
        rewrite lookup_app_r, Nat.sub_diag in Hj by done. simpl in Hj. congruence. }
      rewrite lookup_app_l in Hj by done. split; [done|].
      intros later Hl Hx. apply (Hlast later Hl). by apply lookup_app_l_Some.
Qed.

Lemma group_to_joint_bound skin blender_vertex_groups group joint :
  group_to_joint skin blender_vertex_groups !! group = Some (Some joint) ↔
  bound_joint skin blender_vertex_groups group joint.
Proof.
  unfold group_to_joint, bound_joint. rewrite list_lookup_fmap.
  destruct (blender_vertex_groups !! group) as [name|]; simpl.
  - split.
    + intros [= Hj]. exists name. split; [done|].
      by apply joint_name_to_index_lookup.
    + intros (name' & [= <-] & Hj). f_equal. by apply joint_name_to_index_lookup.
  - split; [done|]. by intros (name & ? & _).
Qed.

(** The pairs that [__get_bone_data] collects for a vertex are its
    influences on the joints of the skin. *)
Lemma vertex_influences_spec skin blender_vertex_groups vertex :
  influences_of skin blender_vertex_groups (MeshVertex.groups vertex)
    (vertex_influences (group_to_joint skin blender_vertex_groups) vertex).
Proof.
  unfold vertex_influences.
  induction (MeshVertex.groups vertex) as [|element elements IH]; [constructor|].
  cbn [omap list_omap]. case_decide as Hw.
  { apply influences_skip; [by left|done]. }
  destruct (group_to_joint skin blender_vertex_groups
              !! VertexGroupElement.group element) as [[joint|]|] eqn:Hg.
  - apply influences_keep; [by apply Qcnot_le_lt| |done].
    by apply group_to_joint_bound.
  - apply influences_skip; [|done]. right.
    intros joint Hb%group_to_joint_bound. congruence.
  - apply influences_skip; [|done]. right.
    intros joint Hb%group_to_joint_bound. congruence.
Qed.

Lemma bound_joint_unique skin blender_vertex_groups group j j' :
  bound_joint skin blender_vertex_groups group j →
  bound_joint skin blender_vertex_groups group j' → j = j'.
Proof.
  intros (name & Hn & Hj & Hlast) (name' & Hn' & Hj' & Hlast').
  assert (name' = name) as -> by congruence.
  destruct (Nat.lt_trichotomy j j') as [Hlt|[->|Hlt]]; [|done|].
  - by destruct (Hlast j' Hlt).
  - by destruct (Hlast' j Hlt).
Qed.

(** The influences of a vertex are determined by its group elements. *)
Lemma influences_of_unique skin blender_vertex_groups elements l l' :
  influences_of skin blender_vertex_groups elements l →
  influences_of skin blender_vertex_groups elements l' → l = l'.
Proof.
  intros Hl. revert l'.
  induction Hl as [|e es j l Hw Hb _ IH|e es l Hno _ IH]; intros l' Hl'.
  - by inversion Hl'.
  - inversion Hl' as [|? ? j' l2 Hw' Hb' Hl2|? ? ? Hno' Hl2]; subst.
    + f_equal; [|by apply IH]. f_equal. by eapply bound_joint_unique.
    + destruct Hno' as [Hle|Hno'].
      * by destruct (Qclt_not_le _ _ Hw).
      * by destruct (Hno' j).
  - inversion Hl' as [|? ? j' l2 Hw' Hb' Hl2|? ? ? Hno' Hl2]; subst.
    + destruct Hno as [Hle|Hno].
      * by destruct (Qclt_not_le _ _ Hw').
      * by destruct (Hno j').
    + by apply IH.
Qed.

(** X1: take the influences of a vertex on the joints of the skin: for
    every group element of positive weight whose vertex group is bound to
    a joint (the last joint with the name of the group) the pair of that
    joint and the weight, in the order of the elements.  The list that
    [__get_bone_data] gives the vertex is sorted by descending weight.
    When the vertex has such influences, the list is a rearrangement of
    them, and influences of equal weight keep the order they have in the
    vertex: the sort is stable.  When it has none, the list is the single
    pair (joint 0, weight 1). *)
Theorem bone_data_order blender_mesh skin blender_vertex_groups i vertex :
  Mesh.vertices blender_mesh !! i = Some vertex →
  ∃ bones influences,
    (__get_bone_data blender_mesh skin blender_vertex_groups).1 !! i = Some bones ∧
    influences_of skin blender_vertex_groups (MeshVertex.groups vertex) influences ∧
    StronglySorted heavier bones ∧
    (influences ≠ [] →
       bones ≡ₚ influences ∧
       ∀ w, filter (λ b, b.2 = w) bones = filter (λ b, b.2 = w) influences) ∧
    (influences = [] → bones = [(0%nat, 1)]).
Proof.
  intros Hi.
  pose (influences :=
          vertex_influences (group_to_joint skin blender_vertex_groups) vertex).
  assert ((__get_bone_data blender_mesh skin blender_vertex_groups).1 !! i =
          Some (if decide (sort_bones influences = [])
                then [(0%nat, 1)] else sort_bones influences)) as Hb.
  { unfold __get_bone_data. cbn [fst]. by rewrite list_lookup_fmap, Hi. }
  eexists _, influences. split; [exact Hb|].
  split; [apply vertex_influences_spec|].
  case_decide as Hnil.
  - assert (influences = []) as Hi0.
    { apply Permutation_nil_r. by rewrite <-Hnil, sort_bones_perm. }
    split_and!; [repeat constructor|done|done].
  - split_and!; [apply sort_bones_sorted| |].
    + intros _. split; [apply sort_bones_perm|]. intros w. apply sort_bones_stable.
    + intros Hi0. destruct Hnil. by rewrite Hi0.
Qed.

Lemma foldl_max_attained (ls : list (list (nat * Qc))) :
  ls ≠ [] →
  ∃ l, l ∈ ls ∧ length l = foldl (λ m bones, m `max` length bones) 0%nat ls.
Proof.
  assert (∀ (ls : list (list (nat * Qc))) m0,
            foldl (λ m bones, m `max` length bones) m0 ls = m0 ∨
            ∃ l, l ∈ ls ∧ length l = foldl (λ m bones, m `max` length bones) m0 ls) as Hgen.
  { clear. induction ls as [|x ls IH]; intros m0; simpl; [by left|].
    destruct (IH (m0 `max` length x)%nat) as [Heq|(l & Hl & Heq)].
    - rewrite Heq. destruct (Nat.max_spec m0 (length x)) as [[_ ->]|[_ ->]].
      + right. exists x. split; [left|done].
      + by left.
    - right. exists l. split; [by right|done]. }
  intros Hne. destruct ls as [|x ls]; [done|]. simpl.
  destruct (Hgen ls (length x)) as [Heq|(l & Hl & Heq)].
  - exists x. split; [left|done].
  - exists l. split; [by right|done].
Qed.

(** X2: [__get_bone_data] returns one influence list per vertex.  The
    number of joint sets is zero exactly for a mesh without vertices, every
    list fits into four slots per joint set, and the last joint set is
    needed: some vertex has more than [4 * (num_joint_sets - 1)]
    influences. *)
Theorem num_joint_sets_minimal blender_mesh skin blender_vertex_groups :
  let vert_bones := (__get_bone_data blender_mesh skin blender_vertex_groups).1 in
  let num_joint_sets := (__get_bone_data blender_mesh skin blender_vertex_groups).2 in
  length vert_bones = length (Mesh.vertices blender_mesh) ∧
  (num_joint_sets = 0%nat ↔ Mesh.vertices blender_mesh = []) ∧
  Forall (λ bones, length bones ≤ 4 * num_joint_sets)%nat vert_bones ∧
  (0 < num_joint_sets →
   ∃ bones, bones ∈ vert_bones ∧ (4 * (num_joint_sets - 1) < length bones)%nat)%nat.
Proof.
  intros vert_bones num_joint_sets.
  assert (num_joint_sets =
          ((foldl (λ m (bones : list (nat * Qc)), m `max` length bones)
              0%nat vert_bones + 3) / 4)%nat) as Hn by reflexivity.
  assert (length vert_bones = length (Mesh.vertices blender_mesh)) as Hlen.
  { unfold vert_bones. simpl. by rewrite length_fmap. }
  assert (Forall (λ bones : list (nat * Qc), bones ≠ []) vert_bones) as Hne.
  { apply Forall_forall. intros bones Hb. unfold vert_bones in Hb. simpl in Hb.
    apply list_elem_of_fmap in Hb as (vertex & -> & _). by case_decide. }
  revert Hn. generalize num_joint_sets. clear num_joint_sets. intros n Hn.
  pose proof (Nat.div_mod_eq
    (foldl (λ m (bones : list (nat * Qc)), m `max` length bones) 0%nat vert_bones + 3) 4)
    as Hdm.
  pose proof (Nat.mod_upper_bound
    (foldl (λ m (bones : list (nat * Qc)), m `max` length bones) 0%nat vert_bones + 3) 4)
    as Hmod.
  rewrite <-Hn in Hdm.
  split_and!; [done| | |].
  - split.
    + intros ->. destruct (Mesh.vertices blender_mesh) as [|v vs] eqn:Hv; [done|].
      exfalso. destruct vert_bones as [|b bs] eqn:Hvb; [done|].
      apply Forall_cons in Hne as [Hb _].
      assert (b ∈ b :: bs) as Hin by left.
      apply (foldl_max_le _ 0%nat) in Hin.
      destruct b; [done|]. simpl length in Hin at 1. lia.
    + intros Hv. rewrite Hv in Hlen. destruct vert_bones; [|done]. by subst n.
  - apply Forall_forall. intros bones Hb.
    apply (foldl_max_le _ 0%nat) in Hb. lia.
  - intros Hpos. destruct (foldl_max_attained vert_bones) as (l & Hl & Heq).
    + intros Hnil. rewrite Hnil in Hn. subst n. simpl in Hpos. lia.
    + exists l. split; [done|]. lia.
Qed.
End bone_order.

(** ** Matrices and the armature *)

Section matrix_facts.

Lemma mulvec_matmul3 a b v :
  Matrix.mulvec (Matrix.matmul3 a b) v = Matrix.mulvec a (Matrix.mulvec b v).
Proof.
  destruct a as [[[[a00 a01] a02] [[a10 a11] a12]] [[a20 a21] a22]].
  destruct b as [[[[b00 b01] b02] [[b10 b11] b12]] [[b20 b21] b22]].
  destruct v as [[x y] z]. simpl. f_equal; [f_equal|]; ring.
Qed.

(** X3: [__apply_mat_to_all] with the product [a @ b] of two 3x3
    matrices is [__apply_mat_to_all] with [b] followed by that with [a]: the
    rows times the transposed matrix are [m @ v], as the docstring says. *)
Theorem apply_mat_composes_3x3 (a b : mat3) (vectors : list vec3) :
  __apply_mat_to_all (M3 (Matrix.matmul3 a b)) vectors =
  __apply_mat_to_all (M3 a) (__apply_mat_to_all (M3 b) vectors).
Proof.
  rewrite !apply_mat_M3, <-list_fmap_compose. apply list_fmap_ext.
  intros _ v _. apply mulvec_matmul3.
Qed.

(** X4: the same for 4x4 matrices, where the translation is added to
    the linear part, when the matrix that is applied first is affine (its
    last row is 0, 0, 0, 1). *)
Theorem apply_mat_composes_4x4 (a b : mat4) (vectors : list vec3) :
  affine b →
  __apply_mat_to_all (M4 (Matrix.matmul4 a b)) vectors =
  __apply_mat_to_all (M4 a) (__apply_mat_to_all (M4 b) vectors).
Proof.
  intros Hb. rewrite !apply_mat_M4, <-list_fmap_compose. apply list_fmap_ext.
  intros _ v _. simpl.
  destruct a as [[[[[[a00 a01] a02] a03] [[[a10 a11] a12] a13]]
                  [[[a20 a21] a22] a23]] [[[a30 a31] a32] a33]].
  destruct b as [[[[[[b00 b01] b02] b03] [[[b10 b11] b12] b13]]
                  [[[b20 b21] b22] b23]] [[[b30 b31] b32] b33]].
  simpl in Hb. injection Hb as -> -> -> ->.
  destruct v as [[x y] z]. simpl. f_equal; [f_equal|]; ring.
Qed.
End matrix_facts.

Lemma apply_mat_composes_4x4_witness :
  __apply_mat_to_all (M4 (Matrix.matmul4 shear shear)) [(1, 1, 1)] =
  __apply_mat_to_all (M4 shear) (__apply_mat_to_all (M4 shear) [(1, 1, 1)]).
Proof.
  apply (apply_mat_composes_4x4 shear shear [(1, 1, 1)]). reflexivity.
Defined.

Section armature_facts.
Context `{Externals}.

(** X5: the armature and the skin that [extract_primitives] settles on
    are both there or both missing.  They are missing when there are no
    vertex groups, when skins are not exported and when there are no
    modifiers.  An armature that is there is the object of the last
    ARMATURE modifier, the skin is what [gather_skin] returns for it, and
    the mesh object is not parented to a bone of it. *)
Theorem find_armature_consistent blender_object blender_vertex_groups modifiers
    export_settings :
  let result :=
    find_armature blender_object blender_vertex_groups modifiers export_settings in
  (is_Some result.1 ↔ is_Some result.2) ∧
  (blender_vertex_groups = [] ∨ export_keys.SKINS export_settings = false ∨
   modifiers = None → result = (None, None)) ∧
  ∀ armature, result.1 = Some armature →
    result.2 = gather_skin armature export_settings ∧
    (∃ modifier rest modifiers',
       modifiers = Some modifiers' ∧
       filter (λ m, Modifier.type m = "ARMATURE") modifiers' = rest ++ [modifier] ∧
       Modifier.object modifier = Some armature) ∧
    ∀ object, blender_object = Some object →
      ¬ (Object.parent_type object = "BONE" ∧
         Object.parent object = Object.name armature).
Proof.
  intros result. unfold result, find_armature.
  destruct (bool_decide (blender_vertex_groups ≠ [])) eqn:Hg; simpl.
  2:{ split_and!; [by split; intros []|done|done]. }
  destruct (export_keys.SKINS export_settings) eqn:Hs; simpl.
  2:{ split_and!; [by split; intros []|done|done]. }
  apply bool_decide_eq_true in Hg.
  destruct modifiers as [modifiers|]; simpl.
  2:{ split_and!; [by split; intros []|done|done]. }
  destruct (last (filter _ modifiers)) as [modifier|] eqn:Hlast; simpl.
  2:{ split_and!; [by split; intros []| |done]. by intros [?|[?|?]]. }
  destruct (Modifier.object modifier) as [armature|] eqn:Hobj; simpl.
  2:{ split_and!; [by split; intros []| |done]. by intros [?|[?|?]]. }
  apply last_Some in Hlast as [rest Hrest].
  destruct blender_object as [object|]; simpl.
  - destruct (bool_decide (Object.parent_type object = "BONE")) eqn:Hpt; simpl;
      [destruct (bool_decide (Object.parent object = Object.name armature)) eqn:Hpn;
       simpl|].
    + split_and!; [by split; intros []| |done]. by intros [?|[?|?]].
    + destruct (gather_skin armature export_settings) as [skin|] eqn:Hskin; simpl.
      * split_and!; [done|by intros [?|[?|?]]|].
        intros ? [= <-]. split_and!; [done|by eexists _, _, _|].
        intros ? [= <-] [_ Hp]. by apply bool_decide_eq_false in Hpn.
      * split_and!; [by split; intros []| |done]. by intros [?|[?|?]].
    + destruct (gather_skin armature export_settings) as [skin|] eqn:Hskin; simpl.
      * split_and!; [done|by intros [?|[?|?]]|].
        intros ? [= <-]. split_and!; [done|by eexists _, _, _|].
        intros ? [= <-] [Hp _]. by apply bool_decide_eq_false in Hpt.
      * split_and!; [by split; intros []| |done]. by intros [?|[?|?]].
  - destruct (gather_skin armature export_settings) as [skin|] eqn:Hskin; simpl.
    + split_and!; [done|by intros [?|[?|?]]|].
      intros ? [= <-]. split_and!; [done|by eexists _, _, _|done].
    + split_and!; [by split; intros []| |done]. by intros [?|[?|?]].
Qed.
End armature_facts.

(** ** Vertex groups that are not used for skinning *)

Section vgroup_facts.

Lemma foldl_union_elem_of (names : gset string) (bones : list string) name :
  name ∈ foldl (λ names bone, {[bone]} ∪ names) names bones ↔
  name ∈ names ∨ name ∈ bones.
Proof.
  revert names. induction bones as [|b bones IH]; intros names; simpl.
  { split; [by left|]. intros [?|Hin]; [done|]. by apply elem_of_nil in Hin. }
  rewrite IH, elem_of_union, elem_of_singleton, elem_of_cons. tauto.
Qed.

Lemma skinning_vgroup_names_elem_of modifiers name :
  name ∈ skinning_vgroup_names modifiers ↔
  ∃ m o, m ∈ default [] modifiers ∧ skinning_armature m o ∧ name ∈ Object.bones o.
Proof.
  unfold skinning_vgroup_names.
  assert (∀ (ms : list Modifier.t) (names : gset string),
    name ∈ foldl (λ names m,
      if bool_decide (Modifier.type m = "ARMATURE") && Modifier.use_vertex_groups m
      then match Modifier.object m with
           | Some o =>
               if bool_decide (Object.type o = "ARMATURE")
               then foldl (λ names bone, {[bone]} ∪ names) names (Object.bones o)
               else names
           | None => names
           end
      else names) names ms ↔
    name ∈ names ∨
    ∃ m o, m ∈ ms ∧ skinning_armature m o ∧ name ∈ Object.bones o) as Hgen.
  { induction ms as [|m ms IH]; intros names; simpl.
    { split; [by left|]. intros [?|(m & o & Hin & _)]; [done|].
      by apply elem_of_nil in Hin. }
    rewrite IH. clear IH. unfold skinning_armature.
    destruct (bool_decide (Modifier.type m = "ARMATURE")) eqn:Ht; simpl.
    2:{ apply bool_decide_eq_false in Ht. split.
        - intros [?|(m' & o & Hin & Hm)]; [by left|right].
          exists m', o. split; [by right|done].
        - intros [?|(m' & o & [->|Hin]%elem_of_cons & Hm)]; [by left| |].
          + by destruct Hm as [[? _] _].
          + right. by exists m', o. }
    apply bool_decide_eq_true in Ht.
    destruct (Modifier.use_vertex_groups m) eqn:Hu; simpl.
    2:{ split.
        - intros [?|(m' & o & Hin & Hm)]; [by left|right].
          exists m', o. split; [by right|done].
        - intros [?|(m' & o & [->|Hin]%elem_of_cons & Hm)]; [by left| |].
          + destruct Hm as [(_ & Hu' & _) _]. congruence.
          + right. by exists m', o. }
    destruct (Modifier.object m) as [o|] eqn:Ho.
    2:{ split.
        - intros [?|(m' & o & Hin & Hm)]; [by left|right].
          exists m', o. split; [by right|done].
        - intros [?|(m' & o & [->|Hin]%elem_of_cons & Hm)]; [by left| |].
          + destruct Hm as [(_ & _ & Ho' & _) _]. congruence.
          + right. by exists m', o. }
    destruct (bool_decide (Object.type o = "ARMATURE")) eqn:Hot.
    2:{ apply bool_decide_eq_false in Hot. split.
        - intros [?|(m' & o' & Hin & Hm)]; [by left|right].
          exists m', o'. split; [by right|done].
        - intros [?|(m' & o' & [->|Hin]%elem_of_cons & Hm)]; [by left| |].
          + destruct Hm as [(_ & _ & Ho' & Hot') _]. congruence.
          + right. by exists m', o'. }
    apply bool_decide_eq_true in Hot.
    rewrite foldl_union_elem_of. split.
    - intros [[?|Hb]|(m' & o' & Hin & Hm)]; [by left| |].
      + right. exists m, o. split; [left|done].
      + right. exists m', o'. split; [by right|done].
    - intros [?|(m' & o' & [->|Hin]%elem_of_cons & Hm)]; [by left; left| |].
      + destruct Hm as [(_ & _ & Ho' & _) Hb]. left. right. congruence.
      + right. by exists m', o'. }
  rewrite Hgen. rewrite elem_of_empty. tauto.
Qed.

Lemma head_filter_first_weight i elements :
  first_weight i elements
    (default 0 (VertexGroupElement.weight <$>
       head (filter (λ vge, VertexGroupElement.group vge = i) elements))).
Proof.
  induction elements as [|e elements IH]; simpl.
  { right. by split. }
  rewrite filter_cons. case_decide as He; simpl.
  - left. exists [], e, elements. by split_and!.
  - destruct IH as [(pre & vge & post & -> & Hpre & Hg & Hw)|[Hall Hw]].
    + left. exists (e :: pre), vge, post. split_and!; [done| |done|done].
      by constructor.
    + right. split; [by constructor|done].
Qed.

Lemma omap_imap_names {A} (skinning : gset string) (f : nat → A)
    (groups : list string) (k : nat) :
  (omap (λ '(i, vgroup),
      if decide (vgroup ∈ skinning) then None else Some (vgroup, f i))
    (imap (λ j, pair (k + j)%nat) groups)).*1 = filter (λ g, g ∉ skinning) groups.
Proof.
  revert k. induction groups as [|g groups IH]; intros k; [done|].
  rewrite imap_cons, filter_cons. cbn [omap list_omap].
  assert (imap ((λ j, pair (k + j)%nat) ∘ S) groups =
          imap (λ j, pair (S k + j)%nat) groups) as ->.
  { apply imap_ext. intros j x _. simpl. f_equal. lia. }
  destruct (decide (g ∈ skinning)) as [Hin|Hin].
  - rewrite decide_False by (intros Hn; by apply Hn). apply (IH (S k)).
  - rewrite decide_True by done. cbn [fmap list_fmap fst]. f_equal. apply (IH (S k)).
Qed.

(** X6: [__get_extra_vgroups].  The skinning names are the bone names
    of the armature objects of the ARMATURE modifiers that use vertex
    groups.  The result is empty when there are as many skinning names as
    vertex groups, whether or not the names agree; else it holds the
    vertex groups that are no skinning name, in their order.  Each comes
    with one weight per vertex: the weight of the first element of the
    vertex for this group, and zero when the vertex has none. *)
Theorem extra_vgroups_spec blender_mesh modifiers blender_vertex_groups :
  let skinning := skinning_vgroup_names modifiers in
  let extra := __get_extra_vgroups blender_mesh modifiers blender_vertex_groups in
  (∀ name, name ∈ skinning ↔
     ∃ m o, m ∈ default [] modifiers ∧ skinning_armature m o ∧
            name ∈ Object.bones o) ∧
  extra.*1 =
    (if decide (size skinning = length blender_vertex_groups) then []
     else filter (λ g, g ∉ skinning) blender_vertex_groups) ∧
  ∀ name weights, (name, weights) ∈ extra →
    ∃ i, blender_vertex_groups !! i = Some name ∧
      length weights = length (Mesh.vertices blender_mesh) ∧
      ∀ v vertex, Mesh.vertices blender_mesh !! v = Some vertex →
        ∃ w, weights !! v = Some w ∧ first_weight i (MeshVertex.groups vertex) w.
Proof.
  intros skinning extra. split; [apply skinning_vgroup_names_elem_of|].
  unfold extra, __get_extra_vgroups. fold (skinning_vgroup_names modifiers).
  fold skinning. split.
  - destruct (decide (blender_vertex_groups = [])) as [->|Hne].
    { by case_decide. }
    case_decide; [done|].
    apply (omap_imap_names skinning _ blender_vertex_groups 0).
  - intros name weights Hin.
    destruct (decide (blender_vertex_groups = [])) as [->|Hne].
    { by apply elem_of_nil in Hin. }
    case_decide; [by apply elem_of_nil in Hin|].
    apply list_elem_of_omap in Hin as ([i g] & Hin & Hf).
    apply elem_of_lookup_imap in Hin as (i' & g' & [= -> ->] & Hg).
    case_decide; [done|]. injection Hf as -> <-.
    exists i'. split; [done|]. split; [by rewrite length_fmap|].
    intros v vertex Hv. eexists. split.
    + rewrite list_lookup_fmap, Hv. reflexivity.
    + apply head_filter_first_weight.
Qed.
End vgroup_facts.

(** ** Face maps *)

Section facemap_facts.

Lemma foldl_assign_None l : foldl assign None l = None.
Proof. by induction l. Qed.

Lemma nested_assignments (polygons : list (nat * MeshPolygon.t)) acc :
  foldl (λ acc '(polyi, poly),
      foldl (λ acc i,
          loop_polyidx ← acc;
          if decide (i < length loop_polyidx)%nat
          then Some (<[i := polyi]> loop_polyidx) else None)
        acc
        (seq (MeshPolygon.loop_start poly) (MeshPolygon.loop_total poly)))
    acc polygons =
  foldl assign acc (polygon_assignments polygons).
Proof.
  revert acc. induction polygons as [|[polyi poly] polygons IH]; intros acc; [done|].
  unfold polygon_assignments. cbn [mbind list_bind foldl].
  rewrite foldl_app, foldl_fmap. apply IH.
Qed.

Lemma foldl_assign_spec (assignments : list (nat * nat)) (l : list nat) :
  NoDup assignments.*1 →
  Forall (λ a, a.1 < length l)%nat assignments →
  ∃ l', foldl assign (Some l) assignments = Some l' ∧ length l' = length l ∧
    (∀ i p, (i, p) ∈ assignments → l' !! i = Some p) ∧
    (∀ i, i ∉ assignments.*1 → l' !! i = l !! i).
Proof.
  revert l. induction assignments as [|[i p] assignments IH]; intros l Hnd Hlt.
  { exists l. split_and!; [done|done| |done].
    intros i p Hin. by apply elem_of_nil in Hin. }
  rewrite fmap_cons in Hnd. apply NoDup_cons in Hnd as [Hi Hnd].
  apply Forall_cons in Hlt as [Hil Hlt]. simpl in Hil.
  cbn [foldl]. unfold assign at 2. cbn [mbind option_bind fst snd].
  rewrite decide_True by done.
  destruct (IH (<[i := p]> l) Hnd) as (l' & Hf & Hlen & Hin & Hout).
  { by rewrite length_insert. }
  exists l'. rewrite length_insert in Hlen. split_and!; [done|done| |].
  - intros i' p' [[= -> ->]|Hin']%elem_of_cons.
    + rewrite Hout by done. by apply list_lookup_insert_eq.
    + by apply Hin.
  - intros i' Hn. rewrite fmap_cons in Hn. apply not_elem_of_cons in Hn as [Hne Hn].
    rewrite Hout by done. by apply list_lookup_insert_ne.
Qed.

Lemma polygon_assignments_fst (k : nat) (polygons : list MeshPolygon.t) :
  (polygon_assignments (imap (λ j, pair (k + j)%nat) polygons)).*1 =
  poly ← polygons; seq (MeshPolygon.loop_start poly) (MeshPolygon.loop_total poly).
Proof.
  revert k. induction polygons as [|poly polygons IH]; intros k; [done|].
  rewrite imap_cons. unfold polygon_assignments in *.
  cbn [mbind list_bind]. rewrite fmap_app. f_equal.
  - rewrite <-list_fmap_compose. by rewrite list_fmap_id.
  - rewrite <-(IH (S k)). do 2 f_equal. apply imap_ext. intros j x _. simpl.
    f_equal. lia.
Qed.

Lemma elem_of_polygon_assignments i polyi (polygons : list (nat * MeshPolygon.t)) :
  (i, polyi) ∈ polygon_assignments polygons ↔
  ∃ poly, (polyi, poly) ∈ polygons ∧
    (MeshPolygon.loop_start poly ≤ i <
       MeshPolygon.loop_start poly + MeshPolygon.loop_total poly)%nat.
Proof.
  unfold polygon_assignments. rewrite list_elem_of_bind. split.
  - intros ([polyi' poly] & Hin & Hp).
    apply list_elem_of_fmap in Hin as (i' & [= -> ->] & Hi%elem_of_seq).
    by exists poly.
  - intros (poly & Hp & Hi). exists (polyi, poly). split; [|done].
    apply list_elem_of_fmap. exists i. split; [done|]. by apply elem_of_seq.
Qed.

Lemma loop_polyidx_tiled blender_mesh (poly_facemap : list Qc) :
  (poly ← Mesh.polygons blender_mesh;
     seq (MeshPolygon.loop_start poly) (MeshPolygon.loop_total poly))
    = seq 0 (length (Mesh.loops blender_mesh)) →
  length poly_facemap = length (Mesh.polygons blender_mesh) →
  let assignments := polygon_assignments (imap pair (Mesh.polygons blender_mesh)) in
  ∃ loop_polyidx,
    foldl assign (Some (replicate (length (Mesh.loops blender_mesh)) 0%nat))
      assignments = Some loop_polyidx ∧
    length loop_polyidx = length (Mesh.loops blender_mesh) ∧
    (∀ i polyi, (i, polyi) ∈ assignments → loop_polyidx !! i = Some polyi) ∧
    is_Some (np.take poly_facemap loop_polyidx).
Proof.
  intros Htile Hlen assignments.
  pose proof (polygon_assignments_fst 0 (Mesh.polygons blender_mesh)) as Hfst.
  change (imap (λ j, pair (0 + j)%nat) (Mesh.polygons blender_mesh))
    with (imap pair (Mesh.polygons blender_mesh)) in Hfst.
  rewrite Htile in Hfst. fold assignments in Hfst.
  set (n := length (Mesh.loops blender_mesh)) in *.
  destruct (foldl_assign_spec assignments (replicate n 0%nat))
    as (l' & Hf & Hl' & Hin & _).
  { rewrite Hfst. apply NoDup_seq. }
  { apply Forall_forall. intros [i p] Ha. rewrite length_replicate. simpl.
    assert (i ∈ assignments.*1) as Hi.
    { apply list_elem_of_fmap. by exists (i, p). }
    rewrite Hfst in Hi. apply elem_of_seq in Hi. lia. }
  rewrite length_replicate in Hl'.
  exists l'. split_and!; [done|done|done|].
  apply mapM_is_Some. apply Forall_forall. intros polyi Hp.
  apply list_elem_of_lookup in Hp as [i Hi]. simpl.
  assert (i ∈ assignments.*1) as Hi'.
  { rewrite Hfst. apply elem_of_seq. apply lookup_lt_Some in Hi. lia. }
  apply list_elem_of_fmap in Hi' as ([i' polyi'] & -> & Ha). simpl in Hi.
  pose proof Ha as Ha'.
  apply elem_of_polygon_assignments in Ha' as (poly & Hpoly & _).
  apply elem_of_lookup_imap in Hpoly as (j & poly' & [= -> ->] & Hpoly).
  apply Hin in Ha. rewrite Hi in Ha. injection Ha as ->.
  apply lookup_lt_is_Some. rewrite Hlen. by eapply lookup_lt_Some.
Qed.

Lemma get_facemaps_total blender_mesh poly_facemap :
  (poly ← Mesh.polygons blender_mesh;
     seq (MeshPolygon.loop_start poly) (MeshPolygon.loop_total poly))
    = seq 0 (length (Mesh.loops blender_mesh)) →
  Mesh.face_maps blender_mesh !! 0%nat = Some poly_facemap →
  length poly_facemap = length (Mesh.polygons blender_mesh) →
  ∃ facemaps, __get_facemaps blender_mesh = Some facemaps ∧
    length facemaps = length (Mesh.loops blender_mesh).
Proof.
  intros Htile Hfm Hlen.
  destruct (loop_polyidx_tiled blender_mesh poly_facemap Htile Hlen)
    as (loop_polyidx & Hf & Hl & _ & [facemaps Ht]).
  unfold __get_facemaps. rewrite Hfm. cbn [mbind option_bind].
  rewrite nested_assignments, Hf. cbn [mbind option_bind].
  exists facemaps. split; [done|]. apply take_length in Ht. lia.
Qed.

(** X7: when the loop ranges of the polygons tile the loop array and
    the first face map has a value per polygon, [__get_facemaps] raises no
    IndexError and returns one value per loop: the value of the polygon
    that the loop belongs to. *)
Theorem facemaps_per_polygon blender_mesh poly_facemap :
  (poly ← Mesh.polygons blender_mesh;
     seq (MeshPolygon.loop_start poly) (MeshPolygon.loop_total poly))
    = seq 0 (length (Mesh.loops blender_mesh)) →
  Mesh.face_maps blender_mesh !! 0%nat = Some poly_facemap →
  length poly_facemap = length (Mesh.polygons blender_mesh) →
  ∃ facemaps, __get_facemaps blender_mesh = Some facemaps ∧
    length facemaps = length (Mesh.loops blender_mesh) ∧
    ∀ polyi poly i value,
      Mesh.polygons blender_mesh !! polyi = Some poly →
      (MeshPolygon.loop_start poly ≤ i <
         MeshPolygon.loop_start poly + MeshPolygon.loop_total poly)%nat →
      poly_facemap !! polyi = Some value →
      facemaps !! i = Some value.
Proof.
  intros Htile Hfm Hlen.
  destruct (loop_polyidx_tiled blender_mesh poly_facemap Htile Hlen)
    as (loop_polyidx & Hf & Hl & Hin & [facemaps Ht]).
  unfold __get_facemaps. rewrite Hfm. cbn [mbind option_bind].
  rewrite nested_assignments, Hf. cbn [mbind option_bind].
  exists facemaps. split; [done|]. split.
  { apply take_length in Ht. lia. }
  intros polyi poly i value Hpoly Hi Hv.
  assert ((i, polyi) ∈ polygon_assignments (imap pair (Mesh.polygons blender_mesh)))
    as Ha.
  { apply elem_of_polygon_assignments. exists poly. split; [|done].
    apply elem_of_lookup_imap. by exists polyi, poly. }
  apply Hin in Ha.
  destruct (take_lookup _ _ _ _ _ Ht Ha) as [-> _]. done.
Qed.
End facemap_facts.

Section facemap_errors.

Lemma foldl_assign_Some (assignments : list (nat * nat)) (l l' : list nat) :
  foldl assign (Some l) assignments = Some l' →
  length l' = length l ∧ Forall (λ a, a.1 < length l)%nat assignments.
Proof.
  revert l. induction assignments as [|[i p] assignments IH]; intros l; simpl.
  { intros [= ->]. by split. }
  case_decide as Hi; [|by rewrite foldl_assign_None].
  intros [Hlen Hall]%IH. rewrite length_insert in Hlen, Hall.
  split; [done|]. by constructor.
Qed.

(** X8: [__get_facemaps] returns only when the mesh has a face map and
    every loop of every polygon lies in the loop array, and its result has
    one value per loop.  So a mesh without face map and a polygon that
    leaves the loop array raise. *)
Theorem facemaps_in_range blender_mesh facemaps :
  __get_facemaps blender_mesh = Some facemaps →
  Mesh.face_maps blender_mesh ≠ [] ∧
  length facemaps = length (Mesh.loops blender_mesh) ∧
  ∀ poly i, poly ∈ Mesh.polygons blender_mesh →
    (MeshPolygon.loop_start poly ≤ i <
       MeshPolygon.loop_start poly + MeshPolygon.loop_total poly)%nat →
    (i < length (Mesh.loops blender_mesh))%nat.
Proof.
  unfold __get_facemaps. intros Hf.
  apply bind_Some in Hf as (poly_facemap & Hfm & Hf).
  apply bind_Some in Hf as (loop_polyidx & Hl & Ht).
  rewrite nested_assignments in Hl.
  apply foldl_assign_Some in Hl as [Hlen Hall]. rewrite length_replicate in Hlen, Hall.
  split_and!.
  - intros Hnil. by rewrite Hnil in Hfm.
  - apply take_length in Ht. lia.
  - intros poly i Hp Hi.
    apply list_elem_of_lookup in Hp as [polyi Hp].
    assert ((i, polyi) ∈ polygon_assignments (imap pair (Mesh.polygons blender_mesh)))
      as Ha.
    { apply elem_of_polygon_assignments. exists poly. split; [|done].
      apply elem_of_lookup_imap. by exists polyi, poly. }
    rewrite Forall_forall in Hall. by apply Hall in Ha.
Qed.
End facemap_errors.

(** ** The axis conversion and the morph tangents *)

Section rotation_facts.
Context `{Externals}.

Lemma zup2yup_row v : negate_z (swap_yz v) = (v.1.1, v.2, - v.1.2).
Proof. by destruct v as [[x y] z]. Qed.

(** X9: [__zup2yup] is a quarter turn: it keeps the dot product of
    every pair of rows, and four applications give the array back. *)
Theorem zup2yup_rotation (a b : list vec3) :
  zip_with Vector.dot (__zup2yup a) (__zup2yup b) = zip_with Vector.dot a b ∧
  __zup2yup (__zup2yup (__zup2yup (__zup2yup a))) = a.
Proof.
  unfold __zup2yup. split.
  - revert b. induction a as [|[[x y] z] a IH]; intros [|[[x' y'] z'] b]; try done.
    simpl. f_equal; [ring|apply IH].
  - rewrite <-!list_fmap_compose. rewrite <-(list_fmap_id a) at 2.
    apply list_fmap_ext. intros _ [[x y] z] _. simpl.
    f_equal; [f_equal|]; ring.
Qed.

(** X10: when rotating by the rotation difference of a vector with
    itself changes nothing, [__calc_morph_tangents] gives the zero tangent
    delta wherever the normal delta is zero. *)
Theorem morph_tangents_zero_delta normals morph_normal_deltas tangents i n t :
  (∀ v n, rotate v (rotation_difference n n) = v) →
  normals !! i = Some n → morph_normal_deltas !! i = Some (0, 0, 0) →
  tangents !! i = Some t →
  __calc_morph_tangents normals morph_normal_deltas tangents !! i = Some (0, 0, 0).
Proof.
  intros Hrot Hn Hd Ht. unfold __calc_morph_tangents.
  pose (zero := (0, 0, 0) : vec3). fold zero in Hd.
  apply lookup_zip_with_Some. exists (n, zero), t.
  split; [|split; [|done]].
  2:{ apply lookup_zip_with_Some. exists n, zero. by split_and!. }
  unfold zero.
  destruct t as [[[tx ty] tz] tw]. destruct n as [[nx ny] nz]. simpl.
  assert (Vector.add (nx, ny, nz) (0, 0, 0) = (nx, ny, nz)) as Hadd.
  { simpl. f_equal; [f_equal|]; ring. }
  simpl in Hadd. rewrite Hadd, Hrot. simpl.
  assert (tx - tx = 0 ∧ ty - ty = 0 ∧ tz - tz = 0) as (-> & -> & ->); [|done].
  split_and!; ring.
Qed.
End rotation_facts.

Lemma morph_tangents_zero_delta_witness :
  __calc_morph_tangents (H := sample_externals) [(0, 0, 1)] [(0, 0, 0)] [(1, 0, 0, 1)]
    !! 0%nat = Some (0, 0, 0).
Proof.
  apply (morph_tangents_zero_delta (H := sample_externals) [(0, 0, 1)] [(0, 0, 0)]
           [(1, 0, 0, 1)] 0 (0, 0, 1) (1, 0, 0, 1)); reflexivity.
Defined.

(** ** The attributes of a primitive, corner by corner *)

Section exported_attributes.
Context `{Externals}.

Ltac name_ne := let E := fresh in intros E; simpl in E; discriminate E.

Lemma foldl_option_invariant {A B} (P : A → Prop) (f : A → B → option A)
    (l : list B) (a a' : A) :
  (∀ a x a', x ∈ l → P a → f a x = Some a' → P a') → P a →
  foldl (λ acc x, a ← acc; f a x) (Some a) l = Some a' → P a'.
Proof.
  revert a. induction l as [|x l IH]; intros a Hf Ha; simpl.
  { by intros [= <-]. }
  destruct (f a x) as [a1|] eqn:Hfx.
  - apply IH.
    + intros a2 y a3 Hy. apply Hf. by right.
    + eapply Hf; [left|exact Ha|exact Hfx].
  - intros Hn. exfalso. clear -Hn. induction l as [|y l IH]; [done|]. by apply IH.
Qed.

Lemma morph_position_attributes_lookup k morph_locs idxs attributes attributes' :
  (∀ s, k ≠ "MORPH_POSITION_" +:+ s) →
  morph_position_attributes morph_locs idxs attributes = Some attributes' →
  attributes' !! k = attributes !! k.
Proof.
  intros Hk. unfold morph_position_attributes.
  generalize (imap pair morph_locs). intros l. revert attributes.
  induction l as [|[i vs] l IH]; simpl; intros attributes Hf.
  { by injection Hf as <-. }
  destruct (np.take vs idxs) as [rows|] eqn:Ht; simpl in Hf.
  - rewrite (IH _ Hf). rewrite lookup_insert_ne; [done|].
    intros E. by apply (Hk (pretty i)).
  - exfalso. clear -Hf. induction l as [|[j ws] l IH]; [done|]. by apply IH.
Qed.

Lemma skin_attributes_lookup k skin idxs attributes attributes' :
  (∀ s, k ≠ "JOINTS_" +:+ s) → (∀ s, k ≠ "WEIGHTS_" +:+ s) →
  skin_attributes skin idxs attributes = Some attributes' →
  attributes' !! k = attributes !! k.
Proof.
  intros Hj Hw. unfold skin_attributes.
  destruct skin as [[vert_bones num_joint_sets]|]; [|by intros [= <-]].
  destruct (pack_skin _ _ _) as [[joints weights]|]; [|done].
  simpl. intros [= <-]. apply foldl_invariant; [|done].
  intros a [i [js ws]] _ Ha.
  rewrite !lookup_insert_ne; [done|..]; intros E; [by apply (Hj (pretty i))|].
  by apply (Hw (pretty i)).
Qed.

Lemma vgroup_attributes_lookup k extra idxs attributes attributes' :
  (∀ s, k ≠ "_VG_" +:+ s) →
  vgroup_attributes extra idxs attributes = Some attributes' →
  attributes' !! k = attributes !! k.
Proof.
  intros Hk. unfold vgroup_attributes. revert attributes.
  induction extra as [|[name weights] l IH]; simpl; intros attributes Hf.
  { by injection Hf as <-. }
  destruct (np.take weights idxs) as [ws|] eqn:Ht; simpl in Hf.
  - rewrite (IH _ Hf). rewrite lookup_insert_ne; [done|].
    intros E. by apply (Hk name).
  - exfalso. clear -Hf. induction l as [|[j ws] l IH]; [done|]. by apply IH.
Qed.

Lemma dot_attributes_position dtype prim_dots un ut umn umt tcm cm kbs attributes :
  dot_attributes dtype prim_dots un ut umn umt tcm cm kbs attributes !! "POSITION" =
  attributes !! "POSITION".
Proof.
  unfold dot_attributes. cbv zeta.
  apply (foldl_invariant (λ a, a !! "POSITION" = attributes !! "POSITION")).
  { intros a i _ Ha. by rewrite lookup_insert_ne by name_ne. }
  apply (foldl_invariant (λ a, a !! "POSITION" = attributes !! "POSITION")).
  { intros a i _ Ha. by rewrite lookup_insert_ne by name_ne. }
  assert (∀ a : gmap string array, a !! "POSITION" = attributes !! "POSITION" →
    (if umn then
       foldl (λ attributes morph_i,
          let ns := rows3 (get_field dtype ("morph" +:+ pretty morph_i +:+ "nx") prim_dots)
                          (get_field dtype ("morph" +:+ pretty morph_i +:+ "ny") prim_dots)
                          (get_field dtype ("morph" +:+ pretty morph_i +:+ "nz") prim_dots) in
          let attributes :=
            <["MORPH_NORMAL_" +:+ pretty morph_i := Vec3s ns]> attributes in
          if umt
          then <["MORPH_TANGENT_" +:+ pretty morph_i :=
                   Vec3s (__calc_morph_tangents
                            (rows3 (get_field dtype "nx" prim_dots)
                                   (get_field dtype "ny" prim_dots)
                                   (get_field dtype "nz" prim_dots)) ns
                            (rows4 (get_field dtype "tx" prim_dots)
                                   (get_field dtype "ty" prim_dots)
                                   (get_field dtype "tz" prim_dots)
                                   (get_field dtype "tw" prim_dots)))]> attributes
          else attributes) a (seq 0 (length kbs))
     else a) !! "POSITION" = attributes !! "POSITION") as Hmorph.
  { intros a Ha. destruct umn; [|done].
    apply (foldl_invariant (λ a, a !! "POSITION" = attributes !! "POSITION")); [|done].
    intros a' i _ Ha'. cbv zeta.
    destruct umt; rewrite ?lookup_insert_ne by name_ne; done. }
  apply Hmorph.
  destruct ut, un; rewrite ?lookup_insert_ne by name_ne; done.
Qed.

Lemma make_primitive_position dtype dots un ut umn umt uf tcm cm kbs locs mlocs skin
    extra material_idx dot_indices p :
  make_primitive dtype dots un ut umn umt uf tcm cm kbs locs mlocs skin extra
    material_idx dot_indices = Some (Some p) →
  ∃ prim_dots position,
    np.take dots dot_indices = Some prim_dots ∧
    np.take locs (Dot.vertex_index <$> np.unique Dot.le prim_dots) = Some position ∧
    Primitive.attributes p !! "POSITION" = Some (Vec3s position) ∧
    Primitive.indices p = (np.unique_inverse Dot.le prim_dots).2 ∧
    Primitive.material p = material_idx.
Proof.
  unfold make_primitive. intros Hm.
  apply bind_Some in Hm as (prim_dots & Ht & Hm). exists prim_dots.
  unfold np.unique_inverse in *. cbv zeta in Hm.
  case_decide as Hlen; [done|].
  apply bind_Some in Hm as (position & Hpos & Hm).
  apply bind_Some in Hm as (a1 & Ha1 & Hm).
  apply bind_Some in Hm as (a2 & Ha2 & Hm).
  apply bind_Some in Hm as (a3 & Ha3 & Hm).
  injection Hm as <-. exists position. simpl. split_and!; [done..| |done|done].
  assert (a3 !! "POSITION" = Some (Vec3s position)) as Ha.
  { rewrite (vgroup_attributes_lookup "POSITION" _ _ _ _
               ltac:(intros s; name_ne) Ha3).
    rewrite (skin_attributes_lookup "POSITION" _ _ _ _
               ltac:(intros s; name_ne) ltac:(intros s; name_ne) Ha2).
    rewrite dot_attributes_position.
    rewrite (morph_position_attributes_lookup "POSITION" _ _ _ _
               ltac:(intros s; name_ne) Ha1).
    apply lookup_insert_eq. }
  destruct uf; [|done]. by rewrite lookup_insert_ne by name_ne.
Qed.

Lemma set_field_dots_of_loops blender_mesh dtype name column dots :
  dots_of_loops blender_mesh dots →
  dots_of_loops blender_mesh (set_field dtype name column dots).
Proof.
  intros Hd. unfold set_field. destruct (field_offset dtype name) as [k|]; [|done].
  intros li d (d' & v & -> & Hd' & _)%lookup_zip_with_Some. simpl. by apply Hd.
Qed.

Lemma set_rows3_dots_of_loops blender_mesh dtype n0 n1 n2 rows dots :
  dots_of_loops blender_mesh dots →
  dots_of_loops blender_mesh (set_rows3 dtype n0 n1 n2 rows dots).
Proof. intros Hd. unfold set_rows3. by do 3 apply set_field_dots_of_loops. Qed.

Lemma collect_dots_of_loops blender_mesh dtype un ut umn uf tcm cm kbs armature
    blender_object export_settings dots :
  collect_dots blender_mesh dtype un ut umn uf tcm cm kbs armature blender_object
    export_settings = Some dots →
  dots_of_loops blender_mesh dots.
Proof.
  unfold collect_dots. cbv zeta. intros Hc.
  apply bind_Some in Hc as (dn & Hdn & Hc).
  apply bind_Some in Hc as (dt & Hdt & Hc).
  apply bind_Some in Hc as (d1 & Hd1 & Hc).
  apply bind_Some in Hc as (d2 & Hd2 & Hc).
  assert (dots_of_loops blender_mesh d2) as Hok; [|clear Hdn Hdt Hd1 Hd2].
  { eapply (foldl_option_invariant (dots_of_loops blender_mesh)); [| |exact Hd2].
    { intros a i a' _ Ha Hs. apply bind_Some in Hs as (colors & _ & [= <-]).
      by do 4 apply set_field_dots_of_loops. }
    eapply (foldl_option_invariant (dots_of_loops blender_mesh)); [| |exact Hd1].
    { intros a i a' _ Ha Hs. apply bind_Some in Hs as (uvs & _ & [= <-]).
      by do 2 apply set_field_dots_of_loops. }
    assert (dots_of_loops blender_mesh
              (set_vertex_index (MeshLoop.vertex_index <$> Mesh.loops blender_mesh)
                 (empty_dots (length (Mesh.loops blender_mesh)) dtype))) as Hinit.
    { intros li d (d' & v & -> & _ & Hv)%lookup_zip_with_Some. simpl.
      rewrite list_lookup_fmap in Hv.
      destruct (Mesh.loops blender_mesh !! li) as [loop|]; [|done].
      injection Hv as <-. by exists loop. }
    assert (dots_of_loops blender_mesh dn) as Hn.
    { destruct un; [|by injection Hdn as <-].
      apply bind_Some in Hdn as ([normals morph_normals] & _ & [= <-]).
      apply foldl_invariant; [|by apply set_rows3_dots_of_loops].
      intros a [i ns] _ Ha. by apply set_rows3_dots_of_loops. }
    destruct ut; [|by injection Hdt as <-].
    apply bind_Some in Hdt as (tangents & _ & Hdt).
    apply bind_Some in Hdt as (signs & _ & [= <-]).
    by apply set_field_dots_of_loops, set_rows3_dots_of_loops. }
  destruct uf.
  - apply bind_Some in Hc as (facemaps & _ & [= <-]). by apply set_field_dots_of_loops.
  - by injection Hc as <-.
Qed.

Lemma extract_primitives_unfold blender_mesh blender_object blender_vertex_groups
    modifiers export_settings prims :
  extract_primitives blender_mesh blender_object blender_vertex_groups modifiers
    export_settings = Some prims →
  let armature :=
    (find_armature blender_object blender_vertex_groups modifiers export_settings).1 in
  let kbs := active_key_blocks blender_mesh export_settings in
  ∃ positions dots dtype un ut umn umt uf tcm cm skin extra results,
    __get_positions blender_mesh kbs armature blender_object export_settings
      = Some positions ∧
    collect_dots blender_mesh dtype un ut umn uf tcm cm kbs armature blender_object
      export_settings = Some dots ∧
    mapM (λ '(material_idx, dot_indices),
        make_primitive dtype dots un ut umn umt uf tcm cm kbs positions.1 positions.2
          skin extra material_idx dot_indices)
      (bucket_by_material blender_mesh (export_keys.MATERIALS export_settings)
         (triangle_loops blender_mesh)) = Some results ∧
    prims = omap id results.
Proof.
  intros He armature kbs. unfold extract_primitives in He.
  unfold kbs, armature.
  destruct (find_armature _ _ _ _) as [arm skin]. simpl.
  apply bind_Some in He as ([locs mlocs] & Hlocs & He).
  apply bind_Some in He as (dots & Hd & He).
  apply bind_Some in He as (results & Hr & He).
  injection He as <-.
  eexists (locs, mlocs), dots, _, _, _, _, _, _, _, _, _, _, results.
  split; [exact Hlocs|]. split; [exact Hd|]. split; [exact Hr|done].
Qed.

(** X11: in every primitive, POSITION at the index of a corner is the
    position of the vertex of the loop of that corner, after the skinning
    transform and the axis conversion. *)
Theorem exported_positions blender_mesh blender_object blender_vertex_groups
    modifiers export_settings prims p :
  extract_primitives blender_mesh blender_object blender_vertex_groups modifiers
    export_settings = Some prims →
  p ∈ prims →
  let armature :=
    (find_armature blender_object blender_vertex_groups modifiers export_settings).1 in
  ∃ bucket position,
    bucket_of blender_mesh export_settings (Primitive.material p) bucket ∧
    Primitive.attributes p !! "POSITION" = Some (Vec3s position) ∧
    ∀ corner li, bucket !! corner = Some li →
      ∃ loop vertex index,
        Mesh.loops blender_mesh !! li = Some loop ∧
        Mesh.vertices blender_mesh !! MeshLoop.vertex_index loop = Some vertex ∧
        Primitive.indices p !! corner = Some index ∧
        position !! index =
          Some (transformed_position armature blender_object export_settings
                  (MeshVertex.co vertex)).
Proof.
  intros He Hp armature.
  apply extract_primitives_unfold in He
    as (positions & dots & dtype & un & ut & umn & umt & uf & tcm & cm & skin & extra &
        results & Hlocs & Hd & Hr & ->).
  fold armature in Hlocs, Hd, Hr.
  apply get_positions_shape in Hlocs. subst positions.
  apply elem_of_omap_id in Hp. apply mapM_Some in Hr.
  apply list_elem_of_lookup in Hp as [i Hi].
  destruct (Forall2_lookup_r _ _ _ _ _ Hr Hi) as ([m bucket] & Hb & Hmk).
  apply list_elem_of_lookup_2 in Hb.
  apply make_primitive_position in Hmk
    as (prim_dots & position & Ht & Hpos & Hattr & Hidx & Hmat).
  exists bucket, position. split_and!; [by rewrite Hmat|done|].
  intros corner li Hc.
  destruct (take_lookup _ _ _ _ _ Ht Hc) as [Hpd [d Hdot]].
  rewrite Hdot in Hpd.
  destruct (collect_dots_of_loops _ _ _ _ _ _ _ _ _ _ _ _ _ Hd li d Hdot)
    as (loop & Hloop & Hvi).
  destruct (unique_inverse_lookup Dot.le prim_dots corner d Hpd) as (k & Hk & Hu).
  assert ((Dot.vertex_index <$> np.unique Dot.le prim_dots) !! k =
          Some (MeshLoop.vertex_index loop)) as Hvk.
  { simpl in Hu. rewrite list_lookup_fmap, Hu. simpl. by rewrite Hvi. }
  destruct (take_lookup _ _ _ _ _ Hpos Hvk) as [Hpk [loc Hloc]].
  simpl in Hloc, Hpk.
  rewrite !list_lookup_fmap in Hloc.
  destruct (Mesh.vertices blender_mesh !! MeshLoop.vertex_index loop)
    as [vertex|] eqn:Hv; [|done].
  exists loop, vertex, k. split_and!; [done|done|by rewrite Hidx|].
  rewrite Hpk, !list_lookup_fmap, Hv. done.
Qed.
End exported_attributes.

Section dot_field_facts.
Context `{Externals}.

Lemma collect_dots_stages blender_mesh dtype un ut umn uf tcm cm kbs armature
    blender_object export_settings :
  collect_dots blender_mesh dtype un ut umn uf tcm cm kbs armature blender_object
    export_settings =
  (let dots :=
     set_vertex_index (MeshLoop.vertex_index <$> Mesh.loops blender_mesh)
       (empty_dots (length (Mesh.loops blender_mesh)) dtype) in
   dots ←
     (if un
      then normal_dots blender_mesh dtype umn kbs armature blender_object
             export_settings dots
      else Some dots);
   dots ←
     (if ut
      then tangent_dots blender_mesh dtype armature blender_object export_settings dots
      else Some dots);
   dots ← foldl (λ acc uv_i, dots ← acc; uv_dots blender_mesh dtype dots uv_i)
            (Some dots) (seq 0 tcm);
   dots ← foldl (λ acc col_i, dots ← acc; color_dots blender_mesh dtype dots col_i)
            (Some dots) (seq 0 cm);
   facemap_dots blender_mesh dtype uf dots).
Proof. reflexivity. Qed.

Lemma field_offset_lookup dtype name k :
  field_offset dtype name = Some k → dtype !! k = Some name.
Proof.
  unfold field_offset. intros Hf.
  apply fmap_Some in Hf as ([k' x] & Hf & ->).
  apply list_find_Some in Hf as (Hk & -> & _). done.
Qed.

Lemma field_offset_elem_of dtype name :
  name ∈ dtype → is_Some (field_offset dtype name).
Proof.
  intros Hin. unfold field_offset.
  destruct (list_find_elem_of (λ f, f = name) dtype name Hin eq_refl) as [[i y] ->].
  by eexists.
Qed.

Lemma set_field_shaped dtype name column dots :
  shaped dtype dots → shaped dtype (set_field dtype name column dots).
Proof.
  unfold shaped, set_field. intros Hs.
  destruct (field_offset dtype name) as [k|]; [|done].
  apply Forall_lookup. intros li d (d' & v & -> & Hd' & _)%lookup_zip_with_Some.
  simpl. rewrite length_insert. by eapply (Forall_lookup_1 _ _ _ _ Hs).
Qed.

Lemma set_rows3_shaped dtype n0 n1 n2 rows dots :
  shaped dtype dots → shaped dtype (set_rows3 dtype n0 n1 n2 rows dots).
Proof. intros Hs. unfold set_rows3. by do 3 apply set_field_shaped. Qed.

Lemma set_field_holds_other dtype f column name c dots :
  name ≠ f → holds dtype f column dots →
  holds dtype f column (set_field dtype name c dots).
Proof.
  intros Hne [Hs Hh]. split; [by apply set_field_shaped|].
  unfold set_field. destruct (field_offset dtype name) as [k'|] eqn:Hk'; [|done].
  intros li d (d' & v & -> & Hd' & _)%lookup_zip_with_Some.
  destruct (Hh li d' Hd') as (x & Hx & Hg). exists x. split; [done|].
  unfold get_field in *. destruct (field_offset dtype f) as [k|] eqn:Hk; [|done].
  simpl in *. rewrite list_lookup_insert_ne; [done|].
  intros ->. apply field_offset_lookup in Hk, Hk'. congruence.
Qed.

Lemma set_field_holds dtype f column dots :
  f ∈ dtype → shaped dtype dots → holds dtype f column (set_field dtype f column dots).
Proof.
  intros Hin Hs. split; [by apply set_field_shaped|].
  unfold set_field, get_field.
  destruct (field_offset_elem_of dtype f Hin) as [k Hk]. rewrite Hk.
  intros li d (d' & v & -> & Hd' & Hv)%lookup_zip_with_Some.
  exists v. split; [done|]. simpl. rewrite list_lookup_insert_eq; [done|].
  rewrite (Forall_lookup_1 _ _ _ _ Hs Hd').
  apply field_offset_lookup in Hk. by eapply lookup_lt_Some.
Qed.

Lemma holds_shaped dtype f column dots : holds dtype f column dots → shaped dtype dots.
Proof. by intros [? _]. Qed.

Lemma initial_shaped dtype vidxs n :
  shaped dtype (set_vertex_index vidxs (empty_dots n dtype)).
Proof.
  apply Forall_lookup. intros li d (d' & v & -> & Hd' & _)%lookup_zip_with_Some.
  simpl. unfold empty_dots in Hd'. apply lookup_replicate in Hd' as [-> _].
  simpl. by rewrite length_replicate.
Qed.

(** The value a primitive reads for a corner from a field that holds a
    column is the entry of the column for the loop of the corner. *)
Lemma get_field_holds dtype f column dots bucket prim_dots corner li :
  holds dtype f column dots →
  np.take dots bucket = Some prim_dots →
  bucket !! corner = Some li →
  ∃ k x, (np.unique_inverse Dot.le prim_dots).2 !! corner = Some k ∧
    column !! li = Some x ∧
    get_field dtype f (np.unique Dot.le prim_dots) !! k = Some x.
Proof.
  intros [_ Hh] Ht Hc.
  destruct (take_lookup _ _ _ _ _ Ht Hc) as [Hpd [d Hdot]]. rewrite Hdot in Hpd.
  destruct (unique_inverse_lookup Dot.le prim_dots corner d Hpd) as (k & Hk & Hu).
  destruct (Hh li d Hdot) as (x & Hx & Hg).
  exists k, x. split_and!; [done|done|]. simpl in Hu.
  unfold get_field in *. destruct (field_offset dtype f) as [o|]; [|done].
  rewrite list_lookup_fmap, Hu. simpl in *. congruence.
Qed.
End dot_field_facts.

Section unfolded_facts.
Context `{Externals}.

Lemma extract_primitives_eq blender_mesh blender_object blender_vertex_groups
    modifiers export_settings :
  extract_primitives blender_mesh blender_object blender_vertex_groups modifiers
    export_settings =
  (positions ← the_positions blender_mesh blender_object blender_vertex_groups
                 modifiers export_settings;
   dots ← the_dots blender_mesh blender_object blender_vertex_groups modifiers
            export_settings;
   primitives ← mapM (λ '(material_idx, dot_indices),
       the_primitive blender_mesh blender_object blender_vertex_groups modifiers
         export_settings positions dots material_idx dot_indices)
     (bucket_by_material blender_mesh (export_keys.MATERIALS export_settings)
        (triangle_loops blender_mesh));
   Some (omap id primitives)).
Proof.
  unfold extract_primitives, the_positions, the_dots, the_primitive, the_armature.
  destruct (find_armature _ _ _ _) as [armature skin]. simpl.
  destruct (__get_positions _ _ _ _ _) as [[locs mlocs]|]; reflexivity.
Qed.

(** A primitive of the result comes from a bucket of corners. *)
Lemma extract_primitives_elem_of blender_mesh blender_object blender_vertex_groups
    modifiers export_settings prims p :
  extract_primitives blender_mesh blender_object blender_vertex_groups modifiers
    export_settings = Some prims →
  p ∈ prims →
  ∃ positions dots bucket,
    the_positions blender_mesh blender_object blender_vertex_groups modifiers
      export_settings = Some positions ∧
    the_dots blender_mesh blender_object blender_vertex_groups modifiers
      export_settings = Some dots ∧
    bucket_of blender_mesh export_settings (Primitive.material p) bucket ∧
    the_primitive blender_mesh blender_object blender_vertex_groups modifiers
      export_settings positions dots (Primitive.material p) bucket = Some (Some p).
Proof.
  rewrite extract_primitives_eq. intros He Hp.
  apply bind_Some in He as (positions & Hpos & He).
  apply bind_Some in He as (dots & Hd & He).
  apply bind_Some in He as (results & Hr & [= <-]).
  apply elem_of_omap_id in Hp. apply mapM_Some in Hr.
  apply list_elem_of_lookup in Hp as [i Hi].
  destruct (Forall2_lookup_r _ _ _ _ _ Hr Hi) as ([m bucket] & Hb & Hmk).
  apply list_elem_of_lookup_2 in Hb.
  pose proof Hmk as Hmk'. unfold the_primitive in Hmk'.
  apply make_primitive_inv in Hmk' as (_ & _ & _ & _ & Hmat).
  exists positions, dots, bucket. rewrite Hmat. by split_and!.
Qed.
End unfolded_facts.

Section names.

Lemma string_app_singleton_inj (s s' : string) (c c' : Ascii.ascii) :
  s +:+ String c EmptyString = s' +:+ String c' EmptyString → s = s' ∧ c = c'.
Proof.
  revert s'. induction s as [|a s IH]; intros [|a' s']; simpl.
  - by intros [= ->].
  - intros [= -> Hs]. by destruct s'.
  - intros [= -> Hs]. by destruct s.
  - intros [= -> Hs]. destruct (IH _ Hs) as [-> ->]. done.
Qed.

Lemma suffixed_name_inj (prefix : string) (i j : nat) (c c' : Ascii.ascii) :
  prefix +:+ pretty i +:+ String c EmptyString =
  prefix +:+ pretty j +:+ String c' EmptyString → i = j ∧ c = c'.
Proof.
  intros E. apply String.app_inj in E.
  apply string_app_singleton_inj in E as [E ->]. split; [|done].
  by apply (inj pretty).
Qed.

Lemma prefixed_name_inj (prefix : string) (i j : nat) :
  prefix +:+ pretty i = prefix +:+ pretty j → i = j.
Proof. intros E. apply String.app_inj in E. by apply (inj pretty). Qed.
End names.

Section stage_facts.
Context `{Externals}.
Implicit Types dots : list Dot.t.

Ltac name_ne := let E := fresh in intros E; simpl in E; discriminate E.

Lemma foldl_bind_None {A B} (f : A → B → option A) (l : list B) :
  foldl (λ acc x, a ← acc; f a x) None l = None.
Proof. by induction l. Qed.

Lemma foldl_option_app {A B} (f : A → B → option A) (l1 l2 : list B) (a a' : A) :
  foldl (λ acc x, a ← acc; f a x) (Some a) (l1 ++ l2) = Some a' →
  ∃ a1, foldl (λ acc x, a ← acc; f a x) (Some a) l1 = Some a1 ∧
        foldl (λ acc x, a ← acc; f a x) (Some a1) l2 = Some a'.
Proof.
  rewrite foldl_app.
  destruct (foldl (λ acc x, a ← acc; f a x) (Some a) l1) as [a1|].
  - intros Hf. by exists a1.
  - by rewrite foldl_bind_None.
Qed.

Lemma set_rows3_holds_other dtype f column n0 n1 n2 rows dots :
  n0 ≠ f → n1 ≠ f → n2 ≠ f → holds dtype f column dots →
  holds dtype f column (set_rows3 dtype n0 n1 n2 rows dots).
Proof.
  intros ??? Hh. unfold set_rows3. by do 3 (apply set_field_holds_other; [done|]).
Qed.

Lemma set_rows3_holds dtype n0 n1 n2 rows dots :
  n0 ∈ dtype → n1 ∈ dtype → n2 ∈ dtype → n0 ≠ n1 → n0 ≠ n2 → n1 ≠ n2 →
  shaped dtype dots →
  let dots' := set_rows3 dtype n0 n1 n2 rows dots in
  holds dtype n0 ((λ v : vec3, v.1.1) <$> rows) dots' ∧
  holds dtype n1 ((λ v : vec3, v.1.2) <$> rows) dots' ∧
  holds dtype n2 ((λ v : vec3, v.2) <$> rows) dots'.
Proof.
  intros H0 H1 H2 H01 H02 H12 Hs. unfold set_rows3. split_and!.
  - do 2 (apply set_field_holds_other; [done|]). by apply set_field_holds.
  - apply set_field_holds_other; [done|]. apply set_field_holds; [done|].
    by apply set_field_shaped.
  - apply set_field_holds; [done|]. by do 2 apply set_field_shaped.
Qed.

(** *** Normals *)

Lemma normal_dots_shaped blender_mesh dtype umn kbs armature blender_object
    export_settings dots dots' :
  normal_dots blender_mesh dtype umn kbs armature blender_object export_settings dots
    = Some dots' →
  shaped dtype dots → shaped dtype dots'.
Proof.
  unfold normal_dots. intros ([ns mns] & _ & [= <-])%bind_Some Hs.
  apply foldl_invariant; [|by apply set_rows3_shaped].
  intros a [i rows] _ Ha. by apply set_rows3_shaped.
Qed.

Lemma normal_dots_holds blender_mesh dtype (umn : bool) kbs armature blender_object
    export_settings dots dots' :
  normal_dots blender_mesh dtype umn kbs armature blender_object export_settings dots
    = Some dots' →
  "nx" ∈ dtype → "ny" ∈ dtype → "nz" ∈ dtype → shaped dtype dots →
  ∃ normals morph_normals,
    __get_normals blender_mesh (if umn then kbs else []) armature blender_object
      export_settings = Some (normals, morph_normals) ∧
    holds dtype "nx" ((λ v : vec3, v.1.1) <$> normals) dots' ∧
    holds dtype "ny" ((λ v : vec3, v.1.2) <$> normals) dots' ∧
    holds dtype "nz" ((λ v : vec3, v.2) <$> normals) dots'.
Proof.
  unfold normal_dots. intros ([ns mns] & Hn & [= <-])%bind_Some Hx Hy Hz Hs.
  exists ns, mns. split; [done|].
  destruct (set_rows3_holds dtype "nx" "ny" "nz" ns dots) as (Hnx & Hny & Hnz);
    [done|done|done|name_ne|name_ne|name_ne|done|].
  split_and!; (apply foldl_invariant; [|done]); intros a [i rows] _ Ha;
    (apply set_rows3_holds_other; [name_ne|name_ne|name_ne|done]).
Qed.

(** *** Tangents *)

Lemma tangent_dots_shaped blender_mesh dtype armature blender_object export_settings
    dots dots' :
  tangent_dots blender_mesh dtype armature blender_object export_settings dots
    = Some dots' →
  shaped dtype dots → shaped dtype dots'.
Proof.
  unfold tangent_dots. intros (tangents & _ & Hd)%bind_Some Hs.
  apply bind_Some in Hd as (signs & _ & [= <-]).
  by apply set_field_shaped, set_rows3_shaped.
Qed.

Lemma tangent_dots_holds_other blender_mesh dtype armature blender_object
    export_settings f column dots dots' :
  "tx" ≠ f → "ty" ≠ f → "tz" ≠ f → "tw" ≠ f →
  tangent_dots blender_mesh dtype armature blender_object export_settings dots
    = Some dots' →
  holds dtype f column dots → holds dtype f column dots'.
Proof.
  unfold tangent_dots. intros ???? (tangents & _ & Hd)%bind_Some Hh.
  apply bind_Some in Hd as (signs & _ & [= <-]).
  apply set_field_holds_other; [done|]. by apply set_rows3_holds_other.
Qed.

Lemma tangent_dots_holds blender_mesh dtype armature blender_object export_settings
    dots dots' :
  tangent_dots blender_mesh dtype armature blender_object export_settings dots
    = Some dots' →
  "tx" ∈ dtype → "ty" ∈ dtype → "tz" ∈ dtype → "tw" ∈ dtype → shaped dtype dots →
  ∃ tangents signs,
    __get_tangents blender_mesh armature blender_object export_settings
      = Some tangents ∧
    __get_bitangent_signs blender_mesh armature blender_object export_settings
      = Some signs ∧
    holds dtype "tx" ((λ v : vec3, v.1.1) <$> tangents) dots' ∧
    holds dtype "ty" ((λ v : vec3, v.1.2) <$> tangents) dots' ∧
    holds dtype "tz" ((λ v : vec3, v.2) <$> tangents) dots' ∧
    holds dtype "tw" signs dots'.
Proof.
  unfold tangent_dots. intros (tangents & Ht & Hd)%bind_Some Hx Hy Hz Hw Hs.
  apply bind_Some in Hd as (signs & Hsg & [= <-]).
  exists tangents, signs. split; [done|]. split; [done|].
  destruct (set_rows3_holds dtype "tx" "ty" "tz" tangents dots) as (Htx & Hty & Htz);
    [done|done|done|name_ne|name_ne|name_ne|done|].
  split_and!; try (apply set_field_holds_other; [name_ne|done]).
  apply set_field_holds; [done|]. by apply set_rows3_shaped.
Qed.

(** *** UV layers *)

Lemma uv_dots_shaped blender_mesh dtype dots uv_i dots' :
  uv_dots blender_mesh dtype dots uv_i = Some dots' →
  shaped dtype dots → shaped dtype dots'.
Proof.
  unfold uv_dots. intros (uvs & _ & [= <-])%bind_Some Hs.
  by do 2 apply set_field_shaped.
Qed.

Lemma uv_dots_holds_other blender_mesh dtype f column dots uv_i dots' :
  "uv" +:+ pretty uv_i +:+ "x" ≠ f → "uv" +:+ pretty uv_i +:+ "y" ≠ f →
  uv_dots blender_mesh dtype dots uv_i = Some dots' →
  holds dtype f column dots → holds dtype f column dots'.
Proof.
  unfold uv_dots. intros ?? (uvs & _ & [= <-])%bind_Some Hh.
  by do 2 (apply set_field_holds_other; [done|]).
Qed.

Lemma uv_fold_shaped blender_mesh dtype (layers : list nat) dots dots' :
  foldl (λ acc uv_i, dots ← acc; uv_dots blender_mesh dtype dots uv_i)
    (Some dots) layers = Some dots' →
  shaped dtype dots → shaped dtype dots'.
Proof.
  intros Hf Hs.
  eapply (foldl_option_invariant (shaped dtype)); [|exact Hs|exact Hf].
  intros a i a' _ Ha Hu. by eapply uv_dots_shaped.
Qed.

Lemma uv_fold_holds_other blender_mesh dtype f column (layers : list nat) dots dots' :
  (∀ uv_i, uv_i ∈ layers →
     "uv" +:+ pretty uv_i +:+ "x" ≠ f ∧ "uv" +:+ pretty uv_i +:+ "y" ≠ f) →
  foldl (λ acc uv_i, dots ← acc; uv_dots blender_mesh dtype dots uv_i)
    (Some dots) layers = Some dots' →
  holds dtype f column dots → holds dtype f column dots'.
Proof.
  intros Hne Hf Hh.
  eapply (foldl_option_invariant (holds dtype f column)); [|exact Hh|exact Hf].
  intros a i a' Hi Ha Hu. destruct (Hne i Hi). by eapply uv_dots_holds_other.
Qed.

Lemma uv_fold_holds blender_mesh dtype tcm uv_i dots dots' :
  (uv_i < tcm)%nat →
  "uv" +:+ pretty uv_i +:+ "x" ∈ dtype → "uv" +:+ pretty uv_i +:+ "y" ∈ dtype →
  foldl (λ acc uv_i, dots ← acc; uv_dots blender_mesh dtype dots uv_i)
    (Some dots) (seq 0 tcm) = Some dots' →
  shaped dtype dots →
  ∃ uvs, __get_uvs blender_mesh uv_i = Some uvs ∧
    holds dtype ("uv" +:+ pretty uv_i +:+ "x") ((λ uv : vec2, uv.1) <$> uvs) dots' ∧
    holds dtype ("uv" +:+ pretty uv_i +:+ "y") ((λ uv : vec2, uv.2) <$> uvs) dots'.
Proof.
  intros Hi Hx Hy Hf Hs.
  replace tcm with (uv_i + (1 + (tcm - S uv_i)))%nat in Hf by lia.
  rewrite !seq_app in Hf.
  apply foldl_option_app in Hf as (d1 & Hf1 & Hf).
  apply foldl_option_app in Hf as (d2 & Hf2 & Hf3).
  apply uv_fold_shaped in Hf1; [|done].
  simpl in Hf2. unfold uv_dots in Hf2 at 1.
  apply bind_Some in Hf2 as (uvs & Hu & [= <-]).
  exists uvs. split; [done|].
  assert (∀ (c c' : Ascii.ascii) j, j ∈ seq (0 + uv_i + 1) (tcm - S uv_i) →
            "uv" +:+ pretty j +:+ String c EmptyString ≠
            "uv" +:+ pretty uv_i +:+ String c' EmptyString) as Hlater.
  { intros c c' j Hj%elem_of_seq [Hij _]%suffixed_name_inj. lia. }
  split.
  - eapply uv_fold_holds_other; [|exact Hf3|].
    { intros j Hj. split; by apply Hlater. }
    apply set_field_holds_other.
    { intros [_ [=]]%suffixed_name_inj. }
    by apply set_field_holds.
  - eapply uv_fold_holds_other; [|exact Hf3|].
    { intros j Hj. split; by apply Hlater. }
    apply set_field_holds; [done|]. by apply set_field_shaped.
Qed.

(** *** Color layers *)

Lemma color_dots_shaped blender_mesh dtype dots col_i dots' :
  color_dots blender_mesh dtype dots col_i = Some dots' →
  shaped dtype dots → shaped dtype dots'.
Proof.
  unfold color_dots. intros (colors & _ & [= <-])%bind_Some Hs.
  by do 4 apply set_field_shaped.
Qed.

Lemma color_dots_holds_other blender_mesh dtype f column dots col_i dots' :
  (∀ c, "color" +:+ pretty col_i +:+ String c EmptyString ≠ f) →
  color_dots blender_mesh dtype dots col_i = Some dots' →
  holds dtype f column dots → holds dtype f column dots'.
Proof.
  unfold color_dots. intros Hne (colors & _ & [= <-])%bind_Some Hh.
  by do 4 (apply set_field_holds_other; [apply Hne|]).
Qed.

Lemma color_fold_shaped blender_mesh dtype (layers : list nat) dots dots' :
  foldl (λ acc col_i, dots ← acc; color_dots blender_mesh dtype dots col_i)
    (Some dots) layers = Some dots' →
  shaped dtype dots → shaped dtype dots'.
Proof.
  intros Hf Hs.
  eapply (foldl_option_invariant (shaped dtype)); [|exact Hs|exact Hf].
  intros a i a' _ Ha Hu. by eapply color_dots_shaped.
Qed.

Lemma color_fold_holds_other blender_mesh dtype f column (layers : list nat)
    dots dots' :
  (∀ col_i c, col_i ∈ layers →
     "color" +:+ pretty col_i +:+ String c EmptyString ≠ f) →
  foldl (λ acc col_i, dots ← acc; color_dots blender_mesh dtype dots col_i)
    (Some dots) layers = Some dots' →
  holds dtype f column dots → holds dtype f column dots'.
Proof.
  intros Hne Hf Hh.
  eapply (foldl_option_invariant (holds dtype f column)); [|exact Hh|exact Hf].
  intros a i a' Hi Ha Hu. eapply color_dots_holds_other; [|exact Hu|done].
  intros c. by apply Hne.
Qed.

Lemma color_fold_holds blender_mesh dtype cm col_i dots dots' :
  (col_i < cm)%nat →
  "color" +:+ pretty col_i +:+ "r" ∈ dtype → "color" +:+ pretty col_i +:+ "g" ∈ dtype →
  "color" +:+ pretty col_i +:+ "b" ∈ dtype → "color" +:+ pretty col_i +:+ "a" ∈ dtype →
  foldl (λ acc col_i, dots ← acc; color_dots blender_mesh dtype dots col_i)
    (Some dots) (seq 0 cm) = Some dots' →
  shaped dtype dots →
  ∃ colors, __get_colors blender_mesh col_i = Some colors ∧
    holds dtype ("color" +:+ pretty col_i +:+ "r")
      ((λ c : vec4, c.1.1.1) <$> colors) dots' ∧
    holds dtype ("color" +:+ pretty col_i +:+ "g")
      ((λ c : vec4, c.1.1.2) <$> colors) dots' ∧
    holds dtype ("color" +:+ pretty col_i +:+ "b")
      ((λ c : vec4, c.1.2) <$> colors) dots' ∧
    holds dtype ("color" +:+ pretty col_i +:+ "a")
      ((λ c : vec4, c.2) <$> colors) dots'.
Proof.
  intros Hi Hr Hg Hb Ha Hf Hs.
  replace cm with (col_i + (1 + (cm - S col_i)))%nat in Hf by lia.
  rewrite !seq_app in Hf.
  apply foldl_option_app in Hf as (d1 & Hf1 & Hf).
  apply foldl_option_app in Hf as (d2 & Hf2 & Hf3).
  apply color_fold_shaped in Hf1; [|done].
  simpl in Hf2. unfold color_dots in Hf2 at 1.
  apply bind_Some in Hf2 as (colors & Hc & [= <-]).
  exists colors. split; [done|].
  assert (∀ (c' : Ascii.ascii) j c, j ∈ seq (0 + col_i + 1) (cm - S col_i) →
            "color" +:+ pretty j +:+ String c EmptyString ≠
            "color" +:+ pretty col_i +:+ String c' EmptyString) as Hlater.
  { intros c' j c Hj%elem_of_seq [Hij _]%suffixed_name_inj. lia. }
  assert (∀ c c' : Ascii.ascii, c ≠ c' →
            "color" +:+ pretty col_i +:+ String c EmptyString ≠
            "color" +:+ pretty col_i +:+ String c' EmptyString) as Hsame.
  { intros c c' Hne [_ ?]%suffixed_name_inj. done. }
  split_and!; (eapply color_fold_holds_other; [apply Hlater|exact Hf3|]).
  - do 3 (apply set_field_holds_other; [by apply Hsame|]). by apply set_field_holds.
  - do 2 (apply set_field_holds_other; [by apply Hsame|]).
    apply set_field_holds; [done|]. by apply set_field_shaped.
  - apply set_field_holds_other; [by apply Hsame|].
    apply set_field_holds; [done|]. by do 2 apply set_field_shaped.
  - apply set_field_holds; [done|]. by do 3 apply set_field_shaped.
Qed.

(** *** Face maps *)

Lemma facemap_dots_holds_other blender_mesh dtype uf f column dots dots' :
  "facemaps" ≠ f →
  facemap_dots blender_mesh dtype uf dots = Some dots' →
  holds dtype f column dots → holds dtype f column dots'.
Proof.
  unfold facemap_dots. intros Hne Hf Hh. destruct uf.
  - apply bind_Some in Hf as (facemaps & _ & [= <-]). by apply set_field_holds_other.
  - by injection Hf as <-.
Qed.
End stage_facts.

Section exported_fields.
Context `{Externals}.
Implicit Types dots : list Dot.t.

Ltac name_ne := let E := fresh in intros E; simpl in E; discriminate E.

(** The stages after the tangents leave a field alone that they do not
    write. *)
Lemma later_stages_hold blender_mesh dtype uf tcm cm f column dots dots' :
  (∀ (uv_i : nat) c, "uv" +:+ pretty uv_i +:+ String c EmptyString ≠ f) →
  (∀ (col_i : nat) c, "color" +:+ pretty col_i +:+ String c EmptyString ≠ f) →
  "facemaps" ≠ f →
  (dots ← foldl (λ acc uv_i, dots ← acc; uv_dots blender_mesh dtype dots uv_i)
            (Some dots) (seq 0 tcm);
   dots ← foldl (λ acc col_i, dots ← acc; color_dots blender_mesh dtype dots col_i)
            (Some dots) (seq 0 cm);
   facemap_dots blender_mesh dtype uf dots) = Some dots' →
  holds dtype f column dots → holds dtype f column dots'.
Proof.
  intros Huv Hcol Hfm Hc Hh.
  apply bind_Some in Hc as (d1 & Hd1 & Hc).
  apply bind_Some in Hc as (d2 & Hd2 & Hc).
  eapply facemap_dots_holds_other; [done|exact Hc|].
  eapply color_fold_holds_other; [|exact Hd2|].
  { intros i c _. apply Hcol. }
  eapply uv_fold_holds_other; [|exact Hd1|done].
  intros i _. split; apply Huv.
Qed.

Lemma the_dots_shaped_before_uv blender_mesh dtype (un ut umn : bool) kbs armature
    blender_object export_settings dn dt :
  (if un
   then normal_dots blender_mesh dtype umn kbs armature blender_object
          export_settings
          (set_vertex_index (MeshLoop.vertex_index <$> Mesh.loops blender_mesh)
             (empty_dots (length (Mesh.loops blender_mesh)) dtype))
   else Some (set_vertex_index (MeshLoop.vertex_index <$> Mesh.loops blender_mesh)
                (empty_dots (length (Mesh.loops blender_mesh)) dtype))) = Some dn →
  (if ut
   then tangent_dots blender_mesh dtype armature blender_object export_settings dn
   else Some dn) = Some dt →
  shaped dtype dn ∧ shaped dtype dt.
Proof.
  intros Hdn Hdt. pose proof (initial_shaped dtype
    (MeshLoop.vertex_index <$> Mesh.loops blender_mesh)
    (length (Mesh.loops blender_mesh))) as Hs.
  assert (shaped dtype dn) as Hn.
  { destruct un; [by eapply normal_dots_shaped|by injection Hdn as <-]. }
  split; [done|].
  destruct ut; [by eapply tangent_dots_shaped|by injection Hdt as <-].
Qed.

Section the_dots.
Context (blender_mesh : Mesh.t) (blender_object : option Object.t)
        (blender_vertex_groups : list string) (modifiers : option (list Modifier.t))
        (export_settings : export_keys.t) (dots : list Dot.t).
Context (Hdots : the_dots blender_mesh blender_object blender_vertex_groups modifiers
                   export_settings = Some dots).

Local Abbreviation dtype := (flags.dtype blender_mesh export_settings).
Local Abbreviation armature :=
  (the_armature blender_object blender_vertex_groups modifiers export_settings).

Lemma the_dots_normals :
  flags.use_normals export_settings = true →
  ∃ normal_transform,
    normal_transform_of armature blender_object normal_transform ∧
    let normals :=
      transformed_normal normal_transform export_settings <$>
        (MeshLoop.normal <$> Mesh.loops blender_mesh) in
    holds dtype "nx" ((λ v : vec3, v.1.1) <$> normals) dots ∧
    holds dtype "ny" ((λ v : vec3, v.1.2) <$> normals) dots ∧
    holds dtype "nz" ((λ v : vec3, v.2) <$> normals) dots.
Proof.
  intros Hun. unfold the_dots in Hdots.
  rewrite collect_dots_stages in Hdots. cbv zeta in Hdots. rewrite Hun in Hdots.
  apply bind_Some in Hdots as (dn & Hdn & Hc).
  apply bind_Some in Hc as (dt & Hdt & Hc).
  destruct (normal_fields (flags.use_normals export_settings)
              (flags.use_tangents blender_mesh export_settings)
              (flags.tex_coord_max blender_mesh export_settings)
              (flags.color_max blender_mesh export_settings)
              (flags.use_morph_normals export_settings)
              (flags.key_blocks blender_mesh export_settings)
              (flags.use_facemaps blender_mesh) Hun) as (Hx & Hy & Hz).
  destruct (normal_dots_holds _ _ _ _ _ _ _ _ _ Hdn Hx Hy Hz)
    as (normals & morph_normals & Hn & Hnx & Hny & Hnz); [apply initial_shaped|].
  apply get_normals_shape in Hn as (normal_transform & HN & [= -> _]).
  exists normal_transform. split; [done|]. cbv zeta.
  assert (axis_conversion export_settings <$>
            (skinned_normal normal_transform <$>
               (MeshLoop.normal <$> Mesh.loops blender_mesh)) =
          transformed_normal normal_transform export_settings <$>
            (MeshLoop.normal <$> Mesh.loops blender_mesh)) as Hnorm.
  { by rewrite <-list_fmap_compose. }
  rewrite Hnorm in Hnx, Hny, Hnz.
  split_and!;
    (eapply later_stages_hold; [| | |exact Hc|];
       [intros; name_ne|intros; name_ne|name_ne|];
     destruct (flags.use_tangents blender_mesh export_settings);
       [|by injection Hdt as <-];
     by eapply tangent_dots_holds_other; [name_ne|name_ne|name_ne|name_ne|exact Hdt|]).
Qed.

Lemma the_dots_tangents :
  flags.use_tangents blender_mesh export_settings = true →
  ∃ tangents signs,
    __get_tangents blender_mesh armature blender_object export_settings
      = Some tangents ∧
    __get_bitangent_signs blender_mesh armature blender_object export_settings
      = Some signs ∧
    holds dtype "tx" ((λ v : vec3, v.1.1) <$> tangents) dots ∧
    holds dtype "ty" ((λ v : vec3, v.1.2) <$> tangents) dots ∧
    holds dtype "tz" ((λ v : vec3, v.2) <$> tangents) dots ∧
    holds dtype "tw" signs dots.
Proof.
  intros Hut. unfold the_dots in Hdots.
  rewrite collect_dots_stages in Hdots. cbv zeta in Hdots. rewrite Hut in Hdots.
  apply bind_Some in Hdots as (dn & Hdn & Hc).
  apply bind_Some in Hc as (dt & Hdt & Hc).
  destruct (tangent_fields (flags.use_normals export_settings)
              (flags.use_tangents blender_mesh export_settings)
              (flags.tex_coord_max blender_mesh export_settings)
              (flags.color_max blender_mesh export_settings)
              (flags.use_morph_normals export_settings)
              (flags.key_blocks blender_mesh export_settings)
              (flags.use_facemaps blender_mesh) Hut) as (Hx & Hy & Hz & Hw).
  destruct (tangent_dots_holds _ _ _ _ _ _ _ Hdt Hx Hy Hz Hw)
    as (tangents & signs & Ht & Hsg & Htx & Hty & Htz & Htw).
  { destruct (flags.use_normals export_settings);
      [by eapply normal_dots_shaped; [exact Hdn|apply initial_shaped]|].
    injection Hdn as <-. apply initial_shaped. }
  exists tangents, signs. split; [done|]. split; [done|].
  split_and!;
    (eapply later_stages_hold; [| | |exact Hc|done];
       [intros; name_ne|intros; name_ne|name_ne]).
Qed.

Lemma the_dots_uvs uv_i :
  (uv_i < flags.tex_coord_max blender_mesh export_settings)%nat →
  ∃ uvs, __get_uvs blender_mesh uv_i = Some uvs ∧
    holds dtype ("uv" +:+ pretty uv_i +:+ "x") ((λ uv : vec2, uv.1) <$> uvs) dots ∧
    holds dtype ("uv" +:+ pretty uv_i +:+ "y") ((λ uv : vec2, uv.2) <$> uvs) dots.
Proof.
  intros Hi. unfold the_dots in Hdots.
  rewrite collect_dots_stages in Hdots. cbv zeta in Hdots.
  destruct (uv_fields (flags.use_normals export_settings)
              (flags.use_tangents blender_mesh export_settings)
              (flags.tex_coord_max blender_mesh export_settings)
              (flags.color_max blender_mesh export_settings)
              (flags.use_morph_normals export_settings)
              (flags.key_blocks blender_mesh export_settings)
              (flags.use_facemaps blender_mesh) uv_i Hi) as (Hx & Hy).
  apply bind_Some in Hdots as (dn & Hdn & Hc).
  apply bind_Some in Hc as (dt & Hdt & Hc).
  apply bind_Some in Hc as (d1 & Hd1 & Hc).
  apply bind_Some in Hc as (d2 & Hd2 & Hc).
  destruct (uv_fold_holds _ _ _ _ _ _ Hi Hx Hy Hd1) as (uvs & Hu & Hux & Huy).
  { by eapply the_dots_shaped_before_uv. }
  exists uvs. split; [done|].
  split; (eapply facemap_dots_holds_other; [name_ne|exact Hc|];
          eapply color_fold_holds_other; [intros; name_ne|exact Hd2|done]).
Qed.

Lemma the_dots_colors col_i :
  (col_i < flags.color_max blender_mesh export_settings)%nat →
  ∃ colors, __get_colors blender_mesh col_i = Some colors ∧
    holds dtype ("color" +:+ pretty col_i +:+ "r")
      ((λ c : vec4, c.1.1.1) <$> colors) dots ∧
    holds dtype ("color" +:+ pretty col_i +:+ "g")
      ((λ c : vec4, c.1.1.2) <$> colors) dots ∧
    holds dtype ("color" +:+ pretty col_i +:+ "b")
      ((λ c : vec4, c.1.2) <$> colors) dots ∧
    holds dtype ("color" +:+ pretty col_i +:+ "a")
      ((λ c : vec4, c.2) <$> colors) dots.
Proof.
  intros Hi. unfold the_dots in Hdots.
  rewrite collect_dots_stages in Hdots. cbv zeta in Hdots.
  destruct (color_fields (flags.use_normals export_settings)
              (flags.use_tangents blender_mesh export_settings)
              (flags.tex_coord_max blender_mesh export_settings)
              (flags.color_max blender_mesh export_settings)
              (flags.use_morph_normals export_settings)
              (flags.key_blocks blender_mesh export_settings)
              (flags.use_facemaps blender_mesh) col_i Hi) as (Hr & Hg & Hb & Ha).
  apply bind_Some in Hdots as (dn & Hdn & Hc).
  apply bind_Some in Hc as (dt & Hdt & Hc).
  apply bind_Some in Hc as (d1 & Hd1 & Hc).
  apply bind_Some in Hc as (d2 & Hd2 & Hc).
  destruct (color_fold_holds _ _ _ _ _ _ Hi Hr Hg Hb Ha Hd2)
    as (colors & Hcs & Hcr & Hcg & Hcb & Hca).
  { eapply uv_fold_shaped; [exact Hd1|]. by eapply the_dots_shaped_before_uv. }
  exists colors. split; [done|].
  split_and!; (eapply facemap_dots_holds_other; [name_ne|exact Hc|done]).
Qed.
End the_dots.
End exported_fields.

Section attribute_lookups.
Context `{Externals}.

Ltac name_ne := let E := fresh in intros E; simpl in E; discriminate E.

Lemma foldl_lookup_ne {V} (k : string) (f : gmap string V → nat → gmap string V)
    (l : list nat) (a : gmap string V) :
  (∀ a j, f a j !! k = a !! k) → foldl f a l !! k = a !! k.
Proof.
  intros Hf. revert a. induction l as [|j l IH]; intros a; [done|].
  simpl. by rewrite IH, Hf.
Qed.

Lemma foldl_insert_lookup {V} (key : nat → string) (val : nat → V) (n i : nat)
    (a : gmap string V) :
  (∀ j, key j = key i → j = i) → (i < n)%nat →
  foldl (λ a j, <[key j := val j]> a) a (seq 0 n) !! key i = Some (val i).
Proof.
  intros Hinj. induction n as [|n IH]; intros Hi; [lia|].
  rewrite seq_S, foldl_app. simpl.
  destruct (decide (n = i)) as [->|Hne].
  - apply lookup_insert_eq.
  - rewrite lookup_insert_ne; [apply IH; lia|]. intros E. by apply Hinj in E.
Qed.

Section dot_attributes.
Context (dtype : list string) (prim_dots : list Dot.t)
        (un ut umn umt : bool) (tcm cm : nat) (kbs : list ShapeKey.t)
        (attributes : gmap string array).

Local Abbreviation field name := (get_field dtype name prim_dots).
Local Abbreviation result :=
  (dot_attributes dtype prim_dots un ut umn umt tcm cm kbs attributes).

Lemma dot_attributes_color color_i :
  (color_i < cm)%nat →
  result !! ("COLOR_" +:+ pretty color_i) =
  Some (Vec4s (rows4 (field ("color" +:+ pretty color_i +:+ "r"))
                     (field ("color" +:+ pretty color_i +:+ "g"))
                     (field ("color" +:+ pretty color_i +:+ "b"))
                     (field ("color" +:+ pretty color_i +:+ "a")))).
Proof.
  intros Hi. unfold dot_attributes. cbv zeta.
  apply (foldl_insert_lookup (λ j, "COLOR_" +:+ pretty j)
           (λ j, Vec4s (rows4 (field ("color" +:+ pretty j +:+ "r"))
                              (field ("color" +:+ pretty j +:+ "g"))
                              (field ("color" +:+ pretty j +:+ "b"))
                              (field ("color" +:+ pretty j +:+ "a"))))); [|done].
  intros j. apply prefixed_name_inj.
Qed.

Lemma dot_attributes_texcoord tex_coord_i :
  (tex_coord_i < tcm)%nat →
  result !! ("TEXCOORD_" +:+ pretty tex_coord_i) =
  Some (Vec2s (rows2 (field ("uv" +:+ pretty tex_coord_i +:+ "x"))
                     (field ("uv" +:+ pretty tex_coord_i +:+ "y")))).
Proof.
  intros Hi. unfold dot_attributes. cbv zeta.
  rewrite foldl_lookup_ne.
  2:{ intros a j. by rewrite lookup_insert_ne by name_ne. }
  apply (foldl_insert_lookup (λ j, "TEXCOORD_" +:+ pretty j)
           (λ j, Vec2s (rows2 (field ("uv" +:+ pretty j +:+ "x"))
                              (field ("uv" +:+ pretty j +:+ "y"))))); [|done].
  intros j. apply prefixed_name_inj.
Qed.

Lemma dot_attributes_base k :
  (∀ s, k ≠ "COLOR_" +:+ s) → (∀ s, k ≠ "TEXCOORD_" +:+ s) →
  (∀ s, k ≠ "MORPH_NORMAL_" +:+ s) → (∀ s, k ≠ "MORPH_TANGENT_" +:+ s) →
  result !! k =
  (let attributes :=
     if un
     then <["NORMAL" := Vec3s (rows3 (field "nx") (field "ny") (field "nz"))]> attributes
     else attributes in
   if ut
   then <["TANGENT" := Vec4s (rows4 (field "tx") (field "ty") (field "tz")
                                    (field "tw"))]> attributes
   else attributes) !! k.
Proof.
  intros Hc Ht Hmn Hmt. unfold dot_attributes. cbv zeta.
  rewrite foldl_lookup_ne.
  2:{ intros a j. rewrite lookup_insert_ne; [done|]. intros E. by apply (Hc (pretty j)). }
  rewrite foldl_lookup_ne.
  2:{ intros a j. rewrite lookup_insert_ne; [done|]. intros E. by apply (Ht (pretty j)). }
  destruct umn; [|done].
  apply foldl_lookup_ne.
  intros a j. destruct umt.
  - rewrite !lookup_insert_ne; [done|..]; intros E;
      first [by apply (Hmt (pretty j))|by apply (Hmn (pretty j))].
  - rewrite lookup_insert_ne; [done|]. intros E. by apply (Hmn (pretty j)).
Qed.

End dot_attributes.

Lemma dot_attributes_normal dtype prim_dots ut umn umt tcm cm kbs attributes :
  dot_attributes dtype prim_dots true ut umn umt tcm cm kbs attributes !! "NORMAL" =
  Some (Vec3s (rows3 (get_field dtype "nx" prim_dots) (get_field dtype "ny" prim_dots)
                     (get_field dtype "nz" prim_dots))).
Proof.
  rewrite dot_attributes_base by (intros; name_ne). cbv zeta.
  destruct ut; rewrite ?lookup_insert_ne by name_ne; apply lookup_insert_eq.
Qed.

Lemma dot_attributes_tangent dtype prim_dots un umn umt tcm cm kbs attributes :
  dot_attributes dtype prim_dots un true umn umt tcm cm kbs attributes !! "TANGENT" =
  Some (Vec4s (rows4 (get_field dtype "tx" prim_dots) (get_field dtype "ty" prim_dots)
                     (get_field dtype "tz" prim_dots) (get_field dtype "tw" prim_dots))).
Proof.
  rewrite dot_attributes_base by (intros; name_ne). cbv zeta.
  apply lookup_insert_eq.
Qed.

(** An attribute that is read from the dots is not changed by the
    attributes that are written after it. *)
Lemma make_primitive_dot_attribute k dtype dots un ut umn umt uf tcm cm kbs locs mlocs
    skin extra material_idx dot_indices p :
  (∀ s, k ≠ "JOINTS_" +:+ s) → (∀ s, k ≠ "WEIGHTS_" +:+ s) →
  (∀ s, k ≠ "_VG_" +:+ s) → k ≠ "_FACEMAPS" →
  make_primitive dtype dots un ut umn umt uf tcm cm kbs locs mlocs skin extra
    material_idx dot_indices = Some (Some p) →
  ∃ prim_dots attributes,
    np.take dots dot_indices = Some prim_dots ∧
    Primitive.indices p = (np.unique_inverse Dot.le prim_dots).2 ∧
    Primitive.attributes p !! k =
      dot_attributes dtype (np.unique Dot.le prim_dots) un ut umn umt tcm cm kbs
        attributes !! k.
Proof.
  intros Hj Hw Hvg Hfm. unfold make_primitive. intros Hm.
  apply bind_Some in Hm as (prim_dots & Ht & Hm). exists prim_dots.
  unfold np.unique_inverse in *. cbv zeta in Hm.
  case_decide as Hlen; [done|].
  apply bind_Some in Hm as (position & Hpos & Hm).
  apply bind_Some in Hm as (a1 & Ha1 & Hm).
  apply bind_Some in Hm as (a2 & Ha2 & Hm).
  apply bind_Some in Hm as (a3 & Ha3 & Hm).
  injection Hm as <-. exists a1. simpl. split_and!; [done|done|].
  rewrite <-(skin_attributes_lookup k _ _ _ _ Hj Hw Ha2).
  rewrite <-(vgroup_attributes_lookup k _ _ _ _ Hvg Ha3).
  destruct uf; [|done]. by rewrite lookup_insert_ne.
Qed.

Lemma rows2_lookup c0 c1 k x y :
  c0 !! k = Some x → c1 !! k = Some y → rows2 c0 c1 !! k = Some (x, y).
Proof.
  intros H0 H1. unfold rows2. apply lookup_zip_with_Some. by exists x, y.
Qed.

Lemma rows3_lookup c0 c1 c2 k x y z :
  c0 !! k = Some x → c1 !! k = Some y → c2 !! k = Some z →
  rows3 c0 c1 c2 !! k = Some (x, y, z).
Proof.
  intros H0 H1 H2. unfold rows3. apply lookup_zip_with_Some.
  exists (x, y), z. split_and!; [done| |done]. by apply rows2_lookup.
Qed.

Lemma rows4_lookup c0 c1 c2 c3 k x y z w :
  c0 !! k = Some x → c1 !! k = Some y → c2 !! k = Some z → c3 !! k = Some w →
  rows4 c0 c1 c2 c3 !! k = Some (x, y, z, w).
Proof.
  intros H0 H1 H2 H3. unfold rows4. apply lookup_zip_with_Some.
  exists (x, y, z), w. split_and!; [done| |done]. by apply rows3_lookup.
Qed.
End attribute_lookups.

Section exported.
Context `{Externals}.
Context (blender_mesh : Mesh.t) (blender_object : option Object.t)
        (blender_vertex_groups : list string) (modifiers : option (list Modifier.t))
        (export_settings : export_keys.t).

Ltac name_ne := let E := fresh in intros E; simpl in E; discriminate E.

Local Abbreviation armature :=
  (the_armature blender_object blender_vertex_groups modifiers export_settings).

(** X12: when normals are exported, NORMAL at the index of a corner is
    the normal of the loop of that corner after all transforms: for a
    skinned mesh the normal matrix (the linear part of the world matrix A
    of the armature times the inverse transpose of the linear part of
    A^-1 O, with O the world matrix of the object) and the scaling to
    length one, then the UP vector for a zero normal, then the axis
    conversion. *)
Theorem exported_normals prims p :
  export_keys.NORMALS export_settings = true →
  extract_primitives blender_mesh blender_object blender_vertex_groups modifiers
    export_settings = Some prims →
  p ∈ prims →
  ∃ bucket normal_transform normals,
    bucket_of blender_mesh export_settings (Primitive.material p) bucket ∧
    normal_transform_of armature blender_object normal_transform ∧
    Primitive.attributes p !! "NORMAL" = Some (Vec3s normals) ∧
    ∀ corner li, bucket !! corner = Some li →
      ∃ loop index,
        Mesh.loops blender_mesh !! li = Some loop ∧
        Primitive.indices p !! corner = Some index ∧
        normals !! index =
          Some (axis_conversion export_settings
                  (up_if_zero
                     match normal_transform with
                     | Some N => unit_vector (Matrix.mulvec N (MeshLoop.normal loop))
                     | None => MeshLoop.normal loop
                     end)).
Proof.
  intros Hun He Hp.
  destruct (extract_primitives_elem_of _ _ _ _ _ _ _ He Hp)
    as (positions & dots & bucket & _ & Hd & Hb & Hmk).
  unfold the_primitive in Hmk. cbv zeta in Hmk.
  apply (make_primitive_dot_attribute "NORMAL") in Hmk
    as (prim_dots & a & Ht & Hidx & Hattr); [|intros; name_ne..|name_ne].
  unfold flags.use_normals in Hattr. rewrite Hun in Hattr.
  rewrite dot_attributes_normal in Hattr.
  destruct (the_dots_normals _ _ _ _ _ _ Hd Hun) as (normal_transform & HN & Hx & Hy & Hz).
  eexists bucket, normal_transform, _. split_and!; [done|done|exact Hattr|].
  intros corner li Hc.
  destruct (get_field_holds _ _ _ _ _ _ _ _ Hx Ht Hc) as (k & x & Hk & Hcx & Hfx).
  destruct (get_field_holds _ _ _ _ _ _ _ _ Hy Ht Hc) as (k' & y & Hk' & Hcy & Hfy).
  destruct (get_field_holds _ _ _ _ _ _ _ _ Hz Ht Hc) as (k'' & z & Hk'' & Hcz & Hfz).
  assert (k' = k) as -> by congruence. assert (k'' = k) as -> by congruence.
  rewrite !list_lookup_fmap in Hcx, Hcy, Hcz.
  destruct (Mesh.loops blender_mesh !! li) as [loop|] eqn:Hloop; [|done].
  simpl in Hcx, Hcy, Hcz. injection Hcx as <-. injection Hcy as <-. injection Hcz as <-.
  exists loop, k. split_and!; [done|by rewrite Hidx|].
  erewrite rows3_lookup; [|exact Hfx|exact Hfy|exact Hfz].
  unfold transformed_normal, skinned_normal.
  by destruct (axis_conversion _ _) as [[??]?].
Qed.

(** X13: when tangents are exported, TANGENT at the index of a corner
    holds the tangent that [__get_tangents] gives the loop of that corner
    and, as fourth component, its sign from [__get_bitangent_signs]. *)
Theorem exported_tangents prims p :
  flags.use_tangents blender_mesh export_settings = true →
  extract_primitives blender_mesh blender_object blender_vertex_groups modifiers
    export_settings = Some prims →
  p ∈ prims →
  ∃ bucket loop_tangents loop_signs tangents,
    bucket_of blender_mesh export_settings (Primitive.material p) bucket ∧
    __get_tangents blender_mesh armature blender_object export_settings
      = Some loop_tangents ∧
    __get_bitangent_signs blender_mesh armature blender_object export_settings
      = Some loop_signs ∧
    Primitive.attributes p !! "TANGENT" = Some (Vec4s tangents) ∧
    ∀ corner li, bucket !! corner = Some li →
      ∃ tangent sign index,
        loop_tangents !! li = Some tangent ∧
        loop_signs !! li = Some sign ∧
        Primitive.indices p !! corner = Some index ∧
        tangents !! index = Some (tangent, sign).
Proof.
  intros Hut He Hp.
  destruct (extract_primitives_elem_of _ _ _ _ _ _ _ He Hp)
    as (positions & dots & bucket & _ & Hd & Hb & Hmk).
  unfold the_primitive in Hmk. cbv zeta in Hmk.
  apply (make_primitive_dot_attribute "TANGENT") in Hmk
    as (prim_dots & a & Ht & Hidx & Hattr); [|intros; name_ne..|name_ne].
  rewrite Hut in Hattr. rewrite dot_attributes_tangent in Hattr.
  destruct (the_dots_tangents _ _ _ _ _ _ Hd Hut)
    as (loop_tangents & loop_signs & Htan & Hsg & Hx & Hy & Hz & Hw).
  eexists bucket, loop_tangents, loop_signs, _.
  split_and!; [done|done|done|exact Hattr|].
  intros corner li Hc.
  destruct (get_field_holds _ _ _ _ _ _ _ _ Hx Ht Hc) as (k & x & Hk & Hcx & Hfx).
  destruct (get_field_holds _ _ _ _ _ _ _ _ Hy Ht Hc) as (k' & y & Hk' & Hcy & Hfy).
  destruct (get_field_holds _ _ _ _ _ _ _ _ Hz Ht Hc) as (k'' & z & Hk'' & Hcz & Hfz).
  destruct (get_field_holds _ _ _ _ _ _ _ _ Hw Ht Hc) as (k3 & w & Hk3 & Hcw & Hfw).
  assert (k' = k) as -> by congruence. assert (k'' = k) as -> by congruence.
  assert (k3 = k) as -> by congruence.
  rewrite !list_lookup_fmap in Hcx, Hcy, Hcz.
  destruct (loop_tangents !! li) as [[[tx ty] tz]|] eqn:Hli; [|done].
  simpl in Hcx, Hcy, Hcz. injection Hcx as <-. injection Hcy as <-. injection Hcz as <-.
  exists (tx, ty, tz), w, k. split_and!; [done|done|by rewrite Hidx|].
  by erewrite rows4_lookup; [|exact Hfx|exact Hfy|exact Hfz|exact Hfw].
Qed.

(** X14: for every exported UV layer [i], TEXCOORD_i at the index of a
    corner is the UV of the loop of that corner in layer [i], with the v
    axis flipped. *)
Theorem exported_texcoords prims p tex_coord_i :
  (tex_coord_i < flags.tex_coord_max blender_mesh export_settings)%nat →
  extract_primitives blender_mesh blender_object blender_vertex_groups modifiers
    export_settings = Some prims →
  p ∈ prims →
  ∃ bucket layer texcoords,
    bucket_of blender_mesh export_settings (Primitive.material p) bucket ∧
    Mesh.uv_layers blender_mesh !! tex_coord_i = Some layer ∧
    Primitive.attributes p !! ("TEXCOORD_" +:+ pretty tex_coord_i)
      = Some (Vec2s texcoords) ∧
    ∀ corner li, bucket !! corner = Some li →
      ∃ u v index,
        layer !! li = Some (u, v) ∧
        Primitive.indices p !! corner = Some index ∧
        texcoords !! index = Some (u, 1 - v).
Proof.
  intros Hi He Hp.
  destruct (extract_primitives_elem_of _ _ _ _ _ _ _ He Hp)
    as (positions & dots & bucket & Hpositions & Hd & Hb & Hmk).
  unfold the_primitive in Hmk. cbv zeta in Hmk.
  apply (make_primitive_dot_attribute ("TEXCOORD_" +:+ pretty tex_coord_i)) in Hmk
    as (prim_dots & a & Ht & Hidx & Hattr); [|intros; name_ne..|name_ne].
  rewrite dot_attributes_texcoord in Hattr by done.
  destruct (the_dots_uvs _ _ _ _ _ _ Hd _ Hi) as (uvs & Hu & Hx & Hy).
  unfold __get_uvs in Hu. apply bind_Some in Hu as (layer & Hl & [= <-]).
  eexists bucket, layer, _. split_and!; [done|done|exact Hattr|].
  intros corner li Hc.
  destruct (get_field_holds _ _ _ _ _ _ _ _ Hx Ht Hc) as (k & x & Hk & Hcx & Hfx).
  destruct (get_field_holds _ _ _ _ _ _ _ _ Hy Ht Hc) as (k' & y & Hk' & Hcy & Hfy).
  assert (k' = k) as -> by congruence.
  rewrite !list_lookup_fmap in Hcx, Hcy.
  destruct (layer !! li) as [[u v]|] eqn:Hli; [|done].
  simpl in Hcx, Hcy. injection Hcx as <-. injection Hcy as <-.
  exists u, v, k. split_and!; [done|by rewrite Hidx|].
  erewrite rows2_lookup; [|exact Hfx|exact Hfy]. do 2 f_equal. ring.
Qed.

(** X15: for every exported color layer [i], COLOR_i at the index of a
    corner is the color of the loop of that corner in layer [i], with the
    sRGB to linear conversion on r, g and b and with alpha unchanged. *)
Theorem exported_colors prims p color_i :
  (color_i < flags.color_max blender_mesh export_settings)%nat →
  extract_primitives blender_mesh blender_object blender_vertex_groups modifiers
    export_settings = Some prims →
  p ∈ prims →
  ∃ bucket layer colors,
    bucket_of blender_mesh export_settings (Primitive.material p) bucket ∧
    Mesh.vertex_colors blender_mesh !! color_i = Some layer ∧
    Primitive.attributes p !! ("COLOR_" +:+ pretty color_i) = Some (Vec4s colors) ∧
    ∀ corner li, bucket !! corner = Some li →
      ∃ r g b a index,
        layer !! li = Some (r, g, b, a) ∧
        Primitive.indices p !! corner = Some index ∧
        colors !! index =
          Some (srgb_to_linear r, srgb_to_linear g, srgb_to_linear b, a).
Proof.
  intros Hi He Hp.
  destruct (extract_primitives_elem_of _ _ _ _ _ _ _ He Hp)
    as (positions & dots & bucket & Hpositions & Hd & Hb & Hmk).
  unfold the_primitive in Hmk. cbv zeta in Hmk.
  apply (make_primitive_dot_attribute ("COLOR_" +:+ pretty color_i)) in Hmk
    as (prim_dots & a & Ht & Hidx & Hattr); [|intros; name_ne..|name_ne].
  rewrite dot_attributes_color in Hattr by done.
  destruct (the_dots_colors _ _ _ _ _ _ Hd _ Hi) as (cs & Hcs & Hr & Hg & Hb' & Ha).
  unfold __get_colors in Hcs. apply bind_Some in Hcs as (layer & Hl & [= <-]).
  eexists bucket, layer, _. split_and!; [done|done|exact Hattr|].
  intros corner li Hc.
  destruct (get_field_holds _ _ _ _ _ _ _ _ Hr Ht Hc) as (k & x & Hk & Hcx & Hfx).
  destruct (get_field_holds _ _ _ _ _ _ _ _ Hg Ht Hc) as (k' & y & Hk' & Hcy & Hfy).
  destruct (get_field_holds _ _ _ _ _ _ _ _ Hb' Ht Hc) as (k'' & z & Hk'' & Hcz & Hfz).
  destruct (get_field_holds _ _ _ _ _ _ _ _ Ha Ht Hc) as (k3 & w & Hk3 & Hcw & Hfw).
  assert (k' = k) as -> by congruence. assert (k'' = k) as -> by congruence.
  assert (k3 = k) as -> by congruence.
  rewrite !list_lookup_fmap in Hcx, Hcy, Hcz, Hcw.
  destruct (layer !! li) as [[[[r g] b] alpha]|] eqn:Hli; [|done].
  simpl in Hcx, Hcy, Hcz, Hcw.
  injection Hcx as <-. injection Hcy as <-. injection Hcz as <-. injection Hcw as <-.
  exists r, g, b, alpha, k. split_and!; [done|by rewrite Hidx|].
  by erewrite rows4_lookup; [|exact Hfx|exact Hfy|exact Hfz|exact Hfw].
Qed.
End exported.

(** ** Exceptions and the number of primitives *)

Section none_mode.
Context `{Externals}.

(** X16: when MATERIALS is NONE, the result is empty exactly when the
    mesh has no triangles; for a mesh with triangles it is one primitive,
    with material -1 and three indices per triangle of the mesh. *)
Theorem none_mode_single_primitive blender_mesh blender_object blender_vertex_groups
    modifiers export_settings prims :
  export_keys.MATERIALS export_settings = NONE →
  extract_primitives blender_mesh blender_object blender_vertex_groups modifiers
    export_settings = Some prims →
  (Mesh.loop_triangles blender_mesh = [] ∧ prims = []) ∨
  (Mesh.loop_triangles blender_mesh ≠ [] ∧
   ∃ p, prims = [p] ∧ Primitive.material p = (-1)%Z ∧
     length (Primitive.indices p) =
       (3 * length (Mesh.loop_triangles blender_mesh))%nat).
Proof.
  intros Hnone He. rewrite extract_primitives_eq in He.
  apply bind_Some in He as (positions & Hpositions & He).
  apply bind_Some in He as (dots & Hd & He).
  apply bind_Some in He as (results & Hr & [= <-]).
  rewrite Hnone in Hr. simpl in Hr.
  apply bind_Some in Hr as (r & Hmk & [= <-]).
  unfold the_primitive in Hmk. cbv zeta in Hmk.
  destruct r as [p|]; simpl.
  - right. split.
    { intros Hno. unfold triangle_loops in Hmk. rewrite Hno in Hmk.
      by rewrite make_primitive_nil in Hmk. }
    exists p. split; [done|].
    apply make_primitive_inv in Hmk as (prim_dots & Ht & _ & Hidx & Hmat).
    split; [done|]. rewrite Hidx, unique_inverse_length.
    apply take_length in Ht. rewrite Ht. apply loops_of_length.
  - left. split; [|done]. apply make_primitive_skip in Hmk.
    apply (f_equal length) in Hmk. unfold triangle_loops in Hmk.
    rewrite loops_of_length in Hmk. simpl in Hmk.
    apply nil_length_inv. lia.
Qed.
End none_mode.

Section totality.
Context `{Externals}.
Implicit Types dots : list Dot.t.

Lemma set_field_length dtype name column dots :
  (length dots ≤ length column)%nat →
  length (set_field dtype name column dots) = length dots.
Proof.
  intros Hl. unfold set_field. destruct (field_offset dtype name); [|done].
  rewrite length_zip_with. lia.
Qed.

Lemma set_field_full dtype name column dots n :
  length dots = n → (n ≤ length column)%nat →
  length (set_field dtype name column dots) = n.
Proof. intros <- Hl. by apply set_field_length. Qed.

Lemma set_rows3_length dtype n0 n1 n2 (rows : list vec3) dots :
  (length dots ≤ length rows)%nat →
  length (set_rows3 dtype n0 n1 n2 rows dots) = length dots.
Proof.
  intros Hl. unfold set_rows3.
  assert (∀ f : vec3 → Qc, (length dots ≤ length (f <$> rows))%nat) as Hf.
  { intros f. by rewrite length_fmap. }
  assert (length (set_field dtype n0 ((λ v : vec3, v.1.1) <$> rows) dots) = length dots)
    as H0 by apply set_field_length, Hf.
  assert (length (set_field dtype n1 ((λ v : vec3, v.1.2) <$> rows)
                    (set_field dtype n0 ((λ v : vec3, v.1.1) <$> rows) dots))
          = length dots) as H1.
  { rewrite set_field_length; [done|]. rewrite H0. apply Hf. }
  rewrite set_field_length; [done|]. rewrite H1. apply Hf.
Qed.

Lemma foldl_option_total {A B} (P : A → Prop) (f : A → B → option A) (l : list B)
    (a : A) :
  P a → (∀ a x, x ∈ l → P a → ∃ a', f a x = Some a' ∧ P a') →
  ∃ a', foldl (λ acc x, a ← acc; f a x) (Some a) l = Some a' ∧ P a'.
Proof.
  revert a. induction l as [|x l IH]; intros a Ha Hf; simpl; [by exists a|].
  destruct (Hf a x) as (a1 & -> & Ha1); [left|done|]. simpl.
  apply IH; [done|]. intros a2 y Hy. apply Hf. by right.
Qed.

Lemma get_normals_lengths blender_mesh kbs armature blender_object export_settings
    result :
  __get_normals blender_mesh kbs armature blender_object export_settings
    = Some result →
  Forall (λ kb, length (ShapeKey.normals_split kb) = length (Mesh.loops blender_mesh))
    kbs →
  length result.1 = length (Mesh.loops blender_mesh) ∧
  Forall (λ ns, length ns = length (Mesh.loops blender_mesh)) result.2.
Proof.
  intros (normal_transform & _ & ->)%get_normals_shape Hk. simpl.
  split; [by rewrite !length_fmap|].
  rewrite <-!list_fmap_compose. apply Forall_fmap.
  eapply Forall_impl; [exact Hk|]. intros kb Hkb. simpl in *.
  rewrite length_fmap, length_zip_with, !length_fmap. unfold vec3 in *. lia.
Qed.

Lemma get_positions_lengths blender_mesh kbs armature blender_object export_settings
    result :
  __get_positions blender_mesh kbs armature blender_object export_settings
    = Some result →
  Forall (λ kb, length (ShapeKey.data kb) = length (Mesh.vertices blender_mesh)) kbs →
  length result.1 = length (Mesh.vertices blender_mesh) ∧
  Forall (λ vs, length vs = length (Mesh.vertices blender_mesh)) result.2.
Proof.
  intros ->%get_positions_shape Hk. simpl.
  split; [by rewrite !length_fmap|].
  rewrite <-!list_fmap_compose. apply Forall_fmap.
  eapply Forall_impl; [exact Hk|]. intros kb Hkb. simpl in *.
  rewrite length_fmap, length_zip_with, !length_fmap. unfold vec3 in *. lia.
Qed.

Lemma active_key_blocks_wf blender_mesh export_settings :
  layers_wf blender_mesh →
  Forall (λ key_block,
      length (ShapeKey.data key_block) = length (Mesh.vertices blender_mesh) ∧
      length (ShapeKey.normals_split key_block) = length (Mesh.loops blender_mesh))
    (active_key_blocks blender_mesh export_settings).
Proof.
  intros [_ _ _ _ Hk]. unfold active_key_blocks.
  destruct (Mesh.shape_keys blender_mesh) as [kbs|]; [|constructor].
  destruct (export_keys.MORPH export_settings); [|constructor].
  simpl in Hk. rewrite Forall_forall in Hk |- *.
  intros kb [_ Hin]%list_elem_of_filter. by apply Hk.
Qed.

Lemma normal_dots_length blender_mesh dtype (umn : bool) kbs armature blender_object
    export_settings dots :
  (∃ normal_transform,
     normal_transform_of armature blender_object normal_transform) →
  Forall (λ kb, length (ShapeKey.normals_split kb) = length (Mesh.loops blender_mesh))
    kbs →
  length dots = length (Mesh.loops blender_mesh) →
  ∃ dots',
    normal_dots blender_mesh dtype umn kbs armature blender_object export_settings
      dots = Some dots' ∧
    length dots' = length (Mesh.loops blender_mesh).
Proof.
  intros HN Hk Hl. unfold normal_dots. cbv zeta.
  destruct (proj2 (get_normals_is_Some blender_mesh (if umn then kbs else [])
                     armature blender_object export_settings) HN)
    as [[ns mns] Hr].
  destruct (get_normals_lengths _ _ _ _ _ _ Hr) as [Hn Hm].
  { destruct umn; [done|constructor]. }
  rewrite Hr. simpl in Hn, Hm |- *. eexists. split; [done|].
  apply (foldl_invariant (λ d, length d = length (Mesh.loops blender_mesh))).
  - intros a [i rows] Hin Ha.
    apply list_elem_of_lookup in Hin as [k Hin].
    apply list_lookup_imap_Some in Hin as (rows' & Hin & [= -> ->]).
    rewrite set_rows3_length; [done|].
    rewrite (Forall_lookup_1 _ _ _ _ Hm Hin). lia.
  - rewrite set_rows3_length; [done|]. lia.
Qed.

Lemma get_tangents_length blender_mesh armature blender_object export_settings
    tangents :
  __get_tangents blender_mesh armature blender_object export_settings
    = Some tangents →
  length tangents = length (Mesh.loops blender_mesh).
Proof.
  unfold __get_tangents. intros (ts & Ht & [= <-])%bind_Some.
  assert (length ts = length (Mesh.loops blender_mesh)) as Hl.
  { destruct armature as [armature|], blender_object as [blender_object|];
      try (injection Ht as <-; by rewrite length_fmap).
    apply bind_Some in Ht as (M & _ & [= <-]).
    unfold __normalize_vecs, __apply_mat_to_all. by rewrite !length_fmap. }
  destruct (export_keys.YUP export_settings); [|done].
  unfold __zup2yup. by rewrite !length_fmap.
Qed.

Lemma get_bitangent_signs_length blender_mesh armature blender_object export_settings
    signs :
  __get_bitangent_signs blender_mesh armature blender_object export_settings
    = Some signs →
  length signs = length (Mesh.loops blender_mesh).
Proof.
  unfold __get_bitangent_signs.
  destruct armature as [armature|], blender_object as [blender_object|];
    try (intros [= <-]; by rewrite length_fmap).
  intros (M & _ & [= <-])%bind_Some.
  destruct (bool_decide _); by rewrite ?length_fmap.
Qed.

Lemma tangent_dots_length blender_mesh dtype armature blender_object export_settings
    dots :
  world_invertible armature blender_object →
  length dots = length (Mesh.loops blender_mesh) →
  ∃ dots',
    tangent_dots blender_mesh dtype armature blender_object export_settings dots
      = Some dots' ∧
    length dots' = length (Mesh.loops blender_mesh).
Proof.
  intros Hworld Hl. unfold tangent_dots.
  destruct (proj2 (get_tangents_is_Some blender_mesh armature blender_object
                     export_settings) Hworld) as [tangents Ht].
  destruct (proj2 (get_bitangent_signs_is_Some blender_mesh armature blender_object
                     export_settings) Hworld) as [signs Hs].
  rewrite Ht, Hs. simpl. eexists. split; [done|].
  apply get_tangents_length in Ht. apply get_bitangent_signs_length in Hs.
  rewrite set_field_length; rewrite set_rows3_length; lia.
Qed.

Lemma the_dots_total blender_mesh blender_object blender_vertex_groups modifiers
    export_settings :
  mesh_wf blender_mesh → layers_wf blender_mesh →
  skinning_invertible
    (the_armature blender_object blender_vertex_groups modifiers export_settings)
    blender_object (export_keys.NORMALS export_settings) →
  ∃ dots,
    the_dots blender_mesh blender_object blender_vertex_groups modifiers
      export_settings = Some dots ∧
    length dots = length (Mesh.loops blender_mesh).
Proof.
  intros Hwf Hlw [Hworld Hnormal]. unfold the_dots. rewrite collect_dots_stages.
  cbv zeta.
  set (n := length (Mesh.loops blender_mesh)).
  set (dtype := flags.dtype blender_mesh export_settings).
  set (armature := the_armature _ _ _ _).
  pose proof (active_key_blocks_wf blender_mesh export_settings Hlw) as Hkbs.
  assert (length (set_vertex_index (MeshLoop.vertex_index <$> Mesh.loops blender_mesh)
                    (empty_dots n dtype)) = n) as H0.
  { unfold set_vertex_index, empty_dots.
    rewrite length_zip_with, length_replicate, length_fmap. unfold n. lia. }
  revert H0. generalize (set_vertex_index
    (MeshLoop.vertex_index <$> Mesh.loops blender_mesh) (empty_dots n dtype)).
  intros d0 H0.
  assert (∃ d1,
            (if flags.use_normals export_settings
             then normal_dots blender_mesh dtype
                    (flags.use_morph_normals export_settings)
                    (flags.key_blocks blender_mesh export_settings)
                    armature blender_object export_settings d0
             else Some d0) = Some d1 ∧ length d1 = n) as (d1 & -> & H1).
  { destruct (flags.use_normals export_settings) eqn:Hun; [|by exists d0].
    apply normal_dots_length; [by apply Hnormal| |done].
    eapply Forall_impl; [exact Hkbs|]. by intros kb [_ ?]. }
  cbn [mbind option_bind].
  assert (∃ d2,
            (if flags.use_tangents blender_mesh export_settings
             then tangent_dots blender_mesh dtype armature blender_object
                    export_settings d1
             else Some d1) = Some d2 ∧ length d2 = n) as (d2 & -> & H2).
  { destruct (flags.use_tangents blender_mesh export_settings); [|by exists d1].
    by apply tangent_dots_length. }
  cbn [mbind option_bind].
  destruct (foldl_option_total (λ d, length d = n)
              (uv_dots blender_mesh dtype)
              (seq 0 (flags.tex_coord_max blender_mesh export_settings)) d2 H2)
    as (d3 & -> & H3).
  { intros a i Hi%elem_of_seq Ha. unfold uv_dots, __get_uvs.
    destruct (lookup_lt_is_Some_2 (Mesh.uv_layers blender_mesh) i) as [layer Hlayer].
    { unfold flags.tex_coord_max in Hi. destruct (_ && _); simpl in Hi; lia. }
    rewrite Hlayer. simpl. eexists. split; [done|].
    destruct Hlw as [_ Huv _ _ _].
    pose proof (Forall_lookup_1 _ _ _ _ Huv Hlayer) as Hlen. simpl in Hlen.
    do 2 (apply set_field_full; [|rewrite !length_fmap; unfold n, vec2 in *; lia]).
    done. }
  cbn [mbind option_bind].
  destruct (foldl_option_total (λ d, length d = n)
              (color_dots blender_mesh dtype)
              (seq 0 (flags.color_max blender_mesh export_settings)) d3 H3)
    as (d4 & -> & H4).
  { intros a i Hi%elem_of_seq Ha. unfold color_dots, __get_colors.
    destruct (lookup_lt_is_Some_2 (Mesh.vertex_colors blender_mesh) i)
      as [layer Hlayer].
    { unfold flags.color_max in Hi. destruct (export_keys.COLORS _); simpl in Hi; lia. }
    rewrite Hlayer. simpl. eexists. split; [done|].
    destruct Hlw as [_ _ Hcol _ _].
    pose proof (Forall_lookup_1 _ _ _ _ Hcol Hlayer) as Hlen. simpl in Hlen.
    do 4 (apply set_field_full; [|rewrite !length_fmap; unfold n, vec4 in *; lia]).
    done. }
  cbn [mbind option_bind]. unfold facemap_dots.
  destruct (flags.use_facemaps blender_mesh) eqn:Huf; [|by exists d4].
  apply bool_decide_eq_true in Huf.
  destruct (Mesh.face_maps blender_mesh) as [|poly_facemap fms] eqn:Hfm; [done|].
  destruct (get_facemaps_total blender_mesh poly_facemap)
    as (facemaps & -> & Hlen).
  { by destruct Hwf. }
  { by rewrite Hfm. }
  { destruct Hlw as [_ _ _ Hf _]. rewrite Hfm in Hf.
    by apply Forall_cons in Hf as [? _]. }
  simpl. eexists. split; [done|]. apply set_field_full; [done|]. unfold n. lia.
Qed.
End totality.

Section primitive_totality.
Context `{Externals}.
Implicit Types dots : list Dot.t.

Lemma take_total {A} (a : list A) idx :
  Forall (λ i, i < length a)%nat idx → is_Some (np.take a idx).
Proof.
  intros Hi. apply mapM_is_Some. eapply Forall_impl; [exact Hi|].
  intros i Hlt. simpl. by apply lookup_lt_is_Some.
Qed.

Lemma morph_position_attributes_total (morph_locs : list (list vec3)) idxs n
    attributes :
  Forall (λ vs, length vs = n) morph_locs → Forall (λ i, i < n)%nat idxs →
  is_Some (morph_position_attributes morph_locs idxs attributes).
Proof.
  intros Hm Hi. unfold morph_position_attributes.
  assert (Forall (λ x : nat * list vec3, length x.2 = n) (imap pair morph_locs)) as Hl.
  { apply Forall_forall. intros [i vs] Hin.
    apply elem_of_lookup_imap in Hin as (i' & vs' & [= -> ->] & Hin). simpl.
    by eapply (Forall_lookup_1 _ _ _ _ Hm). }
  revert Hl. generalize (imap pair morph_locs). intros l Hl. revert attributes.
  induction l as [|[i vs] l IH]; intros attributes; simpl; [done|].
  apply Forall_cons in Hl as [Hvs Hl]. simpl in Hvs.
  destruct (take_total vs idxs) as [rows ->]; [by rewrite Hvs|].
  simpl. by apply IH.
Qed.

Lemma pack_skin_total (vert_bones : list (list (nat * Qc))) num_joint_sets idxs :
  Forall (λ i, i < length vert_bones)%nat idxs →
  is_Some (pack_skin vert_bones num_joint_sets idxs).
Proof.
  intros Hi. unfold pack_skin.
  generalize (replicate num_joint_sets ([] : list nat),
              replicate num_joint_sets ([] : list Qc)).
  induction idxs as [|vi idxs IH]; intros lists; simpl; [done|].
  apply Forall_cons in Hi as [Hvi Hi].
  destruct (lookup_lt_is_Some_2 vert_bones vi Hvi) as [bones ->]. simpl.
  by apply IH.
Qed.

Lemma skin_attributes_total blender_mesh (skin : option Skin.t) blender_vertex_groups
    idxs attributes :
  Forall (λ i, i < length (Mesh.vertices blender_mesh))%nat idxs →
  is_Some (skin_attributes
             ((λ skin, __get_bone_data blender_mesh skin blender_vertex_groups) <$> skin)
             idxs attributes).
Proof.
  intros Hi. destruct skin as [skin|]; [|done]. simpl.
  destruct (pack_skin_total
              (__get_bone_data blender_mesh skin blender_vertex_groups).1
              (__get_bone_data blender_mesh skin blender_vertex_groups).2 idxs)
    as [[joints weights] Hp].
  { simpl. by rewrite length_fmap. }
  simpl in Hp. rewrite Hp. done.
Qed.

Lemma extra_vgroups_lengths blender_mesh modifiers blender_vertex_groups :
  Forall (λ x : string * list Qc, length x.2 = length (Mesh.vertices blender_mesh))
    (__get_extra_vgroups blender_mesh modifiers blender_vertex_groups).
Proof.
  unfold __get_extra_vgroups. case_decide; [constructor|].
  case_decide; [constructor|].
  apply Forall_forall. intros [name ws] Hin.
  apply list_elem_of_omap in Hin as ([i g] & _ & Hf).
  case_decide; [done|]. injection Hf as _ <-. simpl. by rewrite length_fmap.
Qed.

Lemma vgroup_attributes_total (extra : list (string * list Qc)) idxs n attributes :
  Forall (λ x : string * list Qc, length x.2 = n) extra →
  Forall (λ i, i < n)%nat idxs →
  is_Some (vgroup_attributes extra idxs attributes).
Proof.
  intros Hl Hi. unfold vgroup_attributes. revert attributes.
  induction extra as [|[name ws] l IH]; intros attributes; simpl; [done|].
  apply Forall_cons in Hl as [Hws Hl]. simpl in Hws.
  destruct (take_total ws idxs) as [rows ->]; [by rewrite Hws|].
  simpl. by apply IH.
Qed.

Lemma elem_of_loops_of_filter (P : MeshLoopTriangle.t → Prop)
    `{∀ t, Decision (P t)} tris li :
  li ∈ loops_of (filter P tris) → li ∈ loops_of tris.
Proof.
  unfold loops_of. rewrite !list_elem_of_bind.
  intros (t & Hli & [_ Ht]%list_elem_of_filter). by exists t.
Qed.

Lemma bucket_subseteq blender_mesh use_materials material bucket li :
  (material, bucket) ∈
    bucket_by_material blender_mesh use_materials (triangle_loops blender_mesh) →
  li ∈ bucket → li ∈ triangle_loops blender_mesh.
Proof.
  destruct (decide (use_materials = NONE)) as [->|Hm].
  - simpl. by intros [= -> ->]%list_elem_of_singleton.
  - rewrite bucket_by_material_materials by done.
    intros (u & [= -> ->] & _)%list_elem_of_fmap. apply elem_of_loops_of_filter.
Qed.

Lemma the_primitive_total blender_mesh blender_object blender_vertex_groups modifiers
    export_settings positions dots material_idx dot_indices :
  mesh_wf blender_mesh → layers_wf blender_mesh →
  the_positions blender_mesh blender_object blender_vertex_groups modifiers
    export_settings = Some positions →
  the_dots blender_mesh blender_object blender_vertex_groups modifiers
    export_settings = Some dots →
  length dots = length (Mesh.loops blender_mesh) →
  Forall (λ li, li < length (Mesh.loops blender_mesh))%nat dot_indices →
  is_Some (the_primitive blender_mesh blender_object blender_vertex_groups modifiers
             export_settings positions dots material_idx dot_indices).
Proof.
  intros Hwf Hlw Hpositions Hd Hlen Hidx. unfold the_primitive, make_primitive.
  cbv zeta.
  destruct (take_total dots dot_indices) as [prim_dots Ht]; [by rewrite Hlen|].
  rewrite Ht. cbn [mbind option_bind]. unfold np.unique_inverse. cbv zeta.
  case_decide as Hu; [done|].
  set (u := np.unique Dot.le prim_dots) in *.
  set (nv := length (Mesh.vertices blender_mesh)).
  assert (Forall (λ i, i < nv)%nat (Dot.vertex_index <$> u)) as Hvi.
  { apply Forall_fmap, Forall_forall. intros d Hdu. simpl.
    apply elem_of_unique in Hdu; [|apply _..].
    apply list_elem_of_lookup in Hdu as [corner Hc].
    pose proof (take_length _ _ _ Ht) as Hl.
    destruct (lookup_lt_is_Some_2 dot_indices corner) as [li Hli].
    { rewrite <-Hl. by eapply lookup_lt_Some. }
    destruct (take_lookup _ _ _ _ _ Ht Hli) as [Hpd _]. rewrite Hc in Hpd.
    symmetry in Hpd.
    destruct (collect_dots_of_loops _ _ _ _ _ _ _ _ _ _ _ _ _ Hd li d Hpd)
      as (loop & Hloop & ->).
    destruct Hwf as [Hrange _ _ _].
    by apply (Forall_lookup_1 _ _ _ _ Hrange Hloop). }
  pose proof (active_key_blocks_wf blender_mesh export_settings Hlw) as Hkbs.
  destruct (get_positions_lengths _ _ _ _ _ _ Hpositions) as [Hlocs Hmlocs].
  { eapply Forall_impl; [exact Hkbs|]. by intros kb [? _]. }
  destruct positions as [locs mlocs]. simpl in Hlocs, Hmlocs |- *.
  destruct (take_total locs (Dot.vertex_index <$> u)) as [position ->].
  { by rewrite Hlocs. }
  cbn [mbind option_bind].
  destruct (morph_position_attributes_total mlocs (Dot.vertex_index <$> u) nv
              (<["POSITION" := Vec3s position]> ∅)) as [a1 ->]; [done|done|].
  cbn [mbind option_bind].
  match goal with
  | |- is_Some (mbind _ (skin_attributes _ _ ?a)) =>
      destruct (skin_attributes_total blender_mesh
                  (find_armature blender_object blender_vertex_groups modifiers
                     export_settings).2
                  blender_vertex_groups (Dot.vertex_index <$> u) a) as [a2 ->];
        [done|]
  end.
  cbn [mbind option_bind].
  destruct (vgroup_attributes_total
              (__get_extra_vgroups blender_mesh modifiers blender_vertex_groups)
              (Dot.vertex_index <$> u) nv a2) as [a3 ->];
    [apply extra_vgroups_lengths|done|].
  done.
Qed.

(** X17: on a mesh with the structure and the array sizes that Blender
    guarantees, [extract_primitives] raises an exception exactly when a
    matrix that the skinning transforms invert has no inverse (the
    ValueError of [Matrix.inverted()]): no lookup of a layer, a loop, a
    vertex or a polygon is out of range.  A mesh that is not skinned always
    has a result. *)
Theorem extract_primitives_total blender_mesh blender_object blender_vertex_groups
    modifiers export_settings :
  mesh_wf blender_mesh → layers_wf blender_mesh →
  let armature :=
    (find_armature blender_object blender_vertex_groups modifiers export_settings).1 in
  is_Some (extract_primitives blender_mesh blender_object blender_vertex_groups
             modifiers export_settings) ↔
  skinning_invertible armature blender_object (export_keys.NORMALS export_settings).
Proof.
  intros Hwf Hlw armature. split.
  { intros [prims He]. by eapply extract_primitives_invertible. }
  intros Hinv. rewrite extract_primitives_eq.
  destruct (proj2 (get_positions_is_Some blender_mesh
                     (flags.key_blocks blender_mesh export_settings) armature
                     blender_object export_settings) (proj1 Hinv))
    as [positions Hpositions].
  unfold the_positions, the_armature. fold armature. rewrite Hpositions.
  cbn [mbind option_bind].
  destruct (the_dots_total blender_mesh blender_object blender_vertex_groups modifiers
              export_settings Hwf Hlw Hinv) as (dots & Hd & Hlen).
  rewrite Hd. cbn [mbind option_bind].
  match goal with
  | |- is_Some (mbind _ ?c) => assert (is_Some c) as [results ->]; [|done]
  end.
  apply mapM_is_Some, Forall_forall. intros [material bucket] Hb. simpl.
  apply the_primitive_total; [done..|].
  apply Forall_forall. intros li Hli.
  destruct Hlw as [Htri _ _ _ _]. rewrite Forall_forall in Htri. apply Htri.
  by eapply bucket_subseteq.
Qed.
End primitive_totality.

(** ** The attributes that a primitive has *)

Section presence.
Context `{Externals}.

Ltac name_ne := let E := fresh in intros E; simpl in E; discriminate E.

Lemma make_primitive_unfold dtype dots un ut umn umt uf tcm cm kbs locs mlocs skin
    extra material_idx dot_indices p :
  make_primitive dtype dots un ut umn umt uf tcm cm kbs locs mlocs skin extra
    material_idx dot_indices = Some (Some p) →
  ∃ prim_dots position a1 a2 a3,
    let u := np.unique Dot.le prim_dots in
    let blender_idxs := Dot.vertex_index <$> u in
    np.take dots dot_indices = Some prim_dots ∧
    np.take locs blender_idxs = Some position ∧
    morph_position_attributes mlocs blender_idxs (<["POSITION" := Vec3s position]> ∅)
      = Some a1 ∧
    skin_attributes skin blender_idxs
      (dot_attributes dtype u un ut umn umt tcm cm kbs a1) = Some a2 ∧
    vgroup_attributes extra blender_idxs a2 = Some a3 ∧
    Primitive.attributes p =
      (if uf then <["_FACEMAPS" := Floats (get_field dtype "facemaps" u)]> a3 else a3) ∧
    Primitive.indices p = (np.unique_inverse Dot.le prim_dots).2.
Proof.
  unfold make_primitive. intros Hm.
  apply bind_Some in Hm as (prim_dots & Ht & Hm). exists prim_dots.
  unfold np.unique_inverse in *. cbv zeta in Hm.
  case_decide as Hlen; [done|].
  apply bind_Some in Hm as (position & Hpos & Hm).
  apply bind_Some in Hm as (a1 & Ha1 & Hm).
  apply bind_Some in Hm as (a2 & Ha2 & Hm).
  apply bind_Some in Hm as (a3 & Ha3 & Hm).
  injection Hm as <-. by exists position, a1, a2, a3.
Qed.

(** An attribute that is read from the dots, in a primitive: the
    attributes of the skin, of the vertex groups and of the face maps are
    written after it and leave it alone, and before it there are the
    positions only. *)
Lemma make_primitive_fresh_attribute k dtype dots un ut umn umt uf tcm cm kbs locs
    mlocs skin extra material_idx dot_indices p :
  k ≠ "POSITION" → (∀ s, k ≠ "MORPH_POSITION_" +:+ s) →
  (∀ s, k ≠ "JOINTS_" +:+ s) → (∀ s, k ≠ "WEIGHTS_" +:+ s) →
  (∀ s, k ≠ "_VG_" +:+ s) → k ≠ "_FACEMAPS" →
  make_primitive dtype dots un ut umn umt uf tcm cm kbs locs mlocs skin extra
    material_idx dot_indices = Some (Some p) →
  ∃ prim_dots attributes,
    attributes !! k = None ∧
    Primitive.attributes p !! k =
      dot_attributes dtype (np.unique Dot.le prim_dots) un ut umn umt tcm cm kbs
        attributes !! k.
Proof.
  intros Hp Hmp Hj Hw Hvg Hfm Hm.
  apply make_primitive_unfold in Hm
    as (prim_dots & position & a1 & a2 & a3 & _ & _ & Ha1 & Ha2 & Ha3 & Hattr & _).
  exists prim_dots, a1. split.
  - rewrite (morph_position_attributes_lookup k _ _ _ _ Hmp Ha1).
    by rewrite lookup_insert_ne.
  - rewrite Hattr.
    rewrite <-(skin_attributes_lookup k _ _ _ _ Hj Hw Ha2).
    rewrite <-(vgroup_attributes_lookup k _ _ _ _ Hvg Ha3).
    destruct uf; [|done]. by rewrite lookup_insert_ne.
Qed.

Lemma foldl_lookup_ne_in {V} (k : string) (f : gmap string V → nat → gmap string V)
    (l : list nat) (a : gmap string V) :
  (∀ a j, j ∈ l → f a j !! k = a !! k) → foldl f a l !! k = a !! k.
Proof.
  revert a. induction l as [|j l IH]; intros a Hf; [done|].
  simpl. rewrite IH.
  - apply Hf. left.
  - intros a' j' Hj'. apply Hf. by right.
Qed.

Lemma dot_attributes_texcoord_None dtype prim_dots un ut umn umt tcm cm kbs attributes
    (i : nat) :
  (tcm ≤ i)%nat → attributes !! ("TEXCOORD_" +:+ pretty i) = None →
  dot_attributes dtype prim_dots un ut umn umt tcm cm kbs attributes
    !! ("TEXCOORD_" +:+ pretty i) = None.
Proof.
  intros Hi Ha. unfold dot_attributes. cbv zeta.
  rewrite foldl_lookup_ne.
  2:{ intros a j. by rewrite lookup_insert_ne by name_ne. }
  rewrite foldl_lookup_ne_in.
  2:{ intros a j Hj%elem_of_seq. rewrite lookup_insert_ne; [done|].
      intros E%prefixed_name_inj. lia. }
  assert (∀ a : gmap string array, a !! ("TEXCOORD_" +:+ pretty i) = None →
    (if umn then
       foldl (λ attributes morph_i,
          let ns := rows3 (get_field dtype ("morph" +:+ pretty morph_i +:+ "nx") prim_dots)
                          (get_field dtype ("morph" +:+ pretty morph_i +:+ "ny") prim_dots)
                          (get_field dtype ("morph" +:+ pretty morph_i +:+ "nz") prim_dots) in
          let attributes :=
            <["MORPH_NORMAL_" +:+ pretty morph_i := Vec3s ns]> attributes in
          if umt
          then <["MORPH_TANGENT_" +:+ pretty morph_i :=
                   Vec3s (__calc_morph_tangents
                            (rows3 (get_field dtype "nx" prim_dots)
                                   (get_field dtype "ny" prim_dots)
                                   (get_field dtype "nz" prim_dots)) ns
                            (rows4 (get_field dtype "tx" prim_dots)
                                   (get_field dtype "ty" prim_dots)
                                   (get_field dtype "tz" prim_dots)
                                   (get_field dtype "tw" prim_dots)))]> attributes
          else attributes) a (seq 0 (length kbs))
     else a) !! ("TEXCOORD_" +:+ pretty i) = None) as Hmorph.
  { intros a Hnone. destruct umn; [|done]. rewrite foldl_lookup_ne; [done|].
    intros a' j. cbv zeta. destruct umt; rewrite ?lookup_insert_ne by name_ne; done. }
  apply Hmorph. destruct ut, un; rewrite ?lookup_insert_ne by name_ne; done.
Qed.

Lemma dot_attributes_color_None dtype prim_dots un ut umn umt tcm cm kbs attributes
    (i : nat) :
  (cm ≤ i)%nat → attributes !! ("COLOR_" +:+ pretty i) = None →
  dot_attributes dtype prim_dots un ut umn umt tcm cm kbs attributes
    !! ("COLOR_" +:+ pretty i) = None.
Proof.
  intros Hi Ha. unfold dot_attributes. cbv zeta.
  rewrite foldl_lookup_ne_in.
  2:{ intros a j Hj%elem_of_seq. rewrite lookup_insert_ne; [done|].
      intros E%prefixed_name_inj. lia. }
  rewrite foldl_lookup_ne.
  2:{ intros a j. by rewrite lookup_insert_ne by name_ne. }
  assert (∀ a : gmap string array, a !! ("COLOR_" +:+ pretty i) = None →
    (if umn then
       foldl (λ attributes morph_i,
          let ns := rows3 (get_field dtype ("morph" +:+ pretty morph_i +:+ "nx") prim_dots)
                          (get_field dtype ("morph" +:+ pretty morph_i +:+ "ny") prim_dots)
                          (get_field dtype ("morph" +:+ pretty morph_i +:+ "nz") prim_dots) in
          let attributes :=
            <["MORPH_NORMAL_" +:+ pretty morph_i := Vec3s ns]> attributes in
          if umt
          then <["MORPH_TANGENT_" +:+ pretty morph_i :=
                   Vec3s (__calc_morph_tangents
                            (rows3 (get_field dtype "nx" prim_dots)
                                   (get_field dtype "ny" prim_dots)
                                   (get_field dtype "nz" prim_dots)) ns
                            (rows4 (get_field dtype "tx" prim_dots)
                                   (get_field dtype "ty" prim_dots)
                                   (get_field dtype "tz" prim_dots)
                                   (get_field dtype "tw" prim_dots)))]> attributes
          else attributes) a (seq 0 (length kbs))
     else a) !! ("COLOR_" +:+ pretty i) = None) as Hmorph.
  { intros a Hnone. destruct umn; [|done]. rewrite foldl_lookup_ne; [done|].
    intros a' j. cbv zeta. destruct umt; rewrite ?lookup_insert_ne by name_ne; done. }
  apply Hmorph. destruct ut, un; rewrite ?lookup_insert_ne by name_ne; done.
Qed.

(** X18: a primitive has NORMAL exactly when normals are exported,
    TANGENT exactly when tangents are in use, and then it has NORMAL as
    well; it has TEXCOORD_i exactly for the exported UV layers and COLOR_i
    exactly for the exported color layers, numbered from 0 without gap. *)
Theorem attribute_presence blender_mesh blender_object blender_vertex_groups
    modifiers export_settings prims p :
  extract_primitives blender_mesh blender_object blender_vertex_groups modifiers
    export_settings = Some prims →
  p ∈ prims →
  let present name := is_Some (Primitive.attributes p !! name) in
  (present "NORMAL" ↔ export_keys.NORMALS export_settings = true) ∧
  (present "TANGENT" ↔ flags.use_tangents blender_mesh export_settings = true) ∧
  (present "TANGENT" → present "NORMAL") ∧
  (∀ i : nat, present ("TEXCOORD_" +:+ pretty i) ↔
     (i < flags.tex_coord_max blender_mesh export_settings)%nat) ∧
  (∀ i : nat, present ("COLOR_" +:+ pretty i) ↔
     (i < flags.color_max blender_mesh export_settings)%nat).
Proof.
  intros He Hp present.
  destruct (extract_primitives_elem_of _ _ _ _ _ _ _ He Hp)
    as (positions & dots & bucket & Hpositions & Hd & Hb & Hmk).
  unfold the_primitive in Hmk. cbv zeta in Hmk.
  assert (present "NORMAL" ↔ export_keys.NORMALS export_settings = true) as Hn.
  { unfold present.
    destruct (make_primitive_fresh_attribute "NORMAL" _ _ _ _ _ _ _ _ _ _ _ _ _ _ _ _ _
                ltac:(name_ne) ltac:(intros; name_ne) ltac:(intros; name_ne)
                ltac:(intros; name_ne) ltac:(intros; name_ne) ltac:(name_ne) Hmk)
      as (prim_dots & a & Ha & ->).
    rewrite dot_attributes_base by (intros; name_ne). cbv zeta.
    unfold flags.use_normals.
    destruct (flags.use_tangents _ _), (export_keys.NORMALS _);
      rewrite ?lookup_insert_ne by name_ne; rewrite ?lookup_insert_eq, ?Ha;
      split; (done || by intros []). }
  assert (present "TANGENT" ↔ flags.use_tangents blender_mesh export_settings = true)
    as Ht.
  { unfold present.
    destruct (make_primitive_fresh_attribute "TANGENT" _ _ _ _ _ _ _ _ _ _ _ _ _ _ _ _ _
                ltac:(name_ne) ltac:(intros; name_ne) ltac:(intros; name_ne)
                ltac:(intros; name_ne) ltac:(intros; name_ne) ltac:(name_ne) Hmk)
      as (prim_dots & a & Ha & ->).
    rewrite dot_attributes_base by (intros; name_ne). cbv zeta.
    destruct (flags.use_tangents _ _), (flags.use_normals _);
      rewrite ?lookup_insert_ne by name_ne; rewrite ?lookup_insert_eq, ?Ha;
      split; (done || by intros []). }
  split_and!; [done|done| | |].
  - rewrite Hn, Ht. unfold flags.use_tangents, flags.use_normals.
    by intros [[[? _]%andb_prop _]%andb_prop _]%andb_prop.
  - intros i. unfold present.
    destruct (make_primitive_fresh_attribute ("TEXCOORD_" +:+ pretty i)
                _ _ _ _ _ _ _ _ _ _ _ _ _ _ _ _ _
                ltac:(name_ne) ltac:(intros; name_ne) ltac:(intros; name_ne)
                ltac:(intros; name_ne) ltac:(intros; name_ne) ltac:(name_ne) Hmk)
      as (prim_dots & a & Ha & ->).
    destruct (decide (i < flags.tex_coord_max blender_mesh export_settings)%nat)
      as [Hi|Hi].
    + by rewrite dot_attributes_texcoord.
    + rewrite dot_attributes_texcoord_None; [|lia|done]. split; [by intros []|lia].
  - intros i. unfold present.
    destruct (make_primitive_fresh_attribute ("COLOR_" +:+ pretty i)
                _ _ _ _ _ _ _ _ _ _ _ _ _ _ _ _ _
                ltac:(name_ne) ltac:(intros; name_ne) ltac:(intros; name_ne)
                ltac:(intros; name_ne) ltac:(intros; name_ne) ltac:(name_ne) Hmk)
      as (prim_dots & a & Ha & ->).
    destruct (decide (i < flags.color_max blender_mesh export_settings)%nat)
      as [Hi|Hi].
    + by rewrite dot_attributes_color.
    + rewrite dot_attributes_color_None; [|lia|done]. split; [by intros []|lia].
Qed.
End presence.

Section more_exported.
Context `{Externals}.

Ltac name_ne := let E := fresh in intros E; simpl in E; discriminate E.

Lemma the_dots_facemaps blender_mesh blender_object blender_vertex_groups modifiers
    export_settings dots :
  the_dots blender_mesh blender_object blender_vertex_groups modifiers
    export_settings = Some dots →
  flags.use_facemaps blender_mesh = true →
  ∃ facemaps, __get_facemaps blender_mesh = Some facemaps ∧
    holds (flags.dtype blender_mesh export_settings) "facemaps" facemaps dots.
Proof.
  intros Hd Huf. unfold the_dots in Hd. rewrite collect_dots_stages in Hd.
  cbv zeta in Hd.
  apply bind_Some in Hd as (dn & Hdn & Hd).
  apply bind_Some in Hd as (dt & Hdt & Hd).
  apply bind_Some in Hd as (d1 & Hd1 & Hd).
  apply bind_Some in Hd as (d2 & Hd2 & Hd).
  unfold facemap_dots in Hd. rewrite Huf in Hd.
  apply bind_Some in Hd as (facemaps & Hf & [= <-]).
  exists facemaps. split; [done|]. apply set_field_holds.
  - by apply facemaps_field.
  - eapply color_fold_shaped; [exact Hd2|].
    eapply uv_fold_shaped; [exact Hd1|]. by eapply the_dots_shaped_before_uv.
Qed.

(** X19: when the mesh has face maps, _FACEMAPS at the index of a
    corner is the value that [__get_facemaps] gives the loop of that
    corner. *)
Theorem exported_facemaps blender_mesh blender_object blender_vertex_groups modifiers
    export_settings prims p :
  Mesh.face_maps blender_mesh ≠ [] →
  extract_primitives blender_mesh blender_object blender_vertex_groups modifiers
    export_settings = Some prims →
  p ∈ prims →
  ∃ bucket facemaps values,
    bucket_of blender_mesh export_settings (Primitive.material p) bucket ∧
    __get_facemaps blender_mesh = Some facemaps ∧
    Primitive.attributes p !! "_FACEMAPS" = Some (Floats values) ∧
    ∀ corner li, bucket !! corner = Some li →
      ∃ value index,
        facemaps !! li = Some value ∧
        Primitive.indices p !! corner = Some index ∧
        values !! index = Some value.
Proof.
  intros Hfm He Hp.
  destruct (extract_primitives_elem_of _ _ _ _ _ _ _ He Hp)
    as (positions & dots & bucket & Hpositions & Hd & Hb & Hmk).
  assert (flags.use_facemaps blender_mesh = true) as Huf
    by by apply bool_decide_eq_true.
  destruct (the_dots_facemaps _ _ _ _ _ _ Hd Huf) as (facemaps & Hf & Hh).
  unfold the_primitive in Hmk. cbv zeta in Hmk.
  apply make_primitive_unfold in Hmk
    as (prim_dots & position & a1 & a2 & a3 & Ht & _ & _ & _ & _ & Hattr & Hidx).
  rewrite Huf in Hattr.
  eexists bucket, facemaps, _. split_and!; [done|done| |].
  { rewrite Hattr. apply lookup_insert_eq. }
  intros corner li Hc.
  destruct (get_field_holds _ _ _ _ _ _ _ _ Hh Ht Hc) as (k & x & Hk & Hx & Hfx).
  exists x, k. split_and!; [done|by rewrite Hidx|done].
Qed.

Lemma morph_fold_lookup_ne (i : nat) (l : list (nat * list vec3)) idxs
    (attributes attributes' : gmap string array) :
  (∀ x, x ∈ l → x.1 ≠ i) →
  foldl (λ acc '(morph_i, vs),
      attributes ← acc;
      rows ← np.take vs idxs;
      Some (<["MORPH_POSITION_" +:+ pretty morph_i := Vec3s rows]> attributes))
    (Some attributes) l = Some attributes' →
  attributes' !! ("MORPH_POSITION_" +:+ pretty i) =
  attributes !! ("MORPH_POSITION_" +:+ pretty i).
Proof.
  revert attributes. induction l as [|[j ws] l IH]; simpl; intros attributes Hne Hf.
  { by injection Hf as <-. }
  destruct (np.take ws idxs) as [rows|] eqn:Ht; simpl in Hf.
  - rewrite (IH _ (λ x Hx, Hne x (list_elem_of_further _ _ _ Hx)) Hf).
    rewrite lookup_insert_ne; [done|]. intros E%prefixed_name_inj.
    by apply (Hne (j, ws)); [left|].
  - exfalso. clear -Hf. induction l as [|[j' ws'] l IH]; [done|]. by apply IH.
Qed.

Lemma morph_fold_lookup (i : nat) vs (l : list (nat * list vec3)) idxs
    (attributes attributes' : gmap string array) :
  NoDup l.*1 → (i, vs) ∈ l →
  foldl (λ acc '(morph_i, vs),
      attributes ← acc;
      rows ← np.take vs idxs;
      Some (<["MORPH_POSITION_" +:+ pretty morph_i := Vec3s rows]> attributes))
    (Some attributes) l = Some attributes' →
  ∃ rows, np.take vs idxs = Some rows ∧
    attributes' !! ("MORPH_POSITION_" +:+ pretty i) = Some (Vec3s rows).
Proof.
  revert attributes. induction l as [|[j ws] l IH]; simpl; intros attributes Hnd Hin Hf.
  { by apply elem_of_nil in Hin. }
  apply NoDup_cons in Hnd as [Hj Hnd].
  destruct (np.take ws idxs) as [rows|] eqn:Ht; simpl in Hf.
  2:{ exfalso. clear -Hf. induction l as [|[j' ws'] l IH]; [done|]. by apply IH. }
  apply elem_of_cons in Hin as [[= -> ->]|Hin].
  - exists rows. split; [done|].
    assert (∀ x : nat * list vec3, x ∈ l → x.1 ≠ j) as Hne.
    { intros [j' ws'] Hx E. simpl in E. subst j'. apply Hj.
      apply list_elem_of_fmap. by exists (j, ws'). }
    rewrite (morph_fold_lookup_ne j l idxs _ _ Hne Hf).
    apply lookup_insert_eq.
  - by eapply IH.
Qed.

Lemma imap_pair_fst {A} (l : list A) : (imap pair l).*1 = seq 0 (length l).
Proof.
  apply list_eq. intros i. rewrite list_lookup_fmap, list_lookup_imap.
  destruct (l !! i) as [x|] eqn:Hx; simpl.
  - symmetry. apply lookup_seq. split; [done|]. by eapply lookup_lt_Some.
  - symmetry. apply lookup_seq_ge. by apply lookup_ge_None.
Qed.

Lemma morph_position_attributes_at morph_locs idxs attributes attributes' (i : nat) vs :
  morph_locs !! i = Some vs →
  morph_position_attributes morph_locs idxs attributes = Some attributes' →
  ∃ rows, np.take vs idxs = Some rows ∧
    attributes' !! ("MORPH_POSITION_" +:+ pretty i) = Some (Vec3s rows).
Proof.
  intros Hi Hm. eapply morph_fold_lookup; [| |exact Hm].
  - rewrite imap_pair_fst. apply NoDup_seq.
  - apply elem_of_lookup_imap. by exists i, vs.
Qed.

(** X20: for every exported shape key [i], MORPH_POSITION_i at the
    index of a corner is the delta of the vertex of that corner: its
    transformed position in the shape key minus its transformed base
    position. *)
Theorem exported_morph_positions blender_mesh blender_object blender_vertex_groups
    modifiers export_settings prims p (morph_i : nat) key_block :
  extract_primitives blender_mesh blender_object blender_vertex_groups modifiers
    export_settings = Some prims →
  p ∈ prims →
  active_key_blocks blender_mesh export_settings !! morph_i = Some key_block →
  let T :=
    transformed_position
      (the_armature blender_object blender_vertex_groups modifiers export_settings)
      blender_object export_settings in
  ∃ bucket deltas,
    bucket_of blender_mesh export_settings (Primitive.material p) bucket ∧
    Primitive.attributes p !! ("MORPH_POSITION_" +:+ pretty morph_i)
      = Some (Vec3s deltas) ∧
    ∀ corner li, bucket !! corner = Some li →
      ∃ loop vertex morphed index,
        Mesh.loops blender_mesh !! li = Some loop ∧
        Mesh.vertices blender_mesh !! MeshLoop.vertex_index loop = Some vertex ∧
        ShapeKey.data key_block !! MeshLoop.vertex_index loop = Some morphed ∧
        Primitive.indices p !! corner = Some index ∧
        deltas !! index = Some (Vector.sub (T morphed) (T (MeshVertex.co vertex))).
Proof.
  intros He Hp Hkb T.
  destruct (extract_primitives_elem_of _ _ _ _ _ _ _ He Hp)
    as (positions & dots & bucket & Hpositions & Hd & Hb & Hmk).
  unfold the_primitive in Hmk. cbv zeta in Hmk.
  pose proof Hmk as Hmk'.
  apply make_primitive_unfold in Hmk'
    as (prim_dots & position & a1 & a2 & a3 & Ht & _ & Ha1 & Ha2 & Ha3 & Hattr & Hidx).
  unfold the_positions in Hpositions.
  apply get_positions_shape in Hpositions. subst positions. cbn [snd] in Ha1.
  set (armature := the_armature _ _ _ _) in *.
  set (skinned := skinned_position armature blender_object) in *.
  set (values := MeshVertex.co <$> Mesh.vertices blender_mesh) in *.
  set (vs := axis_conversion export_settings <$>
               zip_with Vector.sub (skinned <$> ShapeKey.data key_block) (skinned <$> values)).
  assert ((fmap (axis_conversion export_settings) <$>
             ((λ vs, zip_with Vector.sub vs (skinned <$> values)) <$>
                (fmap skinned <$>
                   (ShapeKey.data <$> flags.key_blocks blender_mesh export_settings))))
            !! morph_i = Some vs) as Hvs.
  { unfold flags.key_blocks. rewrite !list_lookup_fmap, Hkb. done. }
  destruct (morph_position_attributes_at _ _ _ _ morph_i vs Hvs Ha1)
    as (rows & Hrows & Hlook).
  exists bucket, rows. split_and!; [done| |].
  { rewrite Hattr.
    assert (a3 !! ("MORPH_POSITION_" +:+ pretty morph_i) = Some (Vec3s rows)) as Hl3.
    { rewrite (vgroup_attributes_lookup ("MORPH_POSITION_" +:+ pretty morph_i)
                 _ _ _ _ ltac:(intros; name_ne) Ha3).
      rewrite (skin_attributes_lookup ("MORPH_POSITION_" +:+ pretty morph_i)
                 _ _ _ _ ltac:(intros; name_ne) ltac:(intros; name_ne) Ha2).
      rewrite dot_attributes_base by (intros; name_ne). cbv zeta.
      destruct (flags.use_tangents _ _), (flags.use_normals _);
        rewrite ?lookup_insert_ne by name_ne; done. }
    destruct (flags.use_facemaps blender_mesh); [|done].
    by rewrite lookup_insert_ne by name_ne. }
  intros corner li Hc.
  destruct (take_lookup _ _ _ _ _ Ht Hc) as [Hpd [d Hdot]]. rewrite Hdot in Hpd.
  destruct (collect_dots_of_loops _ _ _ _ _ _ _ _ _ _ _ _ _ Hd li d Hdot)
    as (loop & Hloop & Hvi).
  destruct (unique_inverse_lookup Dot.le prim_dots corner d Hpd) as (k & Hk & Hu).
  assert ((Dot.vertex_index <$> np.unique Dot.le prim_dots) !! k =
          Some (MeshLoop.vertex_index loop)) as Hvk.
  { simpl in Hu. rewrite list_lookup_fmap, Hu. simpl. by rewrite Hvi. }
  destruct (take_lookup _ _ _ _ _ Hrows Hvk) as [Hrk [delta Hdelta]].
  unfold vs in Hdelta. rewrite list_lookup_fmap in Hdelta.
  apply fmap_Some in Hdelta as (delta' & Hz & ->).
  apply lookup_zip_with_Some in Hz as (m' & v' & -> & Hm & Hv).
  rewrite list_lookup_fmap in Hm. apply fmap_Some in Hm as (morphed & Hm & ->).
  unfold values in Hv. rewrite !list_lookup_fmap in Hv.
  destruct (Mesh.vertices blender_mesh !! MeshLoop.vertex_index loop)
    as [vertex|] eqn:Hvertex; [|done].
  simpl in Hv. injection Hv as <-.
  exists loop, vertex, morphed, k. split_and!; [done|done|done|by rewrite Hidx|].
  rewrite Hrk. unfold vs.
  rewrite list_lookup_fmap, lookup_zip_with, !list_lookup_fmap, Hm.
  unfold values. rewrite list_lookup_fmap, Hvertex. simpl.
  by rewrite axis_conversion_sub.
Qed.
End more_exported.

(** ** The properties on sample meshes *)

Lemma textured_quad_wf : mesh_wf textured_quad.
Proof.
  split; simpl; [|reflexivity| |reflexivity].
  - repeat constructor.
  - repeat constructor.
Defined.

Lemma textured_quad_layers_wf : layers_wf textured_quad.
Proof. split; simpl; repeat constructor. Defined.

Lemma bone_data_order_witness :
  ∃ bones influences,
    (__get_bone_data skinned_mesh skinned_skin skinned_vertex_groups).1 !! 0%nat
      = Some bones ∧
    influences_of skinned_skin skinned_vertex_groups
      (MeshVertex.groups skinned_vertex) influences ∧
    StronglySorted heavier bones ∧
    (influences ≠ [] →
       bones ≡ₚ influences ∧
       ∀ w, filter (λ b, b.2 = w) bones = filter (λ b, b.2 = w) influences) ∧
    (influences = [] → bones = [(0%nat, 1)]).
Proof.
  apply (bone_data_order skinned_mesh skinned_skin skinned_vertex_groups 0
           skinned_vertex).
  reflexivity.
Defined.

Lemma facemaps_per_polygon_witness :
  ∃ facemaps, __get_facemaps textured_quad = Some facemaps ∧
    length facemaps = length (Mesh.loops textured_quad) ∧
    ∀ polyi poly i value,
      Mesh.polygons textured_quad !! polyi = Some poly →
      (MeshPolygon.loop_start poly ≤ i <
         MeshPolygon.loop_start poly + MeshPolygon.loop_total poly)%nat →
      [Qc_of_Z 7] !! polyi = Some value →
      facemaps !! i = Some value.
Proof.
  apply (facemaps_per_polygon textured_quad [Qc_of_Z 7]); reflexivity.
Defined.

Lemma facemaps_in_range_witness :
  Mesh.face_maps textured_quad ≠ [] ∧
  length [Qc_of_Z 7; Qc_of_Z 7; Qc_of_Z 7; Qc_of_Z 7] = length (Mesh.loops textured_quad) ∧
  ∀ poly i, poly ∈ Mesh.polygons textured_quad →
    (MeshPolygon.loop_start poly ≤ i <
       MeshPolygon.loop_start poly + MeshPolygon.loop_total poly)%nat →
    (i < length (Mesh.loops textured_quad))%nat.
Proof.
  apply (facemaps_in_range textured_quad [Qc_of_Z 7; Qc_of_Z 7; Qc_of_Z 7; Qc_of_Z 7]). reflexivity.
Defined.

Lemma exported_positions_witness :
  ∃ bucket position,
    bucket_of textured_quad full_settings (Primitive.material textured_first) bucket ∧
    Primitive.attributes textured_first !! "POSITION" = Some (Vec3s position) ∧
    ∀ corner li, bucket !! corner = Some li →
      ∃ loop vertex index,
        Mesh.loops textured_quad !! li = Some loop ∧
        Mesh.vertices textured_quad !! MeshLoop.vertex_index loop = Some vertex ∧
        Primitive.indices textured_first !! corner = Some index ∧
        position !! index =
          Some (transformed_position
                  (find_armature (H := sample_externals) None [] None full_settings).1
                  None full_settings (MeshVertex.co vertex)).
Proof.
  apply (exported_positions (H := sample_externals) textured_quad None [] None
           full_settings textured_primitives textured_first).
  - vm_compute. reflexivity.
  - vm_compute. left.
Defined.

Lemma exported_normals_witness :
  ∃ bucket normal_transform normals,
    bucket_of textured_quad skinned_full_settings
      (Primitive.material skinned_quad_first) bucket ∧
    normal_transform_of
      (the_armature (H := sample_externals) (Some sample_object) skinned_vertex_groups
         (Some [armature_modifier sample_armature]) skinned_full_settings)
      (Some sample_object) normal_transform ∧
    Primitive.attributes skinned_quad_first !! "NORMAL" = Some (Vec3s normals) ∧
    ∀ corner li, bucket !! corner = Some li →
      ∃ loop index,
        Mesh.loops textured_quad !! li = Some loop ∧
        Primitive.indices skinned_quad_first !! corner = Some index ∧
        normals !! index =
          Some (axis_conversion skinned_full_settings
                  (up_if_zero
                     match normal_transform with
                     | Some N =>
                         unit_vector (H := sample_externals)
                           (Matrix.mulvec N (MeshLoop.normal loop))
                     | None => MeshLoop.normal loop
                     end)).
Proof.
  apply (exported_normals (H := sample_externals) textured_quad (Some sample_object) skinned_vertex_groups
           (Some [armature_modifier sample_armature]) skinned_full_settings
           skinned_quad_primitives skinned_quad_first).
  - reflexivity.
  - vm_compute. reflexivity.
  - vm_compute. left.
Defined.

Lemma exported_tangents_witness :
  ∃ bucket loop_tangents loop_signs tangents,
    bucket_of textured_quad skinned_full_settings
      (Primitive.material skinned_quad_first) bucket ∧
    __get_tangents (H := sample_externals) textured_quad
      (the_armature (H := sample_externals) (Some sample_object) skinned_vertex_groups
         (Some [armature_modifier sample_armature]) skinned_full_settings)
      (Some sample_object) skinned_full_settings = Some loop_tangents ∧
    __get_bitangent_signs (H := sample_externals) textured_quad
      (the_armature (H := sample_externals) (Some sample_object) skinned_vertex_groups
         (Some [armature_modifier sample_armature]) skinned_full_settings)
      (Some sample_object) skinned_full_settings = Some loop_signs ∧
    Primitive.attributes skinned_quad_first !! "TANGENT" = Some (Vec4s tangents) ∧
    ∀ corner li, bucket !! corner = Some li →
      ∃ tangent sign index,
        loop_tangents !! li = Some tangent ∧
        loop_signs !! li = Some sign ∧
        Primitive.indices skinned_quad_first !! corner = Some index ∧
        tangents !! index = Some (tangent, sign).
Proof.
  apply (exported_tangents (H := sample_externals) textured_quad (Some sample_object) skinned_vertex_groups
           (Some [armature_modifier sample_armature]) skinned_full_settings
           skinned_quad_primitives skinned_quad_first).
  - reflexivity.
  - vm_compute. reflexivity.
  - vm_compute. left.
Defined.

Lemma exported_texcoords_witness :
  ∃ bucket layer texcoords,
    bucket_of textured_quad full_settings (Primitive.material textured_first) bucket ∧
    Mesh.uv_layers textured_quad !! 0%nat = Some layer ∧
    Primitive.attributes textured_first !! ("TEXCOORD_" +:+ pretty 0%nat)
      = Some (Vec2s texcoords) ∧
    ∀ corner li, bucket !! corner = Some li →
      ∃ u v index,
        layer !! li = Some (u, v) ∧
        Primitive.indices textured_first !! corner = Some index ∧
        texcoords !! index = Some (u, 1 - v).
Proof.
  apply (exported_texcoords (H := sample_externals) textured_quad None [] None
           full_settings textured_primitives textured_first 0).
  - vm_compute. lia.
  - vm_compute. reflexivity.
  - vm_compute. left.
Defined.

Lemma exported_colors_witness :
  ∃ bucket layer colors,
    bucket_of textured_quad full_settings (Primitive.material textured_first) bucket ∧
    Mesh.vertex_colors textured_quad !! 0%nat = Some layer ∧
    Primitive.attributes textured_first !! ("COLOR_" +:+ pretty 0%nat)
      = Some (Vec4s colors) ∧
    ∀ corner li, bucket !! corner = Some li →
      ∃ r g b a index,
        layer !! li = Some (r, g, b, a) ∧
        Primitive.indices textured_first !! corner = Some index ∧
        colors !! index =
          Some (srgb_to_linear (H := sample_externals) r,
                srgb_to_linear (H := sample_externals) g,
                srgb_to_linear (H := sample_externals) b, a).
Proof.
  apply (exported_colors (H := sample_externals) textured_quad None [] None
           full_settings textured_primitives textured_first 0).
  - vm_compute. lia.
  - vm_compute. reflexivity.
  - vm_compute. left.
Defined.

Lemma none_mode_single_primitive_witness :
  (Mesh.loop_triangles quad = [] ∧ [quad_primitive] = []) ∨
  (Mesh.loop_triangles quad ≠ [] ∧
   ∃ p, [quad_primitive] = [p] ∧ Primitive.material p = (-1)%Z ∧
     length (Primitive.indices p) = (3 * length (Mesh.loop_triangles quad))%nat).
Proof.
  apply (none_mode_single_primitive (H := sample_externals) quad None [] None
           (sample_settings NONE) [quad_primitive]).
  - reflexivity.
  - vm_compute. reflexivity.
Defined.

Lemma extract_primitives_total_witness :
  is_Some (extract_primitives (H := sample_externals) textured_quad
             (Some sample_object) skinned_vertex_groups
             (Some [armature_modifier sample_armature]) skinned_full_settings) ↔
  skinning_invertible (Some sample_armature) (Some sample_object) true.
Proof.
  apply (extract_primitives_total (H := sample_externals) textured_quad (Some sample_object) skinned_vertex_groups
           (Some [armature_modifier sample_armature]) skinned_full_settings
           textured_quad_wf textured_quad_layers_wf).
Defined.

Lemma attribute_presence_witness :
  let present name := is_Some (Primitive.attributes textured_first !! name) in
  (present "NORMAL" ↔ export_keys.NORMALS full_settings = true) ∧
  (present "TANGENT" ↔ flags.use_tangents textured_quad full_settings = true) ∧
  (present "TANGENT" → present "NORMAL") ∧
  (∀ i : nat, present ("TEXCOORD_" +:+ pretty i) ↔
     (i < flags.tex_coord_max textured_quad full_settings)%nat) ∧
  (∀ i : nat, present ("COLOR_" +:+ pretty i) ↔
     (i < flags.color_max textured_quad full_settings)%nat).
Proof.
  apply (attribute_presence (H := sample_externals) textured_quad None [] None
           full_settings textured_primitives textured_first).
  - vm_compute. reflexivity.
  - vm_compute. left.
Defined.

Lemma exported_facemaps_witness :
  ∃ bucket facemaps values,
    bucket_of textured_quad full_settings (Primitive.material textured_first) bucket ∧
    __get_facemaps textured_quad = Some facemaps ∧
    Primitive.attributes textured_first !! "_FACEMAPS" = Some (Floats values) ∧
    ∀ corner li, bucket !! corner = Some li →
      ∃ value index,
        facemaps !! li = Some value ∧
        Primitive.indices textured_first !! corner = Some index ∧
        values !! index = Some value.
Proof.
  apply (exported_facemaps (H := sample_externals) textured_quad None [] None
           full_settings textured_primitives textured_first).
  - discriminate.
  - vm_compute. reflexivity.
  - vm_compute. left.
Defined.

Lemma exported_morph_positions_witness :
  let T :=
    transformed_position
      (the_armature (H := sample_externals) None [] None full_settings)
      None full_settings in
  ∃ bucket deltas,
    bucket_of textured_quad full_settings (Primitive.material textured_first) bucket ∧
    Primitive.attributes textured_first !! ("MORPH_POSITION_" +:+ pretty 0%nat)
      = Some (Vec3s deltas) ∧
    ∀ corner li, bucket !! corner = Some li →
      ∃ loop vertex morphed index,
        Mesh.loops textured_quad !! li = Some loop ∧
        Mesh.vertices textured_quad !! MeshLoop.vertex_index loop = Some vertex ∧
        ShapeKey.data moved_key !! MeshLoop.vertex_index loop = Some morphed ∧
        Primitive.indices textured_first !! corner = Some index ∧
        deltas !! index = Some (Vector.sub (T morphed) (T (MeshVertex.co vertex))).
Proof.
  apply (exported_morph_positions (H := sample_externals) textured_quad None [] None
           full_settings textured_primitives textured_first 0 moved_key).
  - vm_compute. reflexivity.
  - vm_compute. left.
  - reflexivity.
Defined.
